(** * Demand paging and FIFO swapping for xv6: a shallow embedding

    The development follows the two implementations of the paging core that
    the kernel directory holds, [demand_paging.c] and [lazy.c], together with
    the parts of [exec.c] and [sysproc.c] that feed them.  Each C function
    becomes a Rocq function over an explicit process record and an explicit
    kernel state; pointers into [p->pages] become indices. *)

From Stdlib Require Import ZArith List Bool Lia.
From stdpp Require Import base option list gmap.

Open Scope Z_scope.

(** ** Constants *)

(** Modelled from the spec: [PGSIZE] of [riscv.h], "typically 4096 bytes". *)
Definition PGSIZE : Z := 4096.

(** Modelled from the spec: [MAX_PROC_PAGES] of [proc.h], "e.g. 128". *)
Definition MAX_PROC_PAGES : Z := 128.

(** Modelled from the spec: [USERSTACK] of [param.h]; the stack region of the
    spec has "a small fixed K" pages, K = USERSTACK + 1 = 2 in [exec.c] and
    in both fault handlers. *)
Definition USERSTACK : Z := 1.

(** [lazyalloc.h] *)
Definition MAX_SWAP_SLOTS : Z := 1024.

(** [uint64] arithmetic wraps modulo 2^64. *)
Definition u64 (x : Z) : Z := x mod 2 ^ 64.

(** [#define PGROUNDDOWN(a) (((a)) & ~(PGSIZE-1))] on a [uint64]. *)
Definition PGROUNDDOWN (a : Z) : Z := u64 (Z.land a (Z.lnot (PGSIZE - 1))).

(** [#define PGROUNDUP(sz) (((sz)+PGSIZE-1) & ~(PGSIZE-1))] *)
Definition PGROUNDUP (a : Z) : Z := PGROUNDDOWN (u64 (a + PGSIZE - 1)).

(** Permission bits of a page-table entry ([riscv.h]). *)
Definition PTE_R : Z := 2.
Definition PTE_W : Z := 4.
Definition PTE_X : Z := 8.
Definition PTE_U : Z := 16.

(** ** Data model *)

(** [memstat.h]: UNMAPPED = 0, RESIDENT = 1, SWAPPED = 2. *)
Inductive page_state : Set := UNMAPPED | RESIDENT | SWAPPED.

#[global] Instance page_state_eq_dec : EqDecision page_state.
Proof. solve_decision. Defined.

Definition state_eqb (a b : page_state) : bool := bool_decide (a = b).

(** [struct page_info]; the flag [is_dirty] only ever receives 0 or 1. *)
Record page_info : Set := mk_page_info {
  pi_va : Z;
  pi_state : page_state;
  is_dirty : bool;
  seq : Z;
  swap_slot : Z
}.

(** The paging fields of [struct proc].  A null pointer is 0; a file or inode
    pointer is the number of the inode it designates.  [next_fifo_seq] and
    [seq] are C [int]s whose overflow is undefined; they are integers here,
    as in the spec's data model. *)
Record proc : Type := mk_proc {
  pid : Z;
  sz : Z;
  text_start : Z;
  text_end : Z;
  data_start : Z;
  data_end : Z;
  heap_start : Z;
  stack_top : Z;
  next_fifo_seq : Z;
  swapfile : Z;
  num_swapped_pages : Z;
  num_pages : Z;
  exec_inode : Z;
  swap_slot_bitmap : list Z;
  pages : list page_info;
  exec_off : list Z;
  exec_len : list Z;
  killed : bool
}.

Definition set_sz (p : proc) (v : Z) : proc :=
  mk_proc (pid p) v (text_start p) (text_end p) (data_start p) (data_end p)
    (heap_start p) (stack_top p) (next_fifo_seq p) (swapfile p)
    (num_swapped_pages p) (num_pages p) (exec_inode p) (swap_slot_bitmap p)
    (pages p) (exec_off p) (exec_len p) (killed p).

Definition set_next_fifo_seq (p : proc) (v : Z) : proc :=
  mk_proc (pid p) (sz p) (text_start p) (text_end p) (data_start p) (data_end p)
    (heap_start p) (stack_top p) v (swapfile p)
    (num_swapped_pages p) (num_pages p) (exec_inode p) (swap_slot_bitmap p)
    (pages p) (exec_off p) (exec_len p) (killed p).

Definition set_swapfile (p : proc) (v : Z) : proc :=
  mk_proc (pid p) (sz p) (text_start p) (text_end p) (data_start p) (data_end p)
    (heap_start p) (stack_top p) (next_fifo_seq p) v
    (num_swapped_pages p) (num_pages p) (exec_inode p) (swap_slot_bitmap p)
    (pages p) (exec_off p) (exec_len p) (killed p).

Definition set_num_swapped_pages (p : proc) (v : Z) : proc :=
  mk_proc (pid p) (sz p) (text_start p) (text_end p) (data_start p) (data_end p)
    (heap_start p) (stack_top p) (next_fifo_seq p) (swapfile p)
    v (num_pages p) (exec_inode p) (swap_slot_bitmap p)
    (pages p) (exec_off p) (exec_len p) (killed p).

Definition set_num_pages (p : proc) (v : Z) : proc :=
  mk_proc (pid p) (sz p) (text_start p) (text_end p) (data_start p) (data_end p)
    (heap_start p) (stack_top p) (next_fifo_seq p) (swapfile p)
    (num_swapped_pages p) v (exec_inode p) (swap_slot_bitmap p)
    (pages p) (exec_off p) (exec_len p) (killed p).

Definition set_exec_inode (p : proc) (v : Z) : proc :=
  mk_proc (pid p) (sz p) (text_start p) (text_end p) (data_start p) (data_end p)
    (heap_start p) (stack_top p) (next_fifo_seq p) (swapfile p)
    (num_swapped_pages p) (num_pages p) v (swap_slot_bitmap p)
    (pages p) (exec_off p) (exec_len p) (killed p).

Definition set_bitmap (p : proc) (v : list Z) : proc :=
  mk_proc (pid p) (sz p) (text_start p) (text_end p) (data_start p) (data_end p)
    (heap_start p) (stack_top p) (next_fifo_seq p) (swapfile p)
    (num_swapped_pages p) (num_pages p) (exec_inode p) v
    (pages p) (exec_off p) (exec_len p) (killed p).

Definition set_pages (p : proc) (v : list page_info) : proc :=
  mk_proc (pid p) (sz p) (text_start p) (text_end p) (data_start p) (data_end p)
    (heap_start p) (stack_top p) (next_fifo_seq p) (swapfile p)
    (num_swapped_pages p) (num_pages p) (exec_inode p) (swap_slot_bitmap p)
    v (exec_off p) (exec_len p) (killed p).

Definition set_exec_tables (p : proc) (off len : list Z) : proc :=
  mk_proc (pid p) (sz p) (text_start p) (text_end p) (data_start p) (data_end p)
    (heap_start p) (stack_top p) (next_fifo_seq p) (swapfile p)
    (num_swapped_pages p) (num_pages p) (exec_inode p) (swap_slot_bitmap p)
    (pages p) off len (killed p).

Definition set_killed (p : proc) (v : bool) : proc :=
  mk_proc (pid p) (sz p) (text_start p) (text_end p) (data_start p) (data_end p)
    (heap_start p) (stack_top p) (next_fifo_seq p) (swapfile p)
    (num_swapped_pages p) (num_pages p) (exec_inode p) (swap_slot_bitmap p)
    (pages p) (exec_off p) (exec_len p) v.

(** [setkilled(p)] *)
Definition setkilled (p : proc) : proc := set_killed p true.

(** Reading and writing one descriptor through a pointer [&p->pages[i]]. *)
Definition blank_page : page_info := mk_page_info 0 UNMAPPED false (-1) (-1).

Definition page_at (p : proc) (i : nat) : page_info :=
  default blank_page (pages p !! i).

Definition put_page (p : proc) (i : nat) (d : page_info) : proc :=
  set_pages p (<[i := d]> (pages p)).

Definition with_va (d : page_info) (v : Z) : page_info :=
  mk_page_info v (pi_state d) (is_dirty d) (seq d) (swap_slot d).
Definition with_state (d : page_info) (s : page_state) : page_info :=
  mk_page_info (pi_va d) s (is_dirty d) (seq d) (swap_slot d).
Definition with_dirty (d : page_info) (b : bool) : page_info :=
  mk_page_info (pi_va d) (pi_state d) b (seq d) (swap_slot d).
Definition with_seq (d : page_info) (n : Z) : page_info :=
  mk_page_info (pi_va d) (pi_state d) (is_dirty d) n (swap_slot d).
Definition with_slot (d : page_info) (n : Z) : page_info :=
  mk_page_info (pi_va d) (pi_state d) (is_dirty d) (seq d) n.

(** The assignments [pi->va = v], [pi->state = s], [pi->is_dirty = b],
    [pi->seq = n] and [pi->swap_slot = n] through [pi = &p->pages[i]]. *)
Definition set_va (p : proc) (i : nat) (v : Z) : proc :=
  put_page p i (with_va (page_at p i) v).
Definition set_state (p : proc) (i : nat) (s : page_state) : proc :=
  put_page p i (with_state (page_at p i) s).
Definition set_dirty (p : proc) (i : nat) (b : bool) : proc :=
  put_page p i (with_dirty (page_at p i) b).
Definition set_seq (p : proc) (i : nat) (n : Z) : proc :=
  put_page p i (with_seq (page_at p i) n).
Definition set_slot (p : proc) (i : nat) (n : Z) : proc :=
  put_page p i (with_slot (page_at p i) n).

(** Word [i] of an [int]-indexed array of integers. *)
Definition word_at (l : list Z) (i : Z) : Z := default 0 (l !! Z.to_nat i).

(** ** Diagnostics

    One constructor per [printf] tag; the constant [pid] prefix is left out. *)
Inductive access : Set := AccRead | AccWrite | AccExec.
Inductive cause : Set := CSwap | CExec | CHeap | CStack | CUnknown.

Inductive event : Set :=
| EvPAGEFAULT (va : Z) (a : access) (c : cause)
| EvPAGEFAULT_open (va : Z) (a : access)
| EvCause (c : cause)
| EvInvalid
| EvKILL_invalid_access (va : Z) (a : access)
| EvKILL_swap_exhausted
| EvMEMFULL
| EvSWAPFULL
| EvLOADEXEC (va : Z)
| EvALLOC (va : Z)
| EvSWAPIN (va slot : Z)
| EvRESIDENT (va s : Z)
| EvVICTIM (va s : Z)
| EvEVICT (va : Z) (st : option bool)
| EvDISCARD (va : Z)
| EvSWAPOUT (va slot : Z)
| EvSWAPCLEANUP (n : Z).

(** ** The collaborators: frame allocator, page table, file system

    [kalloc.c], [vm.c] and [fs.c] are the external collaborators of the
    spec (its components C1 and C2 and the file system) and are not among
    the sources.  Frames come from a free list; the page table holds the
    valid leaf entries of the process; an inode is its byte contents; a
    write is short when the device runs out of room ([disk_room]);
    installing a mapping fails when no page-table page can be had
    ([pt_nomem]) or when the address is already mapped. *)

Record pte : Set := mk_pte { pte_pa : Z; pte_perm : Z }.

Record inode : Set := mk_inode {
  i_ref : Z;
  i_type : Z;
  i_nlink : Z;
  i_data : list Z
}.

Record kernel : Type := mk_kernel {
  freelist : list Z;
  physmem : gmap Z (list Z);
  pagetable : gmap Z pte;
  inodes : gmap Z inode;
  disk_room : Z;
  create_ok : bool;
  pt_nomem : bool;
  console : list event
}.

Definition set_freelist (k : kernel) (v : list Z) : kernel :=
  mk_kernel v (physmem k) (pagetable k) (inodes k) (disk_room k) (create_ok k)
    (pt_nomem k) (console k).
Definition set_physmem (k : kernel) (v : gmap Z (list Z)) : kernel :=
  mk_kernel (freelist k) v (pagetable k) (inodes k) (disk_room k) (create_ok k)
    (pt_nomem k) (console k).
Definition set_pagetable (k : kernel) (v : gmap Z pte) : kernel :=
  mk_kernel (freelist k) (physmem k) v (inodes k) (disk_room k) (create_ok k)
    (pt_nomem k) (console k).
Definition set_inodes (k : kernel) (v : gmap Z inode) : kernel :=
  mk_kernel (freelist k) (physmem k) (pagetable k) v (disk_room k) (create_ok k)
    (pt_nomem k) (console k).
Definition set_disk_room (k : kernel) (v : Z) : kernel :=
  mk_kernel (freelist k) (physmem k) (pagetable k) (inodes k) v (create_ok k)
    (pt_nomem k) (console k).
Definition set_console (k : kernel) (v : list event) : kernel :=
  mk_kernel (freelist k) (physmem k) (pagetable k) (inodes k) (disk_room k)
    (create_ok k) (pt_nomem k) v.

(** [printf] *)
Definition log (k : kernel) (e : event) : kernel :=
  set_console k (console k ++ [e]).

Definition page_of (c : Z) : list Z := replicate (Z.to_nat PGSIZE) c.

Definition frame (k : kernel) (pa : Z) : list Z :=
  default (page_of 0) (physmem k !! pa).

(** [memset((void* )pa, c, PGSIZE)] *)
Definition memset_page (k : kernel) (pa c : Z) : kernel :=
  set_physmem k (<[pa := page_of c]> (physmem k)).

(** Modelled from the spec: [kalloc()] of the frame allocator hands out the
    head of the free list, filled with junk; 0 when empty. *)
Definition kalloc (k : kernel) : Z * kernel :=
  match freelist k with
  | [] => (0, k)
  | pa :: rest => (pa, memset_page (set_freelist k rest) pa 5)
  end.

(** Modelled from the spec: [kfree(pa)] reclaims a frame: fill with junk and
    push on the free list. *)
Definition kfree (k : kernel) (pa : Z) : kernel :=
  let k := memset_page k pa 1 in
  set_freelist k (pa :: freelist k).

(** Modelled from the spec: [walk(pagetable, va, 0)] followed by the test of
    [PTE_V] inspects the mapping of the page of [va]. *)
Definition walk (k : kernel) (va : Z) : option pte :=
  pagetable k !! PGROUNDDOWN va.

(** Modelled from the spec: [ismapped(pagetable, va)]. *)
Definition ismapped (k : kernel) (va : Z) : bool :=
  bool_decide (is_Some (walk k va)).

(** Modelled from the spec: [walkaddr(pagetable, va)] is the frame of a valid
    user mapping, else 0. *)
Definition walkaddr (k : kernel) (va : Z) : Z :=
  match walk k va with
  | Some e => if Z.testbit (pte_perm e) 4 then pte_pa e else 0
  | None => 0
  end.

(** Modelled from the spec: [mappages(pagetable, va, PGSIZE, pa, perm)]
    installs one mapping, or fails with -1. *)
Definition mappages (k : kernel) (va pa perm : Z) : Z * kernel :=
  if pt_nomem k then (-1, k)
  else match walk k va with
       | Some _ => (-1, k)
       | None =>
           (0, set_pagetable k (<[PGROUNDDOWN va := mk_pte pa perm]> (pagetable k)))
       end.

(** [*pte = 0] *)
Definition clear_pte (k : kernel) (va : Z) : kernel :=
  set_pagetable k (delete (PGROUNDDOWN va) (pagetable k)).

(** Modelled from the spec: [uvmunmap(pagetable, va, npages, 1)] tears
    mappings down: every mapped page among the
    [npages] pages from [va] on is freed and its entry cleared; an unmapped
    page is skipped.  ([exec.c] calls it with [npages = 1] to unmap one page.) *)
Fixpoint uvmunmap_loop (k : kernel) (a : Z) (n : nat) : kernel :=
  match n with
  | O => k
  | S n' =>
      let k := match walk k a with
               | Some e => clear_pte (kfree k (pte_pa e)) a
               | None => k
               end in
      uvmunmap_loop k (u64 (a + PGSIZE)) n'
  end.

Definition uvmunmap (k : kernel) (va npages : Z) : kernel :=
  uvmunmap_loop k va (Z.to_nat npages).

(** Modelled from the spec: [readi(ip, 0, pa, off, n)] copies what the file
    holds from [off] on, at
    most [n] bytes, to the start of frame [pa]; returns the count. *)
Definition readi (k : kernel) (ip pa off n : Z) : Z * kernel :=
  match inodes k !! ip with
  | None => (-1, k)
  | Some f =>
      let size := Z.of_nat (length (i_data f)) in
      if (size <? off) || (n <? 0) then (0, k)
      else
        let got := take (Z.to_nat n) (drop (Z.to_nat off) (i_data f)) in
        let old := frame k pa in
        (Z.of_nat (length got),
         set_physmem k (<[pa := got ++ drop (length got) old]> (physmem k)))
  end.

(** Modelled from the spec: [writei(ip, 0, pa, off, n)] fails past the end
    of the file; otherwise
    writes as many of the [n] bytes as the device has room for. *)
Definition writei (k : kernel) (ip pa off n : Z) : Z * kernel :=
  match inodes k !! ip with
  | None => (-1, k)
  | Some f =>
      let size := Z.of_nat (length (i_data f)) in
      if (size <? off) || (n <? 0) then (-1, k)
      else
        let m := Z.max 0 (Z.min n (disk_room k)) in
        let src := take (Z.to_nat m) (frame k pa) in
        let data := take (Z.to_nat off) (i_data f) ++ src
                    ++ drop (Z.to_nat off + length src) (i_data f) in
        (Z.of_nat (length src),
         set_disk_room
           (set_inodes k (<[ip := mk_inode (i_ref f) (i_type f) (i_nlink f) data]>
                            (inodes k)))
           (disk_room k - Z.of_nat (length src)))
  end.

(** The contents of swap slot [slot] of file [ip]. *)
Definition slot_contents (k : kernel) (ip slot : Z) : list Z :=
  match inodes k !! ip with
  | None => []
  | Some f => take (Z.to_nat PGSIZE) (drop (Z.to_nat (slot * PGSIZE)) (i_data f))
  end.

(** Modelled from the spec: [fileclose(f)] drops one reference to the inode
    behind the file. *)
Definition fileclose (k : kernel) (ip : Z) : kernel :=
  set_inodes k
    (alter (fun f => mk_inode (i_ref f - 1) (i_type f) (i_nlink f) (i_data f))
       ip (inodes k)).

(** Modelled from the spec: [create(path, T_FILE, 0, 0)] for the swap file
    of process [pid]: the
    name is deterministic in the pid, so the file is identified with inode
    number [SWAP_INO + pid]; an existing file is reused.  0 on failure. *)
Definition SWAP_INO : Z := 4096.
Definition T_FILE : Z := 2.

Definition create (k : kernel) (pid : Z) : Z * kernel :=
  if create_ok k then
    let ino := SWAP_INO + pid in
    match inodes k !! ino with
    | Some _ => (ino, k)
    | None => (ino, set_inodes k (<[ino := mk_inode 1 T_FILE 1 []]> (inodes k)))
    end
  else (0, k).

(** ** [demand_paging.c] *)

Module DemandPaging.

(** The bitmap is used as 32 words of 32 bits. *)
Definition u32 (x : Z) : Z := x mod 2 ^ 32.

Definition demand_paging_init (p : proc) : proc :=
  mk_proc (pid p) (sz p) 0 0 0 0 0 0 0 0 0 0 0
    (replicate 32 0)
    (replicate (Z.to_nat MAX_PROC_PAGES) blank_page)
    (replicate (Z.to_nat MAX_PROC_PAGES) 0)
    (exec_len p) (killed p).

(** The loop [for(i = 0; i < p->num_pages; i++) if(p->pages[i].va == va)]. *)
Fixpoint scan_va (l : list page_info) (va : Z) (i n : nat) : option nat :=
  match n, l with
  | S n', d :: l' => if pi_va d =? va then Some i else scan_va l' va (S i) n'
  | _, _ => None
  end.

Definition get_page_info (p : proc) (va : Z) : option nat * proc :=
  let va := PGROUNDDOWN va in
  match scan_va (pages p) va 0 (Z.to_nat (num_pages p)) with
  | Some i => (Some i, p)
  | None =>
      if num_pages p <? MAX_PROC_PAGES then
        let i := Z.to_nat (num_pages p) in
        (Some i,
         put_page (set_num_pages p (num_pages p + 1)) i
           (mk_page_info va UNMAPPED false (-1) (-1)))
      else (None, p)
  end.

(** The loop of [alloc_swap_slot], started at slot [i] with [n] slots left. *)
Fixpoint alloc_scan (bm : list Z) (i : Z) (n : nat) : Z * list Z :=
  match n with
  | O => (-1, bm)
  | S n' =>
      let word := Z.quot i 32 in
      let bit := Z.rem i 32 in
      if Z.land (word_at bm word) (Z.shiftl 1 bit) =? 0
      then (i, <[Z.to_nat word := Z.lor (word_at bm word) (Z.shiftl 1 bit)]> bm)
      else alloc_scan bm (i + 1) n'
  end.

Definition alloc_swap_slot (p : proc) : Z * proc :=
  let '(slot, bm) := alloc_scan (swap_slot_bitmap p) 0 1024 in
  (slot, set_bitmap p bm).

Definition free_swap_slot (p : proc) (slot : Z) : proc :=
  if (slot <? 0) || (1024 <=? slot) then p
  else
    let word := Z.quot slot 32 in
    let bit := Z.rem slot 32 in
    set_bitmap p
      (<[Z.to_nat word :=
           Z.land (word_at (swap_slot_bitmap p) word) (u32 (Z.lnot (Z.shiftl 1 bit)))]>
         (swap_slot_bitmap p)).

(** Whether slot [i] is taken. *)
Definition slot_taken (bm : list Z) (i : Z) : bool :=
  negb (Z.land (word_at bm (Z.quot i 32)) (Z.shiftl 1 (Z.rem i 32)) =? 0).

(** [create_swap_file]: the path "/pgswp" + five digits of the pid is the
    argument of [create]; a failing [filealloc] counts as a failing
    [create]. *)
Definition create_swap_file (p : proc) (k : kernel) : Z * proc * kernel :=
  let '(ip, k) := create k (pid p) in
  if ip =? 0 then (-1, p, k) else (0, set_swapfile p ip, k).

(** The counting loop of [delete_swap_file]. *)
Fixpoint count_taken (bm : list Z) (i : Z) (n : nat) : Z :=
  match n with
  | O => 0
  | S n' => (if slot_taken bm i then 1 else 0) + count_taken bm (i + 1) n'
  end.

Definition delete_swap_file (p : proc) (k : kernel) : proc * kernel :=
  if swapfile p =? 0 then (p, k)
  else
    let freed_slots := count_taken (swap_slot_bitmap p) 0 1024 in
    let k := log k (EvSWAPCLEANUP freed_slots) in
    let k := fileclose k (swapfile p) in
    (set_swapfile p 0, k).

Definition swap_out_page (p : proc) (k : kernel) (va pa : Z) : Z * proc * kernel :=
  if swapfile p =? 0 then (-1, p, k)
  else
    let '(pi, p) := get_page_info p va in
    match pi with
    | None => (-1, p, k)
    | Some i =>
        let '(slot, p) := alloc_swap_slot p in
        if slot <? 0 then
          (-1, p, log (log k EvSWAPFULL) EvKILL_swap_exhausted)
        else
          let offset := slot * PGSIZE in
          let '(n, k) := writei k (swapfile p) pa offset PGSIZE in
          if negb (n =? PGSIZE) then (-1, free_swap_slot p slot, k)
          else
            let p := set_slot p i slot in
            let p := set_state p i SWAPPED in
            let p := set_num_swapped_pages p (num_swapped_pages p + 1) in
            (slot, p, log k (EvSWAPOUT (PGROUNDDOWN va) slot))
    end.

Definition swap_in_page (p : proc) (k : kernel) (va pa : Z) : Z * proc * kernel :=
  if swapfile p =? 0 then (-1, p, k)
  else
    let '(pi, p) := get_page_info p va in
    match pi with
    | None => (-1, p, k)
    | Some i =>
        if negb (state_eqb (pi_state (page_at p i)) SWAPPED) then (-1, p, k)
        else
          let slot := swap_slot (page_at p i) in
          if slot <? 0 then (-1, p, k)
          else
            let offset := slot * PGSIZE in
            let '(n, k) := readi k (swapfile p) pa offset PGSIZE in
            if negb (n =? PGSIZE) then (-1, p, k)
            else
              let k := log k (EvSWAPIN (PGROUNDDOWN va) slot) in
              let p := free_swap_slot p slot in
              let p := set_slot p i (-1) in
              let p := set_state p i RESIDENT in
              let p := if 0 <? num_swapped_pages p
                       then set_num_swapped_pages p (num_swapped_pages p - 1)
                       else p in
              let p := set_seq p i (next_fifo_seq p) in
              let p := set_next_fifo_seq p (next_fifo_seq p + 1) in
              let p := set_dirty p i false in
              (0, p, log k (EvRESIDENT (PGROUNDDOWN va) (seq (page_at p i))))
    end.

(** The loop of [find_fifo_victim] over the first [n] descriptors. *)
Fixpoint fifo_scan (l : list page_info) (n : nat) (min_seq victim_va : Z) : Z :=
  match n, l with
  | S n', d :: l' =>
      if state_eqb (pi_state d) RESIDENT
         && ((min_seq =? -1) || (seq d <? min_seq))
      then fifo_scan l' n' (seq d) (pi_va d)
      else fifo_scan l' n' min_seq victim_va
  | _, _ => victim_va
  end.

Definition find_fifo_victim (p : proc) : Z :=
  fifo_scan (pages p) (Z.to_nat (num_pages p)) (-1) 0.

Definition evict_page (p : proc) (k : kernel) (victim_va : Z) : Z * proc * kernel :=
  let '(pi, p) := get_page_info p victim_va in
  match pi with
  | None => (-1, p, k)
  | Some i =>
      if negb (state_eqb (pi_state (page_at p i)) RESIDENT) then (-1, p, k)
      else
        match walk k victim_va with
        | None => (-1, p, k)
        | Some e =>
            let pa := pte_pa e in
            let k := log k (EvVICTIM victim_va (seq (page_at p i))) in
            if is_dirty (page_at p i) then
              let k := log k (EvEVICT victim_va (Some true)) in
              let '(r, p, k) := swap_out_page p k victim_va pa in
              if r <? 0 then (-1, p, k)
              else (0, p, kfree (clear_pte k victim_va) pa)
            else
              let k := log k (EvEVICT victim_va (Some false)) in
              let k := log k (EvDISCARD victim_va) in
              let p := set_state p i UNMAPPED in
              (0, p, kfree (clear_pte k victim_va) pa)
        end
  end.

(** Lines 391-419 of [handle_page_fault]: a zeroed frame, after at most one
    eviction, or nothing. *)
Definition acquire_frame (p : proc) (k : kernel) : option Z * proc * kernel :=
  let '(mem, k) := kalloc k in
  if mem =? 0 then
    let k := log k EvMEMFULL in
    let victim_va := find_fifo_victim p in
    if victim_va =? 0 then (None, p, k)
    else
      let '(r, p, k) := evict_page p k victim_va in
      if r <? 0 then (None, p, k)
      else
        let '(mem, k) := kalloc k in
        if mem =? 0 then (None, p, k)
        else (Some mem, p, memset_page k mem 0)
  else (Some mem, p, memset_page k mem 0).

(** The block "Update page info" shared by the exec and the heap/stack
    branches; yields the sequence number that is logged. *)
Definition mark_resident (p : proc) (pi : option nat) (va : Z) : Z * proc :=
  let '(pi, p) := match pi with
                  | None => get_page_info p va
                  | Some i => (Some i, p)
                  end in
  match pi with
  | None => (-1, p)
  | Some i =>
      let p := set_state p i RESIDENT in
      let p := set_seq p i (next_fifo_seq p) in
      let p := set_next_fifo_seq p (next_fifo_seq p + 1) in
      let p := set_dirty p i false in
      (seq (page_at p i), p)
  end.

Definition in_range (lo hi va : Z) : bool := (lo <=? va) && (va <? hi).

(** Lines 353-378: the cause of the fault and whether it is valid. *)
Definition classify (p : proc) (pi : option nat) (va : Z) : cause * bool :=
  if match pi with
     | Some i => state_eqb (pi_state (page_at p i)) SWAPPED
     | None => false
     end
  then (CSwap, true)
  else if in_range (text_start p) (data_end p) va then (CExec, true)
  else if in_range (heap_start p) (sz p) va then (CHeap, true)
  else if (va <? stack_top p) && (u64 (stack_top p - 2 * PGSIZE) <=? va)
  then (CStack, true)
  else (CUnknown, false).

(** Lines 494-506: install the mapping. *)
Definition install (p : proc) (k : kernel) (va pa : Z) : Z * proc * kernel :=
  let perm := Z.lor PTE_U PTE_R in
  let perm := if in_range (text_start p) (text_end p) va
              then Z.lor perm PTE_X else perm in
  let '(r, k) := mappages k va pa perm in
  if r <? 0 then (-1, p, kfree k pa) else (0, p, k).

Definition handle_page_fault (p : proc) (k : kernel) (va : Z) (is_write : bool)
  : Z * proc * kernel :=
  let va := PGROUNDDOWN va in
  let access_type :=
    if is_write then AccWrite
    else if in_range (text_start p) (text_end p) va then AccExec else AccRead in
  let '(pi, p) := get_page_info p va in
  let '(cause, is_valid) := classify p pi va in
  let k := log k (EvPAGEFAULT va access_type cause) in
  if negb is_valid then (-1, p, log k (EvKILL_invalid_access va access_type))
  else
    let '(mem, p, k) := acquire_frame p k in
    match mem with
    | None => (-1, p, k)
    | Some pa =>
        if match pi with
           | Some i => state_eqb (pi_state (page_at p i)) SWAPPED
           | None => false
           end
        then
          let '(r, p, k) := swap_in_page p k va pa in
          if r <? 0 then (-1, p, kfree k pa) else install p k va pa
        else if in_range (text_start p) (data_end p) va then
          if exec_inode p =? 0 then (-1, p, kfree k pa)
          else
            let found := scan_va (pages p) va 0 (Z.to_nat (num_pages p)) in
            let offset := match found with
                          | Some i => word_at (exec_off p) (Z.of_nat i)
                          | None => 0
                          end in
            let '(r, k) := if 0 <? offset
                           then readi k (exec_inode p) pa offset PGSIZE
                           else (0, k) in
            if r <? 0 then (-1, p, kfree k pa)
            else
              let k := log k (EvLOADEXEC va) in
              let '(s, p) := mark_resident p pi va in
              install p (log k (EvRESIDENT va s)) va pa
        else
          let k := log k (EvALLOC va) in
          let '(s, p) := mark_resident p pi va in
          install p (log k (EvRESIDENT va s)) va pa
    end.

Definition handle_write_fault (p : proc) (k : kernel) (va : Z) : Z * proc * kernel :=
  let va := PGROUNDDOWN va in
  let '(pi, p) := get_page_info p va in
  match pi with
  | None => (-1, p, k)
  | Some i =>
      if negb (state_eqb (pi_state (page_at p i)) RESIDENT) then (-1, p, k)
      else
        let p := set_dirty p i true in
        match walk k va with
        | None => (-1, p, k)
        | Some e =>
            (0, p,
             set_pagetable k
               (<[PGROUNDDOWN va := mk_pte (pte_pa e) (Z.lor (pte_perm e) PTE_W)]>
                  (pagetable k)))
        end
  end.

End DemandPaging.

(** ** [lazy.c] *)

Module Lazy.

(** [p->swapfile_inode] is the field [swapfile] of the record; the bitmap is
    used as 16 words of 64 bits. *)

Definition lazy_init (p : proc) : proc :=
  mk_proc (pid p) (sz p) 0 0 0 0 0 0 0 0 0 0 0
    (replicate 32 0)
    (replicate (Z.to_nat MAX_PROC_PAGES) (mk_page_info 0 UNMAPPED false 0 (-1)))
    (exec_off p) (exec_len p) (killed p).

(** [get_page_info]: the descriptor is found by index, never by address. *)
Definition get_page_info (va : Z) : nat :=
  Z.to_nat ((va / PGSIZE) mod MAX_PROC_PAGES).

(** The inner loop of [alloc_swap_slot] over the bits [j] of word [i]. *)
Fixpoint scan_bits (bm : list Z) (i j : Z) (n : nat) : option (Z * list Z) :=
  match n with
  | O => None
  | S n' =>
      let slot_num := i * 64 + j in
      if MAX_SWAP_SLOTS <=? slot_num then None
      else if Z.land (word_at bm i) (Z.shiftl 1 j) =? 0
      then Some (slot_num, <[Z.to_nat i := Z.lor (word_at bm i) (Z.shiftl 1 j)]> bm)
      else scan_bits bm i (j + 1) n'
  end.

(** The outer loop over the words. *)
Fixpoint scan_words (bm : list Z) (i : Z) (n : nat) : Z * list Z :=
  match n with
  | O => (-1, bm)
  | S n' =>
      match scan_bits bm i 0 64 with
      | Some r => r
      | None => scan_words bm (i + 1) n'
      end
  end.

Definition alloc_swap_slot (p : proc) : Z * proc :=
  if MAX_SWAP_SLOTS <=? num_swapped_pages p then (-1, p)
  else
    let '(slot, bm) := scan_words (swap_slot_bitmap p) 0 16 in
    (slot, set_bitmap p bm).

Definition free_swap_slot (p : proc) (slot : Z) : proc :=
  if (slot <? 0) || (MAX_SWAP_SLOTS <=? slot) then p
  else
    let i := Z.quot slot 64 in
    let j := Z.rem slot 64 in
    if (0 <=? i) && (i <? 16) then
      set_bitmap p
        (<[Z.to_nat i :=
             Z.land (word_at (swap_slot_bitmap p) i) (u64 (Z.lnot (Z.shiftl 1 j)))]>
           (swap_slot_bitmap p))
    else p.

Definition slot_taken (bm : list Z) (s : Z) : bool :=
  negb (Z.land (word_at bm (Z.quot s 64)) (Z.shiftl 1 (Z.rem s 64)) =? 0).

(** [create_swap_file]: nothing to do when a swap file is open; the path
    "/pgswp" + the digits of the pid is the argument of [create]. *)
Definition create_swap_file (p : proc) (k : kernel) : Z * proc * kernel :=
  if negb (swapfile p =? 0) then (0, p, k)
  else
    let '(ip, k) := create k (pid p) in
    if ip =? 0 then (-1, p, k) else (0, set_swapfile p ip, k).

Definition delete_swap_file (p : proc) (k : kernel) : proc * kernel :=
  if swapfile p =? 0 then (p, k)
  else
    let ip := swapfile p in
    let f := default (mk_inode 0 0 0 []) (inodes k !! ip) in
    if (i_ref f =? 0) || (i_type f =? 0) then (set_swapfile p 0, k)
    else
      (* ip->nlink = 0; iupdate(ip); iput(ip) *)
      (set_swapfile p 0,
       set_inodes k (<[ip := mk_inode (i_ref f - 1) (i_type f) 0 (i_data f)]> (inodes k))).

(** The victim loop of [lazy_evict_page]: [seq] is compared as [uint32]. *)
Definition u32 (x : Z) : Z := x mod 2 ^ 32.

Fixpoint victim_scan (l : list page_info) (i : Z) (n : nat) (victim_idx min_seq : Z) : Z :=
  match n, l with
  | S n', d :: l' =>
      if state_eqb (pi_state d) RESIDENT && (u32 (seq d) <? min_seq)
      then victim_scan l' (i + 1) n' i (u32 (seq d))
      else victim_scan l' (i + 1) n' victim_idx min_seq
  | _, _ => victim_idx
  end.

Definition lazy_evict_page (p : proc) (k : kernel) : Z * proc * kernel :=
  let victim_idx :=
    victim_scan (pages p) 0 (Z.to_nat MAX_PROC_PAGES) (-1) 4294967295 in
  if victim_idx =? -1 then (-1, p, k)
  else
    let vi := Z.to_nat victim_idx in
    let victim_va := pi_va (page_at p vi) in
    let k := log k (EvVICTIM victim_va (seq (page_at p vi))) in
    let dirty := is_dirty (page_at p vi) in
    let is_executable := (text_start p <=? victim_va) && (victim_va <? text_end p) in
    let swap_branch (p : proc) (k : kernel) : Z * proc * kernel :=
      let '(slot, p) := alloc_swap_slot p in
      if slot <? 0 then (-1, setkilled p, log k EvKILL_swap_exhausted)
      else
        let pa := walkaddr k victim_va in
        let k := if negb (pa =? 0)
                 then log (snd (writei k (swapfile p) pa (u64 (slot * PGSIZE)) PGSIZE))
                        (EvSWAPOUT victim_va slot)
                 else k in
        let p := set_state p vi SWAPPED in
        let p := set_slot p vi slot in
        let p := set_num_swapped_pages p (num_swapped_pages p + 1) in
        (1, p, log (uvmunmap k victim_va PGSIZE) (EvEVICT victim_va None)) in
    if dirty || negb is_executable then
      if swapfile p =? 0 then
        let '(r, p, k) := create_swap_file p k in
        if negb (r =? 0) then (-1, setkilled p, log k EvKILL_swap_exhausted)
        else swap_branch p k
      else swap_branch p k
    else
      let k := log k (EvDISCARD victim_va) in
      let p := set_state p vi UNMAPPED in
      let p := set_slot p vi (-1) in
      (1, p, log (uvmunmap k victim_va PGSIZE) (EvEVICT victim_va None)).

(** The allocation block that both paths of [lazy_handle_fault] repeat:
    [kalloc], one eviction and a second [kalloc] on failure, then [memset]. *)
Definition acquire_frame (p : proc) (k : kernel) : option Z * proc * kernel :=
  let '(mem, k) := kalloc k in
  if mem =? 0 then
    let '(r, p, k) := lazy_evict_page p k in
    let '(mem, k) := if 0 <? r then kalloc k else (0, k) in
    if mem =? 0 then (None, setkilled p, log k EvMEMFULL)
    else (Some mem, p, memset_page k mem 0)
  else (Some mem, p, memset_page k mem 0).

Definition in_range (lo hi va : Z) : bool := (lo <=? va) && (va <? hi).

(** Text is mapped read+execute, everything else read+write. *)
Definition pte_flags (p : proc) (va : Z) : Z :=
  let flags := Z.lor PTE_U PTE_R in
  if in_range (text_start p) (text_end p) va
  then Z.lor flags PTE_X else Z.lor flags PTE_W.

(** Lines 166-182: validity of a fault on a page that is not swapped. *)
Definition classify (p : proc) (va : Z) : cause * bool :=
  let stack_bottom := u64 (stack_top p - (USERSTACK + 1) * PGSIZE) in
  if in_range stack_bottom (stack_top p) va then (CStack, true)
  else if in_range (heap_start p) stack_bottom va then (CHeap, true)
  else if in_range (text_start p) (text_end p) va
          || in_range (data_start p) (data_end p) va then (CExec, true)
  else (CUnknown, false).

Definition lazy_handle_fault (p : proc) (k : kernel) (va : Z) (write_fault : bool)
  : Z * proc * kernel :=
  let va := PGROUNDDOWN va in
  let access_type := if write_fault then AccWrite else AccRead in
  if ismapped k va then (-1, p, k)
  else
    let pi := get_page_info va in
    if state_eqb (pi_state (page_at p pi)) SWAPPED then
      let k := log k (EvPAGEFAULT va access_type CSwap) in
      let '(mem, p, k) := acquire_frame p k in
      match mem with
      | None => (-1, p, k)
      | Some mem =>
          let slot := swap_slot (page_at p pi) in
          let k := if negb (swapfile p =? 0) && (0 <=? slot)
                   then log (snd (readi k (swapfile p) mem (u64 (slot * PGSIZE)) PGSIZE))
                          (EvSWAPIN va slot)
                   else k in
          let '(r, k) := mappages k va mem (pte_flags p va) in
          if negb (r =? 0) then (-1, setkilled p, kfree k mem)
          else
            let p := set_state p pi RESIDENT in
            let p := set_seq p pi (next_fifo_seq p) in
            let p := set_next_fifo_seq p (next_fifo_seq p + 1) in
            let old_slot := swap_slot (page_at p pi) in
            let p := set_slot p pi (-1) in
            let p := if 0 <=? old_slot
                     then set_num_swapped_pages (free_swap_slot p old_slot)
                            (num_swapped_pages p - 1)
                     else p in
            (0, p, log k (EvRESIDENT va (seq (page_at p pi))))
      end
    else
      let k := log k (EvPAGEFAULT_open va access_type) in
      let '(cause, valid) := classify p va in
      if negb valid then (-1, p, log k EvInvalid)
      else
        let k := log k (EvCause cause) in
        let '(mem, p, k) := acquire_frame p k in
        match mem with
        | None => (-1, p, k)
        | Some mem =>
            let is_exec := match cause with CExec => true | _ => false end in
            let k :=
              if is_exec && negb (exec_inode p =? 0) then
                let page_idx := (va / PGSIZE) mod MAX_PROC_PAGES in
                let file_offset :=
                  if page_idx <? MAX_PROC_PAGES then word_at (exec_off p) page_idx else 0 in
                let read_len :=
                  if page_idx <? MAX_PROC_PAGES then word_at (exec_len p) page_idx else 0 in
                if (0 <? file_offset) && (0 <? read_len)
                then snd (readi k (exec_inode p) mem file_offset read_len)
                else k
              else k in
            let '(r, k) := mappages k va mem (pte_flags p va) in
            if negb (r =? 0) then (-1, setkilled p, kfree k mem)
            else
              let k := log k (if is_exec then EvLOADEXEC va else EvALLOC va) in
              let p := set_va p pi va in
              let p := set_state p pi RESIDENT in
              let p := set_dirty p pi write_fault in
              let p := set_seq p pi (next_fifo_seq p) in
              let p := set_next_fifo_seq p (next_fifo_seq p + 1) in
              let p := set_slot p pi (-1) in
              (0, p, log k (EvRESIDENT va (seq (page_at p pi))))
        end.

End Lazy.

(** ** [exec.c]: what [kexec] records for the paging core *)

(** The fields of [struct proghdr] that the loader reads. *)
Record proghdr : Set := mk_proghdr {
  ph_vaddr : Z;
  ph_memsz : Z;
  ph_filesz : Z;
  ph_off : Z;
  ph_flags : Z
}.

Section Exec.

(** [kexec] is linked against one of the two [get_page_info]s. *)
Variable get_page_info : proc -> Z -> option nat * proc.

(** Lines 50-54: forget the previous image. *)
Definition kexec_clear (p : proc) : proc :=
  set_num_pages
    (set_exec_tables p (replicate (Z.to_nat MAX_PROC_PAGES) 0)
                       (replicate (Z.to_nat MAX_PROC_PAGES) 0)) 0.

(** Lines 110-127: the body of the per-page loop. *)
Definition record_page (p : proc) (ph : proghdr) (va : Z) : proc :=
  let '(pi, p) := get_page_info p va in
  match pi with
  | None => p
  | Some i =>
      let p := set_va p i va in
      let p := set_state p i UNMAPPED in
      let page_off := u64 (va - ph_vaddr ph) in
      if page_off <? ph_filesz ph then
        let bytes_left := u64 (ph_filesz ph - page_off) in
        set_exec_tables p
          (<[i := u64 (ph_off ph + page_off)]> (exec_off p))
          (<[i := if PGSIZE <? bytes_left then PGSIZE else bytes_left]> (exec_len p))
      else
        set_exec_tables p (<[i := 0]> (exec_off p)) (<[i := 0]> (exec_len p))
  end.

(** Line 109: [for(va = ph.vaddr; va < ph.vaddr + ph.memsz; va += PGSIZE)],
    run for at most [n] rounds. *)
Fixpoint record_pages (p : proc) (ph : proghdr) (va : Z) (n : nat) : proc :=
  match n with
  | O => p
  | S n' =>
      if va <? u64 (ph_vaddr ph + ph_memsz ph)
      then record_pages (record_page p ph va) ph (u64 (va + PGSIZE)) n'
      else p
  end.

Definition record_segment (p : proc) (ph : proghdr) : proc :=
  record_pages p ph (ph_vaddr ph) (Z.to_nat (ph_memsz ph / PGSIZE + 1)).

(** Lines 173-179: the first stack page is resident from the start. *)
Definition kexec_stack_page (p : proc) (stackbase : Z) : proc :=
  let '(pi, p) := get_page_info p stackbase in
  match pi with
  | None => p
  | Some i =>
      let p := set_state p i RESIDENT in
      let p := set_seq p i (next_fifo_seq p) in
      let p := set_next_fifo_seq p (next_fifo_seq p + 1) in
      set_dirty p i false
  end.

End Exec.

(** ** [sysproc.c]: [sys_sbrk] *)

(** [vm.h] *)
Definition SBRK_EAGER : Z := 1.

Section Sbrk.

(** [growproc] lives in [proc.c]; the eager path is whatever it does. *)
Variable growproc : Z -> proc -> kernel -> Z * proc * kernel.

(** [n] and [t] are the [int] arguments; the result is a [uint64]. *)
Definition sys_sbrk (p : proc) (k : kernel) (n t : Z) : Z * proc * kernel :=
  let addr := sz p in
  if (t =? SBRK_EAGER) || (n <? 0) then
    let '(r, p, k) := growproc n p k in
    if r <? 0 then (u64 (-1), p, k) else (addr, p, k)
  else if u64 (addr + u64 n) <? addr then (u64 (-1), p, k)
  else (addr, set_sz p (u64 (sz p + u64 n)), k).

End Sbrk.

(** Lines 152-158 of [kexec]: the layout is stored in the process. *)
Definition set_layout (p : proc) (ts te ds de hs st s : Z) : proc :=
  mk_proc (pid p) s ts te ds de hs st (next_fifo_seq p) (swapfile p)
    (num_swapped_pages p) (num_pages p) (exec_inode p) (swap_slot_bitmap p)
    (pages p) (exec_off p) (exec_len p) (killed p).

(** ** Properties of the paging state *)

(** I4, with one descriptor possibly left out while it is being updated:
    the sequence numbers of the RESIDENT descriptors are below the counter and
    pairwise distinct. *)
Definition fifo_inv_except (skip : option nat) (p : proc) : Prop :=
  (forall i d, Some i <> skip -> pages p !! i = Some d ->
     pi_state d = RESIDENT -> seq d < next_fifo_seq p)
  /\ (forall i j di dj, Some i <> skip -> Some j <> skip ->
        pages p !! i = Some di -> pages p !! j = Some dj ->
        pi_state di = RESIDENT -> pi_state dj = RESIDENT ->
        seq di = seq dj -> i = j).

Definition fifo_inv (p : proc) : Prop := fifo_inv_except None p.

(** Descriptor [i] enters RESIDENT between [p] and [p']: it carries the
    counter of [p], and the counter has moved on by one. *)
Definition enters_resident (p p' : proc) (i : nat) : Prop :=
  pi_state (page_at p' i) = RESIDENT
  /\ seq (page_at p' i) = next_fifo_seq p
  /\ next_fifo_seq p' = next_fifo_seq p + 1.

(** The states a process can be in under [demand_paging.c]: any sequence of
    calls of its functions and of the loader's bookkeeping, whatever the rest
    of the kernel does to frames, mappings and files in between. *)
Module DPTrace.
Import DemandPaging.

Inductive step : proc -> proc -> Prop :=
| step_get p va pi p' :
    get_page_info p va = (pi, p') -> step p p'
| step_fault p k va w r p' k' :
    handle_page_fault p k va w = (r, p', k') -> step p p'
| step_write_fault p k va r p' k' :
    handle_write_fault p k va = (r, p', k') -> step p p'
| step_evict p k va r p' k' :
    evict_page p k va = (r, p', k') -> step p p'
| step_swap_out p k va pa r p' k' :
    swap_out_page p k va pa = (r, p', k') -> step p p'
| step_swap_in p k va pa r p' k' :
    swap_in_page p k va pa = (r, p', k') -> step p p'
| step_alloc_slot p s p' :
    alloc_swap_slot p = (s, p') -> step p p'
| step_free_slot p s :
    step p (free_swap_slot p s)
| step_create p k r p' k' :
    create_swap_file p k = (r, p', k') -> step p p'
| step_delete p k p' k' :
    delete_swap_file p k = (p', k') -> step p p'
| step_exec_clear p :
    step p (kexec_clear p)
| step_exec_segment p ph :
    step p (record_segment get_page_info p ph)
| step_exec_layout p ts te ds de hs st s :
    step p (set_layout p ts te ds de hs st s)
| step_exec_stack p stackbase :
    step p (kexec_stack_page get_page_info p stackbase)
| step_exec_inode p ip :
    step p (set_exec_inode p ip)
| step_sbrk p v :
    step p (set_sz p v).

Inductive reachable : proc -> Prop :=
| reach_init p0 : reachable (demand_paging_init p0)
| reach_step p p' : reachable p -> step p p' -> reachable p'.
End DPTrace.

(** The same for [lazy.c]. *)
Module LazyTrace.
Import Lazy.

Definition get (p : proc) (va : Z) : option nat * proc :=
  (Some (get_page_info va), p).

Inductive step : proc -> proc -> Prop :=
| step_fault p k va w r p' k' :
    lazy_handle_fault p k va w = (r, p', k') -> step p p'
| step_evict p k r p' k' :
    lazy_evict_page p k = (r, p', k') -> step p p'
| step_alloc_slot p s p' :
    alloc_swap_slot p = (s, p') -> step p p'
| step_free_slot p s :
    step p (free_swap_slot p s)
| step_create p k r p' k' :
    create_swap_file p k = (r, p', k') -> step p p'
| step_delete p k p' k' :
    delete_swap_file p k = (p', k') -> step p p'
| step_exec_clear p :
    step p (kexec_clear p)
| step_exec_segment p ph :
    step p (record_segment get p ph)
| step_exec_layout p ts te ds de hs st s :
    step p (set_layout p ts te ds de hs st s)
| step_exec_stack p stackbase :
    step p (kexec_stack_page get p stackbase)
| step_exec_inode p ip :
    step p (set_exec_inode p ip)
| step_sbrk p v :
    step p (set_sz p v).

Inductive reachable : proc -> Prop :=
| reach_init p0 : reachable (lazy_init p0)
| reach_step p p' : reachable p -> step p p' -> reachable p'.
End LazyTrace.

(** The contract of the slot allocator over a bitmap read through [taken]. *)
Definition alloc_spec (taken : list Z -> Z -> bool) (alloc : proc -> Z * proc)
    (p : proc) : Prop :=
  forall s p', alloc p = (s, p') ->
    ((exists i, 0 <= i < MAX_SWAP_SLOTS /\ taken (swap_slot_bitmap p) i = false) ->
       0 <= s < MAX_SWAP_SLOTS
       /\ taken (swap_slot_bitmap p) s = false
       /\ (forall j, 0 <= j < s -> taken (swap_slot_bitmap p) j = true)
       /\ (forall j, 0 <= j < MAX_SWAP_SLOTS ->
             taken (swap_slot_bitmap p') j
             = if decide (j = s) then true else taken (swap_slot_bitmap p) j))
    /\ ((forall i, 0 <= i < MAX_SWAP_SLOTS -> taken (swap_slot_bitmap p) i = true) ->
          s = -1 /\ p' = p).

Definition free_spec (taken : list Z -> Z -> bool) (free : proc -> Z -> proc)
    (p : proc) : Prop :=
  forall slot,
    (0 <= slot < MAX_SWAP_SLOTS ->
       forall j, 0 <= j < MAX_SWAP_SLOTS ->
         taken (swap_slot_bitmap (free p slot)) j
         = if decide (j = slot) then false else taken (swap_slot_bitmap p) j)
    /\ (~ 0 <= slot < MAX_SWAP_SLOTS -> free p slot = p).

(** The number of taken slots among the [n] slots from [i] on, as [lazy.c]
    reads the bitmap; [num_swapped_pages] is meant to equal it. *)
Fixpoint lazy_count (bm : list Z) (i : Z) (n : nat) : Z :=
  match n with
  | O => 0
  | S n' => (if Lazy.slot_taken bm i then 1 else 0) + lazy_count bm (i + 1) n'
  end.

(** Slot [i] of a bitmap of [W]-bit words. *)
Definition taken (W : Z) (bm : list Z) (i : Z) : bool :=
  negb (Z.land (word_at bm (Z.quot i W)) (Z.shiftl 1 (Z.rem i W)) =? 0).




(** ** Scenarios *)

Definition proc0 : proc := mk_proc 3 0 0 0 0 0 0 0 0 0 0 0 0 [] [] [] [] false.

(** A kernel with the given free frames, [room] bytes left on the device and
    the executable image [img] in inode 7. *)
Definition EXEC_INO : Z := 7.
Definition boot_kernel (frames : list Z) (room : Z) (img : list Z) : kernel :=
  mk_kernel frames ∅ ∅ {[EXEC_INO := mk_inode 1 T_FILE 1 img]} room true false [].

Definition FRAME : Z := 1048576.

(** The user program stores byte [v] at offset 0 of the page in frame [pa]. *)
Definition poke (k : kernel) (pa v : Z) : kernel :=
  set_physmem k (<[pa := v :: drop 1 (frame k pa)]> (physmem k)).

Definition peek (k : kernel) (pa off : Z) : Z :=
  default 0 (frame k pa !! Z.to_nat off).

Definition state_of (x : Z * proc * kernel) : proc * kernel := (x.1.2, x.2).

(** Text [0,0x1000), data [0x1000,0x2000), stack [0x2000,0x4000) as [kexec]
    lays them out, and a break grown lazily by two pages to 0x6000. *)
Definition dp_boot : proc :=
  set_exec_inode
    (set_layout (DemandPaging.demand_paging_init proc0)
       0 4096 4096 8192 8192 16384 24576) EXEC_INO.

Definition lazy_boot : proc :=
  set_exec_inode
    (set_layout (Lazy.lazy_init proc0) 0 4096 4096 8192 8192 16384 24576) EXEC_INO.

Module Scenario1.
Import DemandPaging.
(** One frame, a swap file; heap pages A = 0x4000 and B = 0x5000. *)
Definition A : Z := 16384.
Definition B : Z := 20480.
Definition s0 : proc * kernel :=
  state_of (create_swap_file dp_boot (boot_kernel [FRAME] (64 * PGSIZE) [])).
(** A is touched, then written: 'Q' at offset 0. *)
Definition s1 : proc * kernel := state_of (handle_page_fault s0.1 s0.2 A true).
Definition s2 : proc * kernel :=
  let '(p, k) := state_of (handle_write_fault s1.1 s1.2 A) in (p, poke k FRAME 81).
(** B is touched: A, dirty, goes to swap. *)
Definition s3 : proc * kernel := state_of (handle_page_fault s2.1 s2.2 B false).
(** A is read again: B is dropped, A comes back from slot 0, clean. *)
Definition s4 : proc * kernel := state_of (handle_page_fault s3.1 s3.2 A false).
(** B is touched again: A is the victim. *)
Definition s5 : proc * kernel := state_of (handle_page_fault s4.1 s4.2 B false).
(** A is read once more. *)
Definition s6 : proc * kernel := state_of (handle_page_fault s5.1 s5.2 A false).
End Scenario1.


Module Scenario2.
Import Lazy.
(** [lazy.c], one frame: a stack page S = 0x2000 is written, evicted to
    swap, and read back. *)
Definition S : Z := 8192.
Definition s0 : proc * kernel := (lazy_boot, boot_kernel [FRAME] (64 * PGSIZE) []).
Definition s1 : proc * kernel := state_of (lazy_handle_fault s0.1 s0.2 S true).
Definition s2 : proc * kernel := state_of (lazy_evict_page s1.1 (poke s1.2 FRAME 81)).
Definition s3 : proc * kernel := state_of (lazy_handle_fault s2.1 s2.2 S false).
End Scenario2.

Module Scenario3.
Import DemandPaging.
(** [demand_paging.c], one frame: the text page at address 0 is resident
    when the data page 0x1000 is touched. *)
Definition s0 : proc * kernel := (dp_boot, boot_kernel [FRAME] (64 * PGSIZE) []).
Definition s1 : proc * kernel := state_of (handle_page_fault s0.1 s0.2 0 false).
Definition out : Z * proc * kernel := handle_page_fault s1.1 s1.2 4096 false.
End Scenario3.

Module Scenario4.
(** An image whose text segment holds 16 bytes of code at file offset 4096,
    followed in the file by 100 bytes that belong to something else. *)
Definition image : list Z :=
  replicate 4096 127 ++ replicate 16 17 ++ replicate 100 170.
Definition text_ph : proghdr := mk_proghdr 0 4096 16 4096 1.
Definition dp0 : proc :=
  record_segment DemandPaging.get_page_info (kexec_clear dp_boot) text_ph.
Definition dp_out : Z * proc * kernel :=
  DemandPaging.handle_page_fault dp0 (boot_kernel [FRAME] 0 image) 0 false.
(** The same segment placed at file offset 0, under [lazy.c]. *)
Definition text_ph0 : proghdr := mk_proghdr 0 4096 16 0 1.
Definition lazy0 : proc :=
  record_segment LazyTrace.get (kexec_clear lazy_boot) text_ph0.
Definition lazy_out : Z * proc * kernel :=
  Lazy.lazy_handle_fault lazy0 (boot_kernel [FRAME] 0 image) 0 false.
End Scenario4.

Module Scenario5.
Import DemandPaging.
(** A dirty page is swapped out while the device has room for 100 bytes. *)
Definition s0 : proc * kernel :=
  state_of (create_swap_file dp_boot (boot_kernel [FRAME] 100 [])).
Definition s1 : proc * kernel := state_of (handle_page_fault s0.1 s0.2 16384 true).
Definition s2 : proc * kernel := state_of (handle_write_fault s1.1 s1.2 16384).
Definition out : Z * proc * kernel := swap_out_page s2.1 s2.2 16384 FRAME.
Definition lazy_s1 : proc * kernel :=
  state_of (Lazy.lazy_handle_fault lazy_boot (boot_kernel [FRAME] 100 []) 8192 true).
Definition lazy_out : Z * proc * kernel := Lazy.lazy_evict_page lazy_s1.1 lazy_s1.2.
End Scenario5.

Module Scenario6.
Import Lazy.
(** [lazy.c], two frames: the text page at 0 and the stack page 0x2000 are
    resident when a page is evicted. *)
Definition FRAME2 : Z := 2097152.
Definition s0 : proc * kernel := (lazy_boot, boot_kernel [FRAME; FRAME2] 0 []).
Definition s1 : proc * kernel := state_of (lazy_handle_fault s0.1 s0.2 0 false).
Definition s2 : proc * kernel := state_of (lazy_handle_fault s1.1 s1.2 8192 true).
Definition out : Z * proc * kernel := lazy_evict_page s2.1 s2.2.
End Scenario6.

(** ** More of the kernel *)

(** The table of descriptors is an array of [MAX_PROC_PAGES] entries of which
    the first [num_pages] are in use. *)
Definition dp_wf (p : proc) : Prop :=
  0 <= num_pages p <= MAX_PROC_PAGES
  /\ length (pages p) = Z.to_nat MAX_PROC_PAGES.

(** What the paging code reads but has no business changing: the identity of
    the process, its layout and what [kexec] recorded of the image. *)
Definition layout_of (p : proc) :=
  (pid p, sz p, (text_start p, text_end p, data_start p, data_end p),
   (heap_start p, stack_top p), (exec_inode p, exec_off p, exec_len p)).

(** [p'] differs from [p] at most in the descriptors, the slot bitmap and the
    counters, and the table of descriptors has only grown, within its bound. *)
Definition dp_steady (p p' : proc) : Prop :=
  layout_of p' = layout_of p
  /\ swapfile p' = swapfile p
  /\ killed p' = killed p
  /\ length (pages p') = length (pages p)
  /\ length (swap_slot_bitmap p') = length (swap_slot_bitmap p)
  /\ num_pages p <= num_pages p' <= Z.max (num_pages p) MAX_PROC_PAGES.

Definition dp_shape (p : proc) : Prop :=
  dp_wf p /\ length (swap_slot_bitmap p) = 32%nat.



(** The same for [lazy.c], whose functions may open the swap file and kill
    the process, and which never touches [num_pages]. *)
Definition lazy_steady (p p' : proc) : Prop :=
  layout_of p' = layout_of p
  /\ num_pages p' = num_pages p
  /\ length (pages p') = length (pages p)
  /\ length (swap_slot_bitmap p') = length (swap_slot_bitmap p).

Definition lazy_shape (p : proc) : Prop :=
  num_pages p = 0
  /\ length (pages p) = Z.to_nat MAX_PROC_PAGES
  /\ length (swap_slot_bitmap p) = 32%nat.

(** ** [sysproc.c]: [sys_memstat] *)

(** [memstat.h] *)
Definition MAX_PAGES_INFO : Z := 128.

(** [struct page_stat] *)
Record page_stat : Set := mk_page_stat {
  ps_va : Z;
  ps_state : page_state;
  ps_is_dirty : bool;
  ps_seq : Z;
  ps_swap_slot : Z
}.

(** [struct proc_mem_stat]; [ms_pages] holds the entries of [info.pages]
    that the function writes, the array being a local that is not cleared. *)
Record proc_mem_stat : Set := mk_proc_mem_stat {
  ms_pid : Z;
  ms_num_pages_total : Z;
  ms_num_resident_pages : Z;
  ms_num_swapped_pages : Z;
  ms_next_fifo_seq : Z;
  ms_pages : list page_stat
}.

(** The conversions to [int] and to [uint]. *)
Definition s32 (x : Z) : Z := (x + 2 ^ 31) mod 2 ^ 32 - 2 ^ 31.
Definition uint (x : Z) : Z := x mod 2 ^ 32.

(** Lines 135-140: the loop
    [for(i = 0; i < p->num_pages && i < MAX_PAGES_INFO; i++)]. *)
Fixpoint count_states (l : list page_info) (n : nat) (num_resident num_swapped : Z)
  : Z * Z :=
  match n, l with
  | S n', d :: l' =>
      match pi_state d with
      | RESIDENT => count_states l' n' (num_resident + 1) num_swapped
      | SWAPPED => count_states l' n' num_resident (num_swapped + 1)
      | UNMAPPED => count_states l' n' num_resident num_swapped
      end
  | _, _ => (num_resident, num_swapped)
  end.

(** Lines 149-155: one entry of [info.pages]. *)
Definition stat_of (d : page_info) : page_stat :=
  mk_page_stat (uint (pi_va d)) (pi_state d) (is_dirty d) (seq d) (swap_slot d).

(** Lines 119-155: the structure that is copied out. *)
Definition memstat_info (p : proc) : proc_mem_stat :=
  let total_va_space := sz p in
  let num_total := s32 (total_va_space / PGSIZE) in
  let num_total := if negb (total_va_space mod PGSIZE =? 0)
                   then num_total + 1 else num_total in
  let '(num_resident, num_swapped) :=
    count_states (pages p) (Z.to_nat (Z.min (num_pages p) MAX_PAGES_INFO)) 0 0 in
  let pages_to_copy :=
    if num_pages p <? MAX_PAGES_INFO then num_pages p else MAX_PAGES_INFO in
  mk_proc_mem_stat (pid p) num_total num_resident num_swapped (next_fifo_seq p)
    (stat_of <$> take (Z.to_nat pages_to_copy) (pages p)).

Section Memstat.

(** [copyout] lives in [vm.c]; its result decides that of the system call. *)
Variable copyout : kernel -> Z -> proc_mem_stat -> Z * kernel.

Definition sys_memstat (p : proc) (k : kernel) (addr : Z) : Z * kernel :=
  let info := memstat_info p in
  let '(r, k) := copyout k addr info in
  if r <? 0 then (u64 (-1), k) else (0, k).

End Memstat.

(** ** [lazy.c]: [lazy_free] *)

(** Modelled from the spec: [iput(ip)] of the file system drops one
    reference to the inode. *)
Definition iput (k : kernel) (ip : Z) : kernel :=
  set_inodes k
    (alter (fun f => mk_inode (i_ref f - 1) (i_type f) (i_nlink f) (i_data f))
       ip (inodes k)).

Definition lazy_free (p : proc) (k : kernel) : proc * kernel :=
  let '(p, k) := if negb (swapfile p =? 0)
                 then (set_swapfile p 0, iput k (swapfile p)) else (p, k) in
  let '(p, k) := if negb (exec_inode p =? 0)
                 then (set_exec_inode p 0, iput k (exec_inode p)) else (p, k) in
  if 0 <? num_swapped_pages p
  then (p, log k (EvSWAPCLEANUP (num_swapped_pages p)))
  else (p, k).

(** ** [exec.c]: [kexec] *)

(** A program header as [kexec] reads it: its [type] and the fields above. *)
Record phdr : Set := mk_phdr {
  ph_type : Z;
  ph_body : proghdr
}.

(** The locals [text_start], [text_end], [data_start], [data_end] and [sz]
    of [kexec]. *)
Record image_layout : Set := mk_image_layout {
  l_text_start : Z;
  l_text_end : Z;
  l_data_start : Z;
  l_data_end : Z;
  l_sz : Z
}.

(** Their initial values: [0xFFFFFFFFFFFFFFFF] and 0. *)
Definition layout0 : image_layout :=
  mk_image_layout (2 ^ 64 - 1) 0 (2 ^ 64 - 1) 0 0.

(** What [kexec] gets from the rest of the kernel: the inode [namei] finds
    (0 for none), whether the ELF header is read in full and carries the
    magic number, whether [proc_pagetable] returns a table, what each read
    of a program header yields ([None] for a short read), whether [kalloc]
    and [mappages] provide the stack page, the length of each argument
    string, and whether [copyout] to an address succeeds. *)
Record exec_env : Type := mk_exec_env {
  x_ip : Z;
  x_elf_ok : bool;
  x_pagetable_ok : bool;
  x_headers : list (option phdr);
  x_stack_ok : bool;
  x_argv : list Z;
  x_copyout : Z -> Z -> bool
}.



Section Kexec.

Variable get_page_info : proc -> Z -> option nat * proc.

(** [ELF_PROG_LOAD] of [elf.h] and [MAXARG] of [param.h]. *)
Variable ELF_PROG_LOAD : Z.
Variable MAXARG : Z.

(** Lines 80-132: one round of the loop over the program headers; no layout
    stands for [goto bad]. *)
Definition scan_header (p : proc) (L : image_layout) (rd : option phdr)
  : option image_layout * proc :=
  match rd with
  | None => (None, p)
  | Some h =>
      let ph := ph_body h in
      if negb (ph_type h =? ELF_PROG_LOAD) then (Some L, p)
      else if ph_memsz ph <? ph_filesz ph then (None, p)
      else if u64 (ph_vaddr ph + ph_memsz ph) <? ph_vaddr ph then (None, p)
      else if negb (ph_vaddr ph mod PGSIZE =? 0) then (None, p)
      else
        let is_exec := negb (Z.land (ph_flags ph) 1 =? 0) in
        let top := u64 (ph_vaddr ph + ph_memsz ph) in
        let L :=
          if is_exec then
            mk_image_layout
              (if ph_vaddr ph <? l_text_start L then ph_vaddr ph else l_text_start L)
              (if l_text_end L <? top then top else l_text_end L)
              (l_data_start L) (l_data_end L) (l_sz L)
          else
            mk_image_layout (l_text_start L) (l_text_end L)
              (if ph_vaddr ph <? l_data_start L then ph_vaddr ph else l_data_start L)
              (if l_data_end L <? top then top else l_data_end L)
              (l_sz L) in
        let p := record_segment get_page_info p ph in
        let L := mk_image_layout (l_text_start L) (l_text_end L)
                   (l_data_start L) (l_data_end L)
                   (if l_sz L <? top then top else l_sz L) in
        (Some L, p)
  end.

(** Line 79: the loop. *)
Fixpoint scan_headers (p : proc) (L : image_layout) (hs : list (option phdr))
  : option image_layout * proc :=
  match hs with
  | [] => (Some L, p)
  | rd :: hs' =>
      match scan_header p L rd with
      | (Some L', p') => scan_headers p' L' hs'
      | (None, p') => (None, p')
      end
  end.

(** Lines 184-195: the argument strings go down the stack page; [lens] are
    the lengths of the strings still to be pushed. *)
Fixpoint push_strings (copyout : Z -> Z -> bool) (stackbase sp argc : Z)
    (ustack : list Z) (lens : list Z) : option (Z * Z * list Z) :=
  match lens with
  | [] => Some (sp, argc, ustack)
  | len :: rest =>
      if MAXARG <=? argc then None
      else
        let sp := u64 (sp - (len + 1)) in
        let sp := u64 (sp - sp mod 16) in
        if sp <? stackbase then None
        else if negb (copyout sp (len + 1)) then None
        else push_strings copyout stackbase sp (argc + 1) (ustack ++ [sp]) rest
  end.

(** Lines 198-204: the array of pointers follows. *)
Definition push_ustack (copyout : Z -> Z -> bool) (stackbase sp argc : Z) : option Z :=
  let sp := u64 (sp - (argc + 1) * 8) in
  let sp := u64 (sp - sp mod 16) in
  if sp <? stackbase then None
  else if negb (copyout sp ((argc + 1) * 8)) then None
  else Some sp.

(** [kexec]: the value it returns, the process it leaves, and the initial
    stack pointer and the argument pointers when it commits. *)
Definition kexec (p : proc) (x : exec_env) : Z * proc * option (Z * list Z) :=
  let p := kexec_clear p in
  if x_ip x =? 0 then (-1, p, None)
  else if negb (x_elf_ok x) then (-1, p, None)
  else if negb (x_pagetable_ok x) then (-1, p, None)
  else
    match scan_headers p layout0 (x_headers x) with
    | (None, p) => (-1, p, None)
    | (Some L, p) =>
        let sz := PGROUNDUP (l_sz L) in
        let sp := u64 (sz + (USERSTACK + 1) * PGSIZE) in
        let stackbase := u64 (sp - USERSTACK * PGSIZE) in
        let p := set_layout p (l_text_start L) (l_text_end L)
                   (l_data_start L) (l_data_end L) (PGROUNDUP (l_data_end L))
                   (u64 (sz + (USERSTACK + 1) * PGSIZE))
                   (u64 (sz + (USERSTACK + 1) * PGSIZE)) in
        if negb (x_stack_ok x) then (-1, p, None)
        else
          let p := kexec_stack_page get_page_info p stackbase in
          let sp := u64 (stackbase + PGSIZE) in
          match push_strings (x_copyout x) stackbase sp 0 [] (x_argv x) with
          | None => (-1, p, None)
          | Some (sp, argc, ustack) =>
              match push_ustack (x_copyout x) stackbase sp argc with
              | None => (-1, p, None)
              | Some sp =>
                  (argc, set_exec_inode p (x_ip x), Some (sp, ustack ++ [0]))
              end
          end
    end.

End Kexec.

(** [kexec] is linked against the [get_page_info] of [demand_paging.c] or
    against that of [lazy.c]. *)
Definition linked (get_page_info : proc -> Z -> option nat * proc) : Prop :=
  get_page_info = DemandPaging.get_page_info \/ get_page_info = LazyTrace.get.

(** ** The names of the swap files *)

(** A [char] that is assigned an [int], as its code. *)
Definition to_char (c : Z) : Z := c mod 256.

(** The characters of "/pgswp". *)
Definition pgswp : list Z := [47; 112; 103; 115; 119; 112].

(** The loops [path[i] = '0' + (pid % 10); pid /= 10] of both files, which
    fill [n] positions from the right. *)
Fixpoint pid_digits (pid : Z) (n : nat) : list Z :=
  match n with
  | O => []
  | S n' => pid_digits (Z.quot pid 10) n' ++ [to_char (48 + Z.rem pid 10)]
  end.

(** [demand_paging.c], lines 107-121: five digits, whatever the pid. *)
Definition dp_swap_path (pid : Z) : list Z := pgswp ++ pid_digits pid 5.

(** [lazy.c], lines 315-320: [while(pid_copy) { len++; pid_copy /= 10; }];
    an [int] has at most ten decimal digits. *)
Fixpoint count_digits (pid_copy : Z) (fuel : nat) : nat :=
  match fuel with
  | O => O
  | S fuel' =>
      if pid_copy =? 0 then O else S (count_digits (Z.quot pid_copy 10) fuel')
  end.

(** [lazy.c], lines 322-335. *)
Definition lazy_swap_path (pid : Z) : list Z :=
  pgswp ++ pid_digits pid (count_digits pid 10).

(** ** More scenarios *)

Module Scenario7.
(** [kexec] under [demand_paging.c] of an image with a text segment of one
    page, a header that is not loadable and a data segment of two pages,
    called with two arguments of 2 and 5 characters; 1 and 32 stand for
    [ELF_PROG_LOAD] and [MAXARG]. *)
Definition text_ph : phdr := mk_phdr 1 (mk_proghdr 0 4096 16 4096 5).
Definition note_ph : phdr := mk_phdr 4 (mk_proghdr 0 0 0 0 4).
Definition data_ph : phdr := mk_phdr 1 (mk_proghdr 4096 8192 100 8192 6).
Definition env : exec_env :=
  mk_exec_env EXEC_INO true true [Some text_ph; Some note_ph; Some data_ph]
    true [2; 5] (fun _ _ => true).
Definition p0 : proc := DemandPaging.demand_paging_init proc0.
Definition out : Z * proc * option (Z * list Z) :=
  kexec DemandPaging.get_page_info 1 32 p0 env.
End Scenario7.

Module Scenario8.
(** A table whose 128 descriptors are all in use, none of them for the heap
    page 0x4000. *)
Definition full : proc := set_num_pages dp_boot MAX_PROC_PAGES.
Definition k0 : kernel := boot_kernel [FRAME] 0 [].
End Scenario8.

Module Scenario9.
Import Lazy.
(** [lazy.c], one frame and an open swap file: the stack page S = 0x2000 is
    written ('Q' at offset 0), evicted, and read back. *)
Definition S : Z := 8192.
Definition s0 : proc * kernel :=
  state_of (create_swap_file lazy_boot (boot_kernel [FRAME] (64 * PGSIZE) [])).
Definition s1 : proc * kernel := state_of (lazy_handle_fault s0.1 s0.2 S true).
Definition k1 : kernel := poke s1.2 FRAME 81.
Definition s2 : proc * kernel := state_of (lazy_evict_page s1.1 k1).
Definition out : Z * proc * kernel := lazy_handle_fault s2.1 s2.2 S false.
End Scenario9.

(** * Facts

    ** Bitmaps of [W]-bit words *)

Section BitmapFacts.
Variable W : Z.
Hypothesis W_pos : 0 < W.

Lemma land_bit (w b : Z) : 0 <= b ->
  (Z.land w (Z.shiftl 1 b) =? 0) = negb (Z.testbit w b).
Proof.
  intros Hb. rewrite Z.shiftl_1_l.
  destruct (Z.testbit w b) eqn:E; simpl.
  - apply Z.eqb_neq. intros H0.
    assert (Z.testbit (Z.land w (2 ^ b)) b = true).
    { rewrite Z.land_spec, E, Z.pow2_bits_true; auto. }
    rewrite H0, Z.bits_0 in H. discriminate.
  - apply Z.eqb_eq. apply Z.bits_inj_0. intros n.
    rewrite Z.land_spec.
    destruct (Z.eq_dec n b) as [->|Hn].
    + rewrite E. reflexivity.
    + destruct (Z.ltb_spec n 0).
      * rewrite (Z.testbit_neg_r (2^b)) by lia. apply andb_false_r.
      * rewrite Z.pow2_bits_false by lia. apply andb_false_r.
Qed.

Lemma taken_testbit bm i : 0 <= i ->
  taken W bm i = Z.testbit (word_at bm (i / W)) (i mod W).
Proof.
  intros Hi. unfold taken.
  rewrite Z.quot_div_nonneg, Z.rem_mod_nonneg by lia.
  rewrite land_bit by (apply Z.mod_pos_bound; lia).
  apply negb_involutive.
Qed.

Lemma word_at_insert bm (n : nat) v i : (n < length bm)%nat -> 0 <= i ->
  word_at (<[n := v]> bm) i = if decide (Z.to_nat i = n) then v else word_at bm i.
Proof.
  intros Hn Hi. unfold word_at. case_decide as E.
  - subst n. rewrite list_lookup_insert_eq by assumption. reflexivity.
  - rewrite list_lookup_insert_ne by congruence. reflexivity.
Qed.

Lemma split_index i j : 0 <= i -> 0 <= j ->
  i / W = j / W -> i mod W = j mod W -> i = j.
Proof.
  intros Hi Hj Hq Hr.
  rewrite (Z.div_mod i W), (Z.div_mod j W) by lia. congruence.
Qed.

(** Setting the bit of slot [s]. *)
Lemma taken_set bm s j : 0 <= s -> 0 <= j ->
  (Z.to_nat (s / W) < length bm)%nat ->
  taken W (<[Z.to_nat (s / W) :=
             Z.lor (word_at bm (s / W)) (Z.shiftl 1 (s mod W))]> bm) j
  = if decide (j = s) then true else taken W bm j.
Proof.
  intros Hs Hj Hlen.
  rewrite !taken_testbit by assumption.
  assert (0 <= j / W) by (apply Z.div_pos; lia).
  assert (0 <= s / W) by (apply Z.div_pos; lia).
  assert (0 <= j mod W < W) by (apply Z.mod_pos_bound; lia).
  assert (0 <= s mod W < W) by (apply Z.mod_pos_bound; lia).
  rewrite word_at_insert by assumption.
  case_decide as Ew.
  - apply Z2Nat.inj in Ew; try assumption.
    rewrite Z.lor_spec, Z.shiftl_1_l, Ew.
    case_decide as Ejs.
    + subst j. rewrite Z.pow2_bits_true by lia. apply orb_true_r.
    + rewrite Z.pow2_bits_false; [apply orb_false_r|].
      intros Eb. apply Ejs. apply split_index; auto.
  - case_decide as Ejs; [subst j; congruence | reflexivity].
Qed.

(** Clearing the bit of slot [s] with a mask truncated to [W] bits. *)
Lemma taken_clear bm s j : 0 <= s -> 0 <= j ->
  (Z.to_nat (s / W) < length bm)%nat ->
  taken W (<[Z.to_nat (s / W) :=
             Z.land (word_at bm (s / W))
                    ((Z.lnot (Z.shiftl 1 (s mod W))) mod 2 ^ W)]> bm) j
  = if decide (j = s) then false else taken W bm j.
Proof.
  intros Hs Hj Hlen.
  rewrite !taken_testbit by assumption.
  assert (0 <= j / W) by (apply Z.div_pos; lia).
  assert (0 <= s / W) by (apply Z.div_pos; lia).
  assert (0 <= j mod W < W) by (apply Z.mod_pos_bound; lia).
  assert (0 <= s mod W < W) by (apply Z.mod_pos_bound; lia).
  rewrite word_at_insert by assumption.
  case_decide as Ew.
  - apply Z2Nat.inj in Ew; try assumption.
    rewrite Z.land_spec, Z.mod_pow2_bits_low, Z.lnot_spec, Z.shiftl_1_l, Ew by lia.
    case_decide as Ejs.
    + subst j. rewrite Z.pow2_bits_true by lia. apply andb_false_r.
    + rewrite Z.pow2_bits_false; [apply andb_true_r|].
      intros Eb. apply Ejs. apply split_index; auto.
  - case_decide as Ejs; [subst j; congruence | reflexivity].
Qed.
End BitmapFacts.

(** ** The slot allocators *)

Lemma set_bitmap_same p : set_bitmap p (swap_slot_bitmap p) = p.
Proof. destruct p; reflexivity. Qed.

Lemma dp_taken bm i : DemandPaging.slot_taken bm i = taken 32 bm i.
Proof. reflexivity. Qed.

Lemma lazy_taken bm i : Lazy.slot_taken bm i = taken 64 bm i.
Proof. reflexivity. Qed.

Lemma dp_alloc_scan_spec bm n : forall i,
  0 <= i -> i + Z.of_nat n <= 1024 -> length bm = 32%nat ->
  forall s bm', DemandPaging.alloc_scan bm i n = (s, bm') ->
    (s = -1 /\ bm' = bm /\ forall j, i <= j < i + Z.of_nat n -> taken 32 bm j = true)
    \/ (i <= s < i + Z.of_nat n /\ taken 32 bm s = false
        /\ (forall j, i <= j < s -> taken 32 bm j = true)
        /\ bm' = <[Z.to_nat (s / 32) :=
                    Z.lor (word_at bm (s / 32)) (Z.shiftl 1 (s mod 32))]> bm).
Proof.
  induction n as [|n IH]; intros i Hi Hn Hlen s bm' H; simpl in H.
  - inversion H; subst. left. repeat split; auto. intros; lia.
  - destruct (Z.land _ _ =? 0) eqn:E.
    + inversion H; subst. right.
      rewrite Z.quot_div_nonneg, Z.rem_mod_nonneg by lia.
      repeat split; try lia.
      unfold taken. rewrite E. reflexivity.
    + destruct (IH (i + 1) ltac:(lia) ltac:(lia) Hlen s bm' H)
        as [(-> & -> & Hall) | (Hs & Hfree & Hlow & ->)].
      * left. repeat split; auto. intros j Hj.
        destruct (Z.eq_dec j i) as [->|]; [|apply Hall; lia].
        unfold taken. rewrite E. reflexivity.
      * right. repeat split; auto; try lia. intros j Hj.
        destruct (Z.eq_dec j i) as [->|]; [|apply Hlow; lia].
        unfold taken. rewrite E. reflexivity.
Qed.

Lemma dp_alloc_ok p : length (swap_slot_bitmap p) = 32%nat ->
  alloc_spec DemandPaging.slot_taken DemandPaging.alloc_swap_slot p.
Proof.
  intros Hlen s p' H. unfold DemandPaging.alloc_swap_slot in H.
  destruct (DemandPaging.alloc_scan _ 0 1024) as [s0 bm'] eqn:E.
  inversion H; subst s0 p'; clear H.
  apply (dp_alloc_scan_spec _ 1024 0 ltac:(lia) ltac:(lia) Hlen) in E.
  unfold MAX_SWAP_SLOTS. change (0 + Z.of_nat 1024) with 1024 in E.
  split.
  - intros (i & Hi & Hfree).
    destruct E as [(_ & _ & Hall) | (Hs & Hsf & Hlow & ->)].
    + rewrite dp_taken, Hall in Hfree by lia. discriminate.
    + repeat split; try lia; auto.
      intros j Hj. simpl. rewrite !dp_taken. apply taken_set; try lia.
      rewrite Hlen. apply Nat2Z.inj_lt. rewrite Z2Nat.id by (apply Z.div_pos; lia).
      apply Z.div_lt_upper_bound; lia.
  - intros Hall.
    destruct E as [(-> & -> & _) | (Hs & Hsf & _)].
    + split; [reflexivity | apply set_bitmap_same].
    + rewrite <- dp_taken, Hall in Hsf by lia. discriminate.
Qed.

Lemma dp_free_ok p : length (swap_slot_bitmap p) = 32%nat ->
  free_spec DemandPaging.slot_taken DemandPaging.free_swap_slot p.
Proof.
  intros Hlen slot. unfold DemandPaging.free_swap_slot, MAX_SWAP_SLOTS. split.
  - intros Hs j Hj.
    destruct (Z.ltb_spec slot 0); [lia|]. destruct (Z.leb_spec 1024 slot); [lia|].
    simpl. rewrite Z.quot_div_nonneg, Z.rem_mod_nonneg by lia.
    rewrite !dp_taken. apply taken_clear; try lia.
    rewrite Hlen. apply Nat2Z.inj_lt. rewrite Z2Nat.id by (apply Z.div_pos; lia).
    apply Z.div_lt_upper_bound; lia.
  - intros Hs.
    destruct (Z.ltb_spec slot 0); [reflexivity|].
    destruct (Z.leb_spec 1024 slot); [reflexivity|]. lia.
Qed.

(** lazy.c *)
Lemma lazy_scan_bits_spec bm i n : forall j,
  0 <= i < 16 -> 0 <= j -> j + Z.of_nat n <= 64 ->
  match Lazy.scan_bits bm i j n with
  | None => forall j', j <= j' < j + Z.of_nat n -> taken 64 bm (i * 64 + j') = true
  | Some (s, bm') =>
      i * 64 + j <= s < i * 64 + j + Z.of_nat n
      /\ taken 64 bm s = false
      /\ (forall s', i * 64 + j <= s' < s -> taken 64 bm s' = true)
      /\ bm' = <[Z.to_nat (s / 64) :=
                  Z.lor (word_at bm (s / 64)) (Z.shiftl 1 (s mod 64))]> bm
  end.
Proof.
  induction n as [|n IH]; intros j Hi Hj Hn; simpl.
  - intros; lia.
  - unfold MAX_SWAP_SLOTS. destruct (Z.leb_spec 1024 (i * 64 + j)); [lia|].
    assert (Hq : (i * 64 + j) / 64 = i).
    { rewrite Z.add_comm, Z.div_add by lia. rewrite Z.div_small by lia. lia. }
    assert (Hr : (i * 64 + j) mod 64 = j).
    { rewrite Z.add_comm, Z.mod_add by lia. apply Z.mod_small. lia. }
    assert (Ht : taken 64 bm (i * 64 + j)
                 = negb (Z.land (word_at bm i) (Z.shiftl 1 j) =? 0)).
    { unfold taken. rewrite Z.quot_div_nonneg, Z.rem_mod_nonneg, Hq, Hr by lia.
      reflexivity. }
    destruct (Z.land _ _ =? 0) eqn:E.
    + rewrite Hq, Hr. repeat split; try lia; auto.
    + specialize (IH (j + 1) Hi ltac:(lia) ltac:(lia)).
      destruct (Lazy.scan_bits bm i (j + 1) n) as [[s bm']|].
      * destruct IH as (Hs & Hf & Hlow & ->). repeat split; auto; try lia.
        intros s' Hs'. destruct (Z.eq_dec s' (i * 64 + j)) as [->|]; [auto|].
        apply Hlow. lia.
      * intros j' Hj'. destruct (Z.eq_dec j' j) as [->|]; [auto|].
        apply IH. lia.
Qed.

Lemma lazy_scan_words_spec bm n : forall i,
  0 <= i -> i + Z.of_nat n <= 16 ->
  forall s bm', Lazy.scan_words bm i n = (s, bm') ->
    (s = -1 /\ bm' = bm
     /\ forall j, i * 64 <= j < (i + Z.of_nat n) * 64 -> taken 64 bm j = true)
    \/ (i * 64 <= s < (i + Z.of_nat n) * 64 /\ taken 64 bm s = false
        /\ (forall j, i * 64 <= j < s -> taken 64 bm j = true)
        /\ bm' = <[Z.to_nat (s / 64) :=
                    Z.lor (word_at bm (s / 64)) (Z.shiftl 1 (s mod 64))]> bm).
Proof.
  induction n as [|n IH]; intros i Hi Hn s bm' H.
  - inversion H; subst. left. repeat split; auto. intros; lia.
  - change (Lazy.scan_words bm i (S n))
      with (match Lazy.scan_bits bm i 0 64 with
            | Some r => r
            | None => Lazy.scan_words bm (i + 1) n
            end) in H.
    pose proof (lazy_scan_bits_spec bm i 64 0 ltac:(lia) ltac:(lia) ltac:(lia)) as B.
    destruct (Lazy.scan_bits bm i 0 64) as [[s0 bm0]|].
    + injection H as -> ->.
      destruct B as (Hs & Hf & Hlow & ->). right. repeat split; auto; try lia.
      intros j Hj. apply Hlow. lia.
    + assert (Hword : forall j, i * 64 <= j < (i + 1) * 64 -> taken 64 bm j = true).
      { intros j Hj. replace j with (i * 64 + (j - i * 64)) by lia. apply B. lia. }
      destruct (IH (i + 1) ltac:(lia) ltac:(lia) s bm' H)
        as [(-> & -> & Hall) | (Hs & Hf & Hlow & ->)].
      * left. repeat split; auto. intros j Hj.
        destruct (Z.lt_ge_cases j ((i + 1) * 64)); [apply Hword | apply Hall]; lia.
      * right. repeat split; auto; try lia. intros j Hj.
        destruct (Z.lt_ge_cases j ((i + 1) * 64)); [apply Hword | apply Hlow]; lia.
Qed.

Lemma lazy_count_bound bm n : forall i,
  0 <= lazy_count bm i n <= Z.of_nat n
  /\ ((exists j, i <= j < i + Z.of_nat n /\ Lazy.slot_taken bm j = false) ->
        lazy_count bm i n < Z.of_nat n).
Proof.
  induction n as [|n IH]; intros i; simpl lazy_count.
  - split; [lia|]. intros (j & Hj & _). lia.
  - destruct (IH (i + 1)) as [Hb Hlt]. split.
    + destruct (Lazy.slot_taken bm i); lia.
    + intros (j & Hj & Hf). destruct (Z.eq_dec j i) as [->|].
      * rewrite Hf. lia.
      * assert (lazy_count bm (i + 1) n < Z.of_nat n).
        { apply Hlt. exists j. split; [lia | assumption]. }
        destruct (Lazy.slot_taken bm i); lia.
Qed.

Lemma lazy_alloc_ok p : length (swap_slot_bitmap p) = 32%nat ->
  num_swapped_pages p = lazy_count (swap_slot_bitmap p) 0 1024 ->
  alloc_spec Lazy.slot_taken Lazy.alloc_swap_slot p.
Proof.
  intros Hlen Hcnt s p' H. unfold Lazy.alloc_swap_slot, MAX_SWAP_SLOTS in *.
  destruct (lazy_count_bound (swap_slot_bitmap p) 1024 0) as [Hb Hlt].
  change (Z.of_nat 1024) with 1024 in *.
  destruct (Z.leb_spec 1024 (num_swapped_pages p)) as [Hfull|Hroom].
  - inversion H; subst s p'; clear H. split; [|auto].
    intros (i & Hi & Hf). exfalso.
    assert (lazy_count (swap_slot_bitmap p) 0 1024 < 1024); [|lia].
    apply Hlt. exists i. split; [lia | assumption].
  - destruct (Lazy.scan_words _ 0 16) as [s0 bm'] eqn:E.
    inversion H; subst s0 p'; clear H.
    apply (lazy_scan_words_spec _ 16 0 ltac:(lia) ltac:(lia)) in E.
    change ((0 + Z.of_nat 16) * 64) with 1024 in E. change (0 * 64) with 0 in E.
    split.
    + intros (i & Hi & Hfree).
      destruct E as [(_ & _ & Hall) | (Hs & Hsf & Hlow & ->)].
      * rewrite lazy_taken, Hall in Hfree by lia. discriminate.
      * repeat split; try lia; auto.
        intros j Hj. simpl. rewrite !lazy_taken. apply taken_set; try lia.
        rewrite Hlen. apply Nat2Z.inj_lt. rewrite Z2Nat.id by (apply Z.div_pos; lia).
        apply Z.div_lt_upper_bound; lia.
    + intros Hall.
      destruct E as [(-> & -> & _) | (Hs & Hsf & _)].
      * split; [reflexivity | apply set_bitmap_same].
      * rewrite <- lazy_taken, Hall in Hsf by lia. discriminate.
Qed.

Lemma lazy_free_ok p : length (swap_slot_bitmap p) = 32%nat ->
  free_spec Lazy.slot_taken Lazy.free_swap_slot p.
Proof.
  intros Hlen slot. unfold Lazy.free_swap_slot, MAX_SWAP_SLOTS. split.
  - intros Hs j Hj.
    destruct (Z.ltb_spec slot 0); [lia|]. destruct (Z.leb_spec 1024 slot); [lia|].
    simpl. rewrite Z.quot_div_nonneg, Z.rem_mod_nonneg by lia.
    assert (0 <= slot / 64 < 16).
    { split; [apply Z.div_pos; lia | apply Z.div_lt_upper_bound; lia]. }
    destruct (Z.leb_spec 0 (slot / 64)); [|lia].
    destruct (Z.ltb_spec (slot / 64) 16); [|lia].
    simpl. rewrite !lazy_taken. apply taken_clear; try lia.
  - intros Hs.
    destruct (Z.ltb_spec slot 0); [reflexivity|].
    destruct (Z.leb_spec 1024 slot); [reflexivity|]. lia.
Qed.

(** ** The FIFO order under the assignments of the code *)

Lemma lookup_put_page p i d j :
  pages (put_page p i d) !! j
  = if decide (j = i) then (fun _ => d) <$> pages p !! i else pages p !! j.
Proof.
  simpl. case_decide as E.
  - subst j. destruct (pages p !! i) eqn:L.
    + apply list_lookup_insert_eq. eapply lookup_lt_Some; eauto.
    + simpl. rewrite list_insert_ge; [assumption|]. apply lookup_ge_None; assumption.
  - apply list_lookup_insert_ne. congruence.
Qed.

Lemma lookup_upd p i (f : page_info -> page_info) j :
  pages (put_page p i (f (page_at p i))) !! j
  = if decide (j = i) then f <$> pages p !! i else pages p !! j.
Proof.
  rewrite lookup_put_page. case_decide; [|reflexivity].
  unfold page_at. destruct (pages p !! i); reflexivity.
Qed.


Lemma inv_except i p : fifo_inv p -> fifo_inv_except (Some i) p.
Proof.
  intros [Hb Hd]. split.
  - intros j d _. apply Hb. discriminate.
  - intros j1 j2 d1 d2 _ _. apply Hd; discriminate.
Qed.

(** Any assignment to the skipped descriptor keeps the others in order. *)
Lemma except_put i p d :
  fifo_inv_except (Some i) p -> fifo_inv_except (Some i) (put_page p i d).
Proof.
  intros [Hb Hd]. split.
  - intros j dj Hj. rewrite lookup_put_page. case_decide; [congruence|].
    apply Hb; assumption.
  - intros j1 j2 d1 d2 H1 H2. rewrite !lookup_put_page.
    repeat case_decide; try congruence. apply Hd; assumption.
Qed.



(** [p->next_fifo_seq++] right after [pi->seq = p->next_fifo_seq]. *)
Lemma except_close i p :
  fifo_inv_except (Some i) p ->
  (forall d, pages p !! i = Some d -> pi_state d = RESIDENT -> seq d = next_fifo_seq p) ->
  fifo_inv (set_next_fifo_seq p (next_fifo_seq p + 1)).
Proof.
  intros [Hb Hd] Hi. split; simpl.
  - intros j d _ Hl Hr. destruct (decide (j = i)) as [->|Hne].
    + rewrite (Hi d Hl Hr). lia.
    + assert (seq d < next_fifo_seq p); [|lia]. apply (Hb j d); congruence.
  - intros j1 j2 d1 d2 _ _ L1 L2 R1 R2 E.
    destruct (decide (j1 = i)) as [->|N1]; destruct (decide (j2 = i)) as [->|N2]; auto.
    + assert (seq d2 < next_fifo_seq p) by (apply (Hb j2 d2); congruence).
      rewrite (Hi d1 L1 R1) in E. lia.
    + assert (seq d1 < next_fifo_seq p) by (apply (Hb j1 d1); congruence).
      rewrite (Hi d2 L2 R2) in E. lia.
    + apply (Hd j1 j2 d1 d2); congruence.
Qed.

Lemma seq_after_set_seq p i n d :
  pages (set_seq p i n) !! i = Some d -> seq d = n.
Proof.
  unfold set_seq. rewrite (lookup_upd p i (fun d => with_seq d n)).
  case_decide; [|congruence].
  destruct (pages p !! i); simpl; [|discriminate]. intros [= <-]. reflexivity.
Qed.

(** The block [pi->state = RESIDENT; pi->seq = p->next_fifo_seq++]. *)
Lemma inv_enter_resident p i :
  fifo_inv p ->
  fifo_inv (set_next_fifo_seq (set_seq (set_state p i RESIDENT) i (next_fifo_seq p))
              (next_fifo_seq p + 1)).
Proof.
  intros H.
  apply (except_close i (set_seq (set_state p i RESIDENT) i (next_fifo_seq p))).
  - apply except_put, except_put, inv_except, H.
  - intros d Hl _. apply (seq_after_set_seq _ _ _ _ Hl).
Qed.



(** Splits the goal or a hypothesis along the branches of the code. *)
Ltac branch_on e := let E := fresh "E" in destruct e eqn:E.
Ltac branches H :=
  repeat match type of H with
         | context [match ?e with _ => _ end] => branch_on e
         end.

Ltac inv_pair H := injection H as <- <- <- || injection H as <- <-.



(** ** [demand_paging.c] keeps the FIFO order *)

Module DPFacts.
Import DemandPaging.



Lemma free_swap_slot_pages p s :
  pages (free_swap_slot p s) = pages p
  /\ next_fifo_seq (free_swap_slot p s) = next_fifo_seq p.
Proof. unfold free_swap_slot. destruct (_ || _); auto. Qed.








Lemma install_proc p k va pa r p' k' : install p k va pa = (r, p', k') -> p' = p.
Proof. unfold install. intros H. branches H; inv_pair H; reflexivity. Qed.





End DPFacts.

(** ** [lazy.c] keeps the FIFO order *)

Module LazyFacts.
Import Lazy.

Lemma lz_alloc_swap_slot_pages p s p' :
  alloc_swap_slot p = (s, p') ->
  pages p' = pages p /\ next_fifo_seq p' = next_fifo_seq p.
Proof.
  unfold alloc_swap_slot. intros H. branches H; inv_pair H; auto.
Qed.










End LazyFacts.

Section ExecFacts.
Variable get_page_info : proc -> Z -> option nat * proc.
Hypothesis get_inv : forall p va pi p',
  get_page_info p va = (pi, p') -> fifo_inv p -> fifo_inv p'.





End ExecFacts.

(** ** Which faults are accepted *)

Lemma state_eqb_eq a b : state_eqb a b = true <-> a = b.
Proof. unfold state_eqb. apply bool_decide_eq_true. Qed.





(** ** Entering RESIDENT *)

Lemma lookup_default_insert (l : list page_info) i d :
  (i < length l)%nat -> default blank_page (<[i := d]> l !! i) = d.
Proof. intros H. rewrite list_lookup_insert_eq by assumption. reflexivity. Qed.

Lemma page_at_in_range p i :
  pi_state (page_at p i) <> UNMAPPED -> (i < length (pages p))%nat.
Proof.
  unfold page_at. intros H. destruct (pages p !! i) eqn:L.
  - eapply lookup_lt_Some; eauto.
  - exfalso. apply H. reflexivity.
Qed.

Lemma page_at_put_page p i d :
  (i < length (pages p))%nat -> page_at (put_page p i d) i = d.
Proof. intros H. unfold page_at. cbn [put_page set_pages pages]. apply lookup_default_insert, H. Qed.

Lemma page_at_out_of_range p i :
  ~ (i < length (pages p))%nat -> page_at p i = blank_page.
Proof. intros H. unfold page_at. rewrite lookup_ge_None_2 by lia. reflexivity. Qed.

Lemma length_put_page p i d : length (pages (put_page p i d)) = length (pages p).
Proof. cbn [put_page set_pages pages]. apply length_insert. Qed.

Lemma length_set_state p i s : length (pages (set_state p i s)) = length (pages p).
Proof. apply length_put_page. Qed.

Lemma length_set_seq p i n : length (pages (set_seq p i n)) = length (pages p).
Proof. apply length_put_page. Qed.

Lemma length_set_dirty p i b : length (pages (set_dirty p i b)) = length (pages p).
Proof. apply length_put_page. Qed.

Lemma length_set_slot p i n : length (pages (set_slot p i n)) = length (pages p).
Proof. apply length_put_page. Qed.

Lemma length_set_va p i v : length (pages (set_va p i v)) = length (pages p).
Proof. apply length_put_page. Qed.

Lemma length_set_next p n :
  length (pages (set_next_fifo_seq p n)) = length (pages p).
Proof. reflexivity. Qed.

Lemma length_set_num_swapped p n :
  length (pages (set_num_swapped_pages p n)) = length (pages p).
Proof. reflexivity. Qed.

Lemma page_at_set_state p i s : (i < length (pages p))%nat ->
  page_at (set_state p i s) i = with_state (page_at p i) s.
Proof. apply page_at_put_page. Qed.

Lemma page_at_set_seq p i n : (i < length (pages p))%nat ->
  page_at (set_seq p i n) i = with_seq (page_at p i) n.
Proof. apply page_at_put_page. Qed.

Lemma page_at_set_dirty p i b : (i < length (pages p))%nat ->
  page_at (set_dirty p i b) i = with_dirty (page_at p i) b.
Proof. apply page_at_put_page. Qed.

Lemma page_at_set_slot p i n : (i < length (pages p))%nat ->
  page_at (set_slot p i n) i = with_slot (page_at p i) n.
Proof. apply page_at_put_page. Qed.

Lemma page_at_set_va p i v : (i < length (pages p))%nat ->
  page_at (set_va p i v) i = with_va (page_at p i) v.
Proof. apply page_at_put_page. Qed.

Lemma page_at_set_next p n i : page_at (set_next_fifo_seq p n) i = page_at p i.
Proof. reflexivity. Qed.

Lemma page_at_set_num_swapped p n i :
  page_at (set_num_swapped_pages p n) i = page_at p i.
Proof. reflexivity. Qed.

Lemma next_set_state p i s : next_fifo_seq (set_state p i s) = next_fifo_seq p.
Proof. reflexivity. Qed.

Lemma next_set_seq p i n : next_fifo_seq (set_seq p i n) = next_fifo_seq p.
Proof. reflexivity. Qed.

Lemma next_set_dirty p i b : next_fifo_seq (set_dirty p i b) = next_fifo_seq p.
Proof. reflexivity. Qed.

Lemma next_set_slot p i n : next_fifo_seq (set_slot p i n) = next_fifo_seq p.
Proof. reflexivity. Qed.

Lemma next_set_va p i v : next_fifo_seq (set_va p i v) = next_fifo_seq p.
Proof. reflexivity. Qed.

Lemma next_set_next p n : next_fifo_seq (set_next_fifo_seq p n) = n.
Proof. reflexivity. Qed.

Lemma next_set_num_swapped p n :
  next_fifo_seq (set_num_swapped_pages p n) = next_fifo_seq p.
Proof. reflexivity. Qed.

(** What is left of a chain of assignments to descriptor [i]. *)
Ltac len_simpl :=
  repeat first
    [ rewrite length_set_state | rewrite length_set_seq | rewrite length_set_dirty
    | rewrite length_set_slot | rewrite length_set_va | rewrite length_set_next
    | rewrite length_set_num_swapped ].

Ltac page_simpl :=
  unfold enters_resident;
  repeat first
    [ rewrite page_at_set_next | rewrite page_at_set_num_swapped
    | rewrite page_at_set_state by (len_simpl; assumption)
    | rewrite page_at_set_seq by (len_simpl; assumption)
    | rewrite page_at_set_dirty by (len_simpl; assumption)
    | rewrite page_at_set_slot by (len_simpl; assumption)
    | rewrite page_at_set_va by (len_simpl; assumption) ];
  repeat first
    [ rewrite next_set_state | rewrite next_set_seq | rewrite next_set_dirty
    | rewrite next_set_slot | rewrite next_set_va | rewrite next_set_next
    | rewrite next_set_num_swapped ];
  cbn [pi_state seq with_dirty with_seq with_state with_slot with_va].


Lemma dp_get_existing p va i p1 :
  DemandPaging.get_page_info p va = (Some i, p1) ->
  pi_state (page_at p1 i) <> UNMAPPED -> p1 = p.
Proof.
  unfold DemandPaging.get_page_info. intros G Hs.
  destruct (DemandPaging.scan_va _ _ _ _); [injection G as _ <-; reflexivity|].
  destruct (_ <? _); [|discriminate]. injection G as <- <-.
  exfalso. apply Hs.
  destruct (decide (Z.to_nat (num_pages p) < length (pages p))%nat).
  - rewrite page_at_put_page by assumption. reflexivity.
  - rewrite page_at_out_of_range; [reflexivity|].
    rewrite length_put_page. assumption.
Qed.


Lemma lazy_create_frame p k r p' k' :
  Lazy.create_swap_file p k = (r, p', k') ->
  next_fifo_seq p' = next_fifo_seq p /\ pages p' = pages p
  /\ swap_slot_bitmap p' = swap_slot_bitmap p.
Proof.
  unfold Lazy.create_swap_file. intros H. branches H; inv_pair H; auto.
Qed.

Lemma lazy_evict_frame p k r p' k' :
  Lazy.lazy_evict_page p k = (r, p', k') ->
  next_fifo_seq p' = next_fifo_seq p /\ length (pages p') = length (pages p).
Proof.
  unfold Lazy.lazy_evict_page. intros H.
  branches H; inv_pair H; auto.
  all: repeat match goal with
       | G : Lazy.alloc_swap_slot _ = _ |- _ =>
           apply LazyFacts.lz_alloc_swap_slot_pages in G; destruct G as [? ?]
       | G : Lazy.create_swap_file _ _ = _ |- _ =>
           apply lazy_create_frame in G; destruct G as (? & ? & ?)
       end.
  all: len_simpl;
       repeat first [ rewrite next_set_state | rewrite next_set_slot
                    | rewrite next_set_num_swapped ].
  all: try (split; congruence).
  all: change (next_fifo_seq (setkilled ?q)) with (next_fifo_seq q);
       change (pages (setkilled ?q)) with (pages q).
  all: split; congruence.
Qed.

Lemma lazy_acquire_frame p k mem p' k' :
  Lazy.acquire_frame p k = (mem, p', k') ->
  next_fifo_seq p' = next_fifo_seq p /\ length (pages p') = length (pages p).
Proof.
  unfold Lazy.acquire_frame. intros H. branches H; inv_pair H; auto.
  all: match goal with
       | G : Lazy.lazy_evict_page _ _ = _ |- _ => apply lazy_evict_frame in G
       end; auto.
Qed.



Lemma lazy_index_lt va : (Lazy.get_page_info va < 128)%nat.
Proof.
  unfold Lazy.get_page_info, MAX_PROC_PAGES.
  pose proof (Z.mod_pos_bound (va / PGSIZE) 128 ltac:(lia)). lia.
Qed.


(** ** Reachable states *)




(** ** A short write to the swap file *)

Lemma dp_get_page_info_frame p va pi p1 :
  DemandPaging.get_page_info p va = (pi, p1) ->
  swap_slot_bitmap p1 = swap_slot_bitmap p /\ swapfile p1 = swapfile p.
Proof.
  unfold DemandPaging.get_page_info. intros H. branches H; inv_pair H; auto.
Qed.

Lemma dp_alloc_taken p slot p2 :
  length (swap_slot_bitmap p) = 32%nat ->
  DemandPaging.alloc_swap_slot p = (slot, p2) -> 0 <= slot ->
  0 <= slot < 1024
  /\ length (swap_slot_bitmap p2) = 32%nat
  /\ pages p2 = pages p /\ swapfile p2 = swapfile p
  /\ forall j, 0 <= j < MAX_SWAP_SLOTS ->
       DemandPaging.slot_taken (swap_slot_bitmap p2) j
       = if decide (j = slot) then true
         else DemandPaging.slot_taken (swap_slot_bitmap p) j.
Proof.
  intros Hlen H Hs. unfold DemandPaging.alloc_swap_slot in H.
  destruct (DemandPaging.alloc_scan _ 0 1024) as [s0 bm'] eqn:E.
  injection H as -> <-.
  apply (dp_alloc_scan_spec _ 1024 0 ltac:(lia) ltac:(lia) Hlen) in E.
  destruct E as [(-> & _) | (Hr & _ & _ & ->)]; [lia|].
  change (0 + Z.of_nat 1024) with 1024 in Hr.
  assert (Hw : (Z.to_nat (slot / 32) < length (swap_slot_bitmap p))%nat).
  { rewrite Hlen. apply Nat2Z.inj_lt. rewrite Z2Nat.id by (apply Z.div_pos; lia).
    apply Z.div_lt_upper_bound; lia. }
  split; [lia|]. cbn [swap_slot_bitmap set_bitmap pages swapfile].
  split; [rewrite length_insert; exact Hlen|]. split; [reflexivity|].
  split; [reflexivity|].
  intros j Hj. unfold MAX_SWAP_SLOTS in Hj. rewrite !dp_taken.
  apply taken_set; lia.
Qed.

Lemma lazy_alloc_taken p slot p2 :
  length (swap_slot_bitmap p) = 32%nat ->
  Lazy.alloc_swap_slot p = (slot, p2) -> 0 <= slot ->
  pages p2 = pages p
  /\ Lazy.slot_taken (swap_slot_bitmap p2) slot = true.
Proof.
  intros Hlen H Hs. unfold Lazy.alloc_swap_slot in H.
  destruct (MAX_SWAP_SLOTS <=? _); [injection H as <- <-; lia|].
  destruct (Lazy.scan_words _ 0 16) as [s0 bm'] eqn:E.
  injection H as -> <-.
  apply (lazy_scan_words_spec _ 16 0 ltac:(lia) ltac:(lia)) in E.
  destruct E as [(-> & _) | (Hr & _ & _ & ->)]; [lia|].
  change ((0 + Z.of_nat 16) * 64) with 1024 in Hr. change (0 * 64) with 0 in Hr.
  split; [reflexivity|]. cbn [swap_slot_bitmap set_bitmap].
  rewrite lazy_taken, taken_set; try lia.
  - case_decide; congruence.
  - rewrite Hlen. apply Nat2Z.inj_lt. rewrite Z2Nat.id by (apply Z.div_pos; lia).
    apply Z.div_lt_upper_bound; lia.
Qed.

Lemma lazy_evict_keeps_slot p k p' k' :
  length (swap_slot_bitmap p) = 32%nat ->
  Lazy.lazy_evict_page p k = (1, p', k') ->
  let vi := Z.to_nat (Lazy.victim_scan (pages p) 0 (Z.to_nat MAX_PROC_PAGES)
                        (-1) 4294967295) in
  pi_state (page_at p' vi) = SWAPPED ->
  Lazy.slot_taken (swap_slot_bitmap p') (swap_slot (page_at p' vi)) = true.
Proof.
  intros Hlen H vi Hst. unfold Lazy.lazy_evict_page in H. fold vi in H.
  branches H; try discriminate; inv_pair H.
  all: repeat match goal with
       | G : Lazy.create_swap_file _ _ = _ |- _ =>
           apply lazy_create_frame in G; destruct G as (_ & _ & ?)
       end.
  all: try match goal with
       | G : Lazy.alloc_swap_slot ?q = (?z, ?p0), L : (?z <? 0) = false |- _ =>
           apply Z.ltb_ge in L;
           destruct (lazy_alloc_taken q z p0 ltac:(congruence) G L) as [Hp Ht];
           change (swap_slot_bitmap
                     (set_num_swapped_pages (set_slot (set_state p0 vi SWAPPED) vi z) _))
             with (swap_slot_bitmap p0);
           rewrite page_at_set_num_swapped in *;
           destruct (decide (vi < length (pages p0))%nat) as [Hi|Hi];
           [ page_simpl; cbn [swap_slot with_slot]; exact Ht
           | exfalso; revert Hst; rewrite page_at_out_of_range;
             [discriminate | len_simpl; exact Hi] ]
       end.
  exfalso. revert Hst.
  destruct (decide (vi < length (pages p))%nat) as [Hi|Hi].
  - page_simpl. discriminate.
  - rewrite page_at_out_of_range; [discriminate | len_simpl; exact Hi].
Qed.

(** ** What an eviction of [lazy.c] does *)

Lemma walk_clear_pte k va : walk (clear_pte k va) va = None.
Proof. unfold walk, clear_pte. cbn [pagetable set_pagetable]. apply lookup_delete_eq. Qed.

Lemma walk_clear_pte_none k a va : walk k va = None -> walk (clear_pte k a) va = None.
Proof.
  unfold walk, clear_pte. cbn [pagetable set_pagetable]. intros H.
  rewrite lookup_delete. case_decide; [reflexivity | exact H].
Qed.

Lemma walk_kfree k pa va : walk (kfree k pa) va = walk k va.
Proof. reflexivity. Qed.

Lemma uvmunmap_loop_none n : forall k a va,
  walk k va = None -> walk (uvmunmap_loop k a n) va = None.
Proof.
  induction n as [|n IH]; intros k a va H; simpl; [exact H|].
  apply IH. destruct (walk k a); [|exact H].
  apply walk_clear_pte_none. exact H.
Qed.

Lemma uvmunmap_loop_free n : forall k a x,
  x ∈ freelist k -> x ∈ freelist (uvmunmap_loop k a n).
Proof.
  induction n as [|n IH]; intros k a x H; simpl; [exact H|].
  apply IH. destruct (walk k a); [|exact H].
  cbn [clear_pte kfree freelist set_pagetable set_freelist memset_page set_physmem].
  apply list_elem_of_further. exact H.
Qed.

Lemma uvmunmap_loop_S k a n :
  uvmunmap_loop k a (S n)
  = uvmunmap_loop
      (match walk k a with
       | Some e => clear_pte (kfree k (pte_pa e)) a
       | None => k
       end) (u64 (a + PGSIZE)) n.
Proof. reflexivity. Qed.

(** After [uvmunmap(pagetable, va, PGSIZE, 1)] the page of [va] is unmapped
    and the frame it had is on the free list. *)
Lemma uvmunmap_victim k va :
  walk (uvmunmap k va PGSIZE) va = None
  /\ forall e, walk k va = Some e -> pte_pa e ∈ freelist (uvmunmap k va PGSIZE).
Proof.
  unfold uvmunmap.
  assert (E : Z.to_nat PGSIZE = S (Z.to_nat (PGSIZE - 1))) by (vm_compute; reflexivity).
  rewrite E, uvmunmap_loop_S. split.
  - apply uvmunmap_loop_none. destruct (walk k va) eqn:W; [|exact W].
    apply walk_clear_pte.
  - intros e He. rewrite He. apply uvmunmap_loop_free.
    cbn [clear_pte kfree freelist set_pagetable set_freelist memset_page set_physmem].
    apply list_elem_of_here.
Qed.

Lemma walk_log k e va : walk (log k e) va = walk k va.
Proof. reflexivity. Qed.

Lemma freelist_log k e : freelist (log k e) = freelist k.
Proof. reflexivity. Qed.

Lemma walk_writei k ip pa off n va : walk (writei k ip pa off n).2 va = walk k va.
Proof.
  unfold writei. destruct (inodes k !! ip); [|reflexivity].
  destruct (_ || _); reflexivity.
Qed.

Lemma walk_create k pid ip k1 va : create k pid = (ip, k1) -> walk k1 va = walk k va.
Proof.
  unfold create. intros H. destruct (create_ok k); [|injection H as _ <-; reflexivity].
  destruct (inodes k !! _); injection H as _ <-; reflexivity.
Qed.

Lemma lazy_create_walk p k r p' k' va :
  Lazy.create_swap_file p k = (r, p', k') -> walk k' va = walk k va.
Proof.
  unfold Lazy.create_swap_file. intros H.
  destruct (negb _); [injection H as _ _ <-; reflexivity|].
  destruct (create k (pid p)) as [ip k1] eqn:C.
  apply (walk_create _ _ _ _ va) in C.
  destruct (ip =? 0); injection H as _ _ <-; exact C.
Qed.

(** An eviction by [lazy_evict_page]: the victim goes to swap when it is
    dirty or outside the text range, and is dropped otherwise; either way
    its page is unmapped and its frame is back on the free list. *)
Lemma lazy_evict_page_ok p k p' k' :
  length (swap_slot_bitmap p) = 32%nat ->
  Lazy.lazy_evict_page p k = (1, p', k') ->
  let vi := Z.to_nat (Lazy.victim_scan (pages p) 0 (Z.to_nat MAX_PROC_PAGES)
                        (-1) 4294967295) in
  let d := page_at p vi in
  (vi < length (pages p))%nat ->
  (if is_dirty d || negb (Lazy.in_range (text_start p) (text_end p) (pi_va d))
   then pi_state (page_at p' vi) = SWAPPED
        /\ 0 <= swap_slot (page_at p' vi)
        /\ Lazy.slot_taken (swap_slot_bitmap p') (swap_slot (page_at p' vi)) = true
   else pi_state (page_at p' vi) = UNMAPPED
        /\ swap_slot_bitmap p' = swap_slot_bitmap p)
  /\ walk k' (pi_va d) = None
  /\ (forall e, walk k (pi_va d) = Some e -> pte_pa e ∈ freelist k').
Proof.
  intros Hlen H vi d Hvi. unfold Lazy.lazy_evict_page in H. fold vi in H. fold d in H.
  change ((text_start p <=? pi_va d) && (pi_va d <? text_end p))
    with (Lazy.in_range (text_start p) (text_end p) (pi_va d)) in H.
  destruct (_ =? -1); [discriminate|].
  destruct (is_dirty d || negb (Lazy.in_range (text_start p) (text_end p) (pi_va d))).
  - assert (Swap : forall q kq,
              length (swap_slot_bitmap q) = 32%nat -> pages q = pages p ->
              (forall va, walk kq va = walk k va) ->
              (let '(slot, p0) := Lazy.alloc_swap_slot q in
               if slot <? 0 then (-1, setkilled p0, log kq EvKILL_swap_exhausted)
               else
                 (1, set_num_swapped_pages
                       (set_slot (set_state p0 vi SWAPPED) vi slot)
                       (num_swapped_pages (set_slot (set_state p0 vi SWAPPED) vi slot) + 1),
                  log (uvmunmap
                         (if negb (walkaddr kq (pi_va d) =? 0)
                          then log (writei kq (swapfile p0) (walkaddr kq (pi_va d))
                                      (u64 (slot * PGSIZE)) PGSIZE).2
                                 (EvSWAPOUT (pi_va d) slot)
                          else kq) (pi_va d) PGSIZE)
                    (EvEVICT (pi_va d) None))) = (1, p', k') ->
              (pi_state (page_at p' vi) = SWAPPED
               /\ 0 <= swap_slot (page_at p' vi)
               /\ Lazy.slot_taken (swap_slot_bitmap p') (swap_slot (page_at p' vi)) = true)
              /\ walk k' (pi_va d) = None
              /\ (forall e, walk k (pi_va d) = Some e -> pte_pa e ∈ freelist k')).
    { intros q kq Hq Hpq Hwq Hr.
      destruct (Lazy.alloc_swap_slot q) as [slot p0] eqn:A.
      destruct (Z.ltb_spec slot 0); [discriminate|].
      destruct (lazy_alloc_taken _ _ _ Hq A ltac:(lia)) as [Hp Ht].
      assert (Hi : (vi < length (pages p0))%nat) by (rewrite Hp, Hpq; exact Hvi).
      apply pair_equal_spec in Hr as [Hr <-]. apply pair_equal_spec in Hr as [_ <-].
      set (K := if negb (walkaddr kq (pi_va d) =? 0) then _ else kq).
      assert (HK : walk K (pi_va d) = walk k (pi_va d)).
      { subst K. destruct (walkaddr kq (pi_va d) =? 0); cbn [negb]; [apply Hwq|].
        rewrite walk_log, walk_writei. apply Hwq. }
      destruct (uvmunmap_victim K (pi_va d)) as [Hn Hf].
      split; [|split].
      - rewrite page_at_set_num_swapped. page_simpl. cbn [swap_slot with_slot].
        split; [reflexivity|]. split; [lia|]. exact Ht.
      - rewrite walk_log. exact Hn.
      - intros e He. rewrite freelist_log. apply Hf. rewrite HK. exact He. }
    destruct (swapfile p =? 0).
    + destruct (Lazy.create_swap_file p _) as [[r p1] k1] eqn:C.
      destruct (negb (r =? 0)); [discriminate|].
      pose proof (fun va => lazy_create_walk _ _ _ _ _ va C) as Hw.
      apply lazy_create_frame in C as (_ & Hpg & Hbm).
      apply (Swap p1 k1); [congruence | exact Hpg | exact Hw | exact H].
    + apply (Swap p (log k (EvVICTIM (pi_va d) (seq d))));
        [exact Hlen | reflexivity | reflexivity | exact H].
  - apply pair_equal_spec in H as [H <-]. apply pair_equal_spec in H as [_ <-].
    destruct (uvmunmap_victim
                (log (log k (EvVICTIM (pi_va d) (seq d))) (EvDISCARD (pi_va d)))
                (pi_va d)) as [Hn Hf].
    split; [|split].
    + page_simpl. split; reflexivity.
    + rewrite walk_log. exact Hn.
    + intros e He. rewrite freelist_log. apply Hf. rewrite walk_log. exact He.
Qed.

(** ** What a swap-in of [demand_paging.c] does *)

Lemma readi_full k ip pa off k1 :
  readi k ip pa off PGSIZE = (PGSIZE, k1) ->
  exists f, inodes k !! ip = Some f
    /\ take (Z.to_nat PGSIZE) (frame k1 pa)
       = take (Z.to_nat PGSIZE) (drop (Z.to_nat off) (i_data f)).
Proof.
  unfold readi. intros H. destruct (inodes k !! ip) as [f|]; [|discriminate].
  exists f. split; [reflexivity|].
  destruct (_ || _); [discriminate|].
  apply pair_equal_spec in H as [Hn <-].
  unfold frame at 1. cbn [physmem set_physmem].
  rewrite lookup_insert_eq. cbn [default].
  apply take_app_length'. apply Nat2Z.inj. rewrite Hn.
  rewrite Z2Nat.id; [reflexivity | discriminate].
Qed.

Lemma bitmap_put_page p i d : swap_slot_bitmap (put_page p i d) = swap_slot_bitmap p.
Proof. reflexivity. Qed.
Lemma bitmap_set_next p n :
  swap_slot_bitmap (set_next_fifo_seq p n) = swap_slot_bitmap p.
Proof. reflexivity. Qed.
Lemma bitmap_set_num_swapped p n :
  swap_slot_bitmap (set_num_swapped_pages p n) = swap_slot_bitmap p.
Proof. reflexivity. Qed.

Ltac bitmap_simpl :=
  unfold set_dirty, set_seq, set_state, set_slot, set_va;
  repeat first [ rewrite bitmap_put_page | rewrite bitmap_set_next
               | rewrite bitmap_set_num_swapped ].

Lemma dp_swap_in_page_ok p k va pa p' k' :
  length (swap_slot_bitmap p) = 32%nat ->
  DemandPaging.swap_in_page p k va pa = (0, p', k') ->
  exists i,
    DemandPaging.get_page_info p va = (Some i, p)
    /\ pi_state (page_at p i) = SWAPPED
    /\ page_at p' i
       = mk_page_info (pi_va (page_at p i)) RESIDENT false (next_fifo_seq p) (-1)
    /\ next_fifo_seq p' = next_fifo_seq p + 1
    /\ (swap_slot (page_at p i) < MAX_SWAP_SLOTS ->
        DemandPaging.slot_taken (swap_slot_bitmap p') (swap_slot (page_at p i)) = false)
    /\ take (Z.to_nat PGSIZE) (frame k' pa)
       = slot_contents k (swapfile p) (swap_slot (page_at p i)).
Proof.
  intros Hlen H. unfold DemandPaging.swap_in_page in H.
  destruct (swapfile p =? 0); [discriminate|].
  destruct (DemandPaging.get_page_info p va) as [pi p1] eqn:G.
  destruct pi as [i|]; [|discriminate].
  destruct (state_eqb (pi_state (page_at p1 i)) SWAPPED) eqn:Es; [|discriminate].
  apply state_eqb_eq in Es.
  assert (p1 = p) as -> by (eapply dp_get_existing; [eassumption | congruence]).
  assert (Hi : (i < length (pages p))%nat).
  { apply page_at_in_range. congruence. }
  exists i. split; [reflexivity|]. split; [exact Es|].
  cbn [negb] in H. set (slot := swap_slot (page_at p i)) in *.
  destruct (Z.ltb_spec slot 0) as [|Hs]; [discriminate|].
  destruct (readi _ _ _ _ _) as [n k1] eqn:R.
  destruct (Z.eqb_spec n PGSIZE) as [->|]; [|discriminate]. cbn [negb] in H.
  destruct (DPFacts.free_swap_slot_pages p slot) as [Fp Fn].
  set (q := DemandPaging.free_swap_slot p slot) in *.
  assert (Hq : (i < length (pages q))%nat) by (rewrite Fp; assumption).
  assert (Hqi : page_at q i = page_at p i) by (unfold page_at; rewrite Fp; reflexivity).
  apply readi_full in R as (f & Hf & Hc).
  cbv zeta in H.
  match type of H with
  | context [if ?b then _ else _] => destruct b
  end; apply pair_equal_spec in H as [H <-]; apply pair_equal_spec in H as [_ <-].
  all: split; [page_simpl; rewrite ?page_at_set_num_swapped; page_simpl;
                rewrite Hqi, Fn; destruct (page_at p i); reflexivity|].
  all: split; [page_simpl; rewrite ?next_set_num_swapped; page_simpl;
                rewrite Fn; reflexivity|].
  all: split; [|unfold slot_contents; rewrite Hf; exact Hc].
  all: intros Hlt; bitmap_simpl.
  all: destruct (dp_free_ok p Hlen slot) as [Hfree _]; unfold q;
       rewrite (Hfree ltac:(lia) slot ltac:(lia)); case_decide; congruence.
Qed.

(** * The claims *)

(** C1 fails on [demand_paging.c].  Heap page A (outside the text range)
    holds 'Q', has been to swap and back, and is clean when it becomes the
    victim: [evict_page] discards it (UNMAPPED, no slot, DISCARD in the log)
    where the claim swaps it out, and the next fault on A finds a zero page. *)
Theorem evict_discards_clean_heap_page :
  text_end Scenario1.s4.1 <= Scenario1.A
  /\ page_at Scenario1.s4.1 0 = mk_page_info Scenario1.A RESIDENT false 2 (-1)
  /\ peek Scenario1.s4.2 FRAME 0 = 81
  /\ DemandPaging.find_fifo_victim Scenario1.s4.1 = Scenario1.A
  /\ (DemandPaging.evict_page Scenario1.s4.1 Scenario1.s4.2 Scenario1.A).1.1 = 0
  /\ page_at (DemandPaging.evict_page Scenario1.s4.1 Scenario1.s4.2 Scenario1.A).1.2 0
     = mk_page_info Scenario1.A UNMAPPED false 2 (-1)
  /\ DemandPaging.slot_taken
       (swap_slot_bitmap
          (DemandPaging.evict_page Scenario1.s4.1 Scenario1.s4.2 Scenario1.A).1.2) 0
     = false
  /\ page_at Scenario1.s5.1 0 = mk_page_info Scenario1.A UNMAPPED false 2 (-1)
  /\ drop 17 (console Scenario1.s5.2)
     = [EvPAGEFAULT Scenario1.B AccRead CHeap; EvMEMFULL; EvVICTIM Scenario1.A 2;
        EvEVICT Scenario1.A (Some false); EvDISCARD Scenario1.A;
        EvALLOC Scenario1.B; EvRESIDENT Scenario1.B 3]
  /\ pi_state (page_at Scenario1.s6.1 0) = RESIDENT
  /\ walkaddr Scenario1.s6.2 Scenario1.A = FRAME
  /\ peek Scenario1.s6.2 FRAME 0 = 0.
Proof. vm_compute. repeat split. discriminate. Qed.




(** C3 fails on [lazy.c].  Stack page S is written (dirty), evicted to slot
    0 and faulted back in: the contents come back, the slot is freed, the
    descriptor is RESIDENT with a fresh sequence number and [swap_slot] -1,
    but [is_dirty] is still true. *)
Theorem lazy_swap_in_keeps_dirty :
  page_at Scenario2.s2.1 2 = mk_page_info Scenario2.S SWAPPED true 0 0
  /\ Lazy.slot_taken (swap_slot_bitmap Scenario2.s2.1) 0 = true
  /\ (Lazy.lazy_handle_fault Scenario2.s2.1 Scenario2.s2.2 Scenario2.S false).1.1 = 0
  /\ peek Scenario2.s3.2 (walkaddr Scenario2.s3.2 Scenario2.S) 0 = 81
  /\ Lazy.slot_taken (swap_slot_bitmap Scenario2.s3.1) 0 = false
  /\ page_at Scenario2.s3.1 2 = mk_page_info Scenario2.S RESIDENT true 1 (-1).
Proof. vm_compute. repeat split. Qed.

(** C4 fails on both files.  In [demand_paging.c] the text page at address
    0 is the only resident page when memory runs out: [find_fifo_victim]
    returns its address, 0, which [handle_page_fault] reads as "no victim";
    it returns -1 and evicts nothing.  In [lazy.c] the victim is the text
    page at 0, but [uvmunmap] is called with PGSIZE as its page count: the
    stack page at 0x2000 loses its mapping and its frame as well, while its
    descriptor stays RESIDENT. *)
Theorem eviction_on_memory_pressure :
  page_at Scenario3.s1.1 0 = mk_page_info 0 RESIDENT false 0 (-1)
  /\ freelist Scenario3.s1.2 = []
  /\ DemandPaging.find_fifo_victim Scenario3.s1.1 = 0
  /\ Scenario3.out.1.1 = -1
  /\ page_at Scenario3.out.1.2 0 = mk_page_info 0 RESIDENT false 0 (-1)
  /\ walkaddr Scenario3.out.2 0 = FRAME
  /\ freelist Scenario3.out.2 = []
  /\ drop 3 (console Scenario3.out.2) = [EvPAGEFAULT 4096 AccRead CExec; EvMEMFULL]
  /\ walkaddr Scenario6.s2.2 0 = FRAME
  /\ walkaddr Scenario6.s2.2 8192 = Scenario6.FRAME2
  /\ Scenario6.out.1.1 = 1
  /\ drop 8 (console Scenario6.out.2) = [EvVICTIM 0 0; EvDISCARD 0; EvEVICT 0 None]
  /\ walkaddr Scenario6.out.2 0 = 0
  /\ walkaddr Scenario6.out.2 8192 = 0
  /\ page_at Scenario6.out.1.2 2 = mk_page_info 8192 RESIDENT true 1 (-1)
  /\ freelist Scenario6.out.2 = [Scenario6.FRAME2; FRAME].
Proof. vm_compute. repeat split. Qed.

(** C5 fails on both files.  For a text page with [exec_len] = 16 at file
    offset 4096, [handle_page_fault] reads a whole page: byte 16 of the frame
    is the file's next byte, not zero.  For the same page at file offset 0,
    [lazy_handle_fault] reads nothing: byte 0 of the frame is zero, not the
    file's first byte. *)
Theorem exec_load_ignores_length :
  word_at (exec_off Scenario4.dp0) 0 = 4096
  /\ word_at (exec_len Scenario4.dp0) 0 = 16
  /\ Scenario4.dp_out.1.1 = 0
  /\ peek Scenario4.dp_out.2 (walkaddr Scenario4.dp_out.2 0) 15 = 17
  /\ peek Scenario4.dp_out.2 (walkaddr Scenario4.dp_out.2 0) 16 = 170
  /\ word_at (exec_off Scenario4.lazy0) 0 = 0
  /\ word_at (exec_len Scenario4.lazy0) 0 = 16
  /\ Scenario4.lazy_out.1.1 = 0
  /\ default 0 (Scenario4.image !! 0%nat) = 127
  /\ peek Scenario4.lazy_out.2 (walkaddr Scenario4.lazy_out.2 0) 0 = 0.
Proof. vm_compute. repeat split. Qed.



(** C7. Over a bitmap with a cleared bit, [alloc_swap_slot] returns the
    smallest slot in [0, MAX_SWAP_SLOTS) whose bit is cleared and sets that
    bit (and no other); over a full bitmap it returns -1 and changes
    nothing; [free_swap_slot] clears the bit of a slot in range and does
    nothing for a slot out of range.  Both files; [lazy.c] reads its counter
    [num_swapped_pages] first, which holds the number of taken slots. *)
Theorem swap_slot_allocator_contract (p : proc) :
  length (swap_slot_bitmap p) = 32%nat ->
  alloc_spec DemandPaging.slot_taken DemandPaging.alloc_swap_slot p
  /\ free_spec DemandPaging.slot_taken DemandPaging.free_swap_slot p
  /\ (num_swapped_pages p = lazy_count (swap_slot_bitmap p) 0 1024 ->
      alloc_spec Lazy.slot_taken Lazy.alloc_swap_slot p)
  /\ free_spec Lazy.slot_taken Lazy.free_swap_slot p.
Proof.
  intros Hlen. split; [|split; [|split]].
  - apply dp_alloc_ok, Hlen.
  - apply dp_free_ok, Hlen.
  - intros Hcnt. apply lazy_alloc_ok; assumption.
  - apply lazy_free_ok, Hlen.
Qed.

Lemma swap_slot_allocator_contract_witness :
  length (swap_slot_bitmap dp_boot) = 32%nat
  /\ alloc_spec DemandPaging.slot_taken DemandPaging.alloc_swap_slot dp_boot
  /\ num_swapped_pages lazy_boot = lazy_count (swap_slot_bitmap lazy_boot) 0 1024
  /\ alloc_spec Lazy.slot_taken Lazy.alloc_swap_slot lazy_boot.
Proof.
  split; [reflexivity|]. split.
  - apply (swap_slot_allocator_contract dp_boot). reflexivity.
  - split; [vm_compute; reflexivity|].
    apply (swap_slot_allocator_contract lazy_boot); [reflexivity|].
    vm_compute. reflexivity.
Defined.

(** C8, as the code has it.  When the write of a swap-out is short,
    [swap_out_page] returns -1 after releasing the slot it had taken (the
    bitmap reads as before the call) and leaves the descriptors alone; its
    callers [evict_page], the allocation block and [handle_page_fault] hand
    the failure on.  In [lazy_evict_page] the slot of a page that went to
    swap stays taken. *)
Theorem swap_out_short_write :
  (forall (p : proc) (k : kernel) (va pa : Z) (i : nat) (p1 : proc) (slot : Z)
          (p2 : proc) (n : Z) (k2 : kernel),
     length (swap_slot_bitmap p) = 32%nat ->
     swapfile p <> 0 ->
     DemandPaging.get_page_info p va = (Some i, p1) ->
     DemandPaging.alloc_swap_slot p1 = (slot, p2) -> 0 <= slot ->
     writei k (swapfile p2) pa (slot * PGSIZE) PGSIZE = (n, k2) ->
     n <> PGSIZE ->
     DemandPaging.swap_out_page p k va pa
     = (-1, DemandPaging.free_swap_slot p2 slot, k2)
     /\ pages (DemandPaging.free_swap_slot p2 slot) = pages p1
     /\ forall j, 0 <= j < MAX_SWAP_SLOTS ->
          DemandPaging.slot_taken
            (swap_slot_bitmap (DemandPaging.free_swap_slot p2 slot)) j
          = DemandPaging.slot_taken (swap_slot_bitmap p) j)
  /\ (forall (p : proc) (k : kernel) (va : Z) (i : nat) (p1 : proc) (e : pte)
             (r : Z) (p2 : proc) (k2 : kernel),
        DemandPaging.get_page_info p va = (Some i, p1) ->
        pi_state (page_at p1 i) = RESIDENT ->
        walk k va = Some e ->
        is_dirty (page_at p1 i) = true ->
        DemandPaging.swap_out_page p1
          (log (log k (EvVICTIM va (seq (page_at p1 i)))) (EvEVICT va (Some true)))
          va (pte_pa e) = (r, p2, k2) ->
        r < 0 ->
        DemandPaging.evict_page p k va = (-1, p2, k2))
  /\ (forall (p : proc) (k k1 : kernel) (r : Z) (p' : proc) (k' : kernel),
        kalloc k = (0, k1) ->
        DemandPaging.find_fifo_victim p <> 0 ->
        DemandPaging.evict_page p (log k1 EvMEMFULL) (DemandPaging.find_fifo_victim p)
        = (r, p', k') ->
        r < 0 ->
        DemandPaging.acquire_frame p k = (None, p', k'))
  /\ (forall (p : proc) (k : kernel) (va : Z) (w : bool) (pi : option nat)
             (p1 : proc) (c : cause) (p2 : proc) (k2 : kernel) (a : access),
        DemandPaging.get_page_info p (PGROUNDDOWN va) = (pi, p1) ->
        DemandPaging.classify p1 pi (PGROUNDDOWN va) = (c, true) ->
        DemandPaging.acquire_frame p1 (log k (EvPAGEFAULT (PGROUNDDOWN va) a c))
        = (None, p2, k2) ->
        a = (if w then AccWrite
             else if DemandPaging.in_range (text_start p) (text_end p) (PGROUNDDOWN va)
                  then AccExec else AccRead) ->
        DemandPaging.handle_page_fault p k va w = (-1, p2, k2))
  /\ (forall (p : proc) (k : kernel) (p' : proc) (k' : kernel),
        length (swap_slot_bitmap p) = 32%nat ->
        Lazy.lazy_evict_page p k = (1, p', k') ->
        let vi := Z.to_nat (Lazy.victim_scan (pages p) 0 (Z.to_nat MAX_PROC_PAGES)
                              (-1) 4294967295) in
        pi_state (page_at p' vi) = SWAPPED ->
        Lazy.slot_taken (swap_slot_bitmap p') (swap_slot (page_at p' vi)) = true).
Proof.
  split; [|split; [|split; [|split]]].
  - intros p k va pa i p1 slot p2 n k2 Hlen Hsf G A Hs Wr Hn.
    destruct (dp_get_page_info_frame _ _ _ _ G) as [Gb Gs].
    destruct (dp_alloc_taken p1 slot p2 ltac:(congruence) A Hs)
      as (Hr & Hl2 & Hp & Hsw & Ht).
    split; [|split].
    + unfold DemandPaging.swap_out_page.
      destruct (Z.eqb_spec (swapfile p) 0); [contradiction|].
      rewrite G, A. destruct (Z.ltb_spec slot 0); [lia|].
      rewrite Wr. destruct (Z.eqb_spec n PGSIZE); [contradiction|]. reflexivity.
    + destruct (DPFacts.free_swap_slot_pages p2 slot) as [Fp _]. congruence.
    + intros j Hj.
      destruct (dp_free_ok p2 Hl2 slot) as [Hfree _].
      rewrite (Hfree ltac:(unfold MAX_SWAP_SLOTS; lia) j Hj), (Ht j Hj), Gb.
      case_decide as Ej; [|reflexivity].
      subst j. symmetry.
      unfold DemandPaging.alloc_swap_slot in A.
      destruct (DemandPaging.alloc_scan _ 0 1024) as [s0 bm'] eqn:E.
      injection A as -> _.
      apply (dp_alloc_scan_spec _ 1024 0 ltac:(lia) ltac:(lia)) in E; [|congruence].
      destruct E as [(-> & _) | (_ & Hf & _)]; [lia|].
      rewrite dp_taken, <- Gb. exact Hf.
  - intros p k va i p1 e r p2 k2 G Hres Hw Hd So Hr.
    unfold DemandPaging.evict_page. rewrite G.
    apply state_eqb_eq in Hres. rewrite Hres. cbn [negb]. rewrite Hw, Hd, So.
    destruct (Z.ltb_spec r 0); [reflexivity | lia].
  - intros p k k1 r p' k' Ka Hv Ev Hr.
    unfold DemandPaging.acquire_frame. rewrite Ka. cbn [Z.eqb].
    destruct (Z.eqb_spec (DemandPaging.find_fifo_victim p) 0); [contradiction|].
    rewrite Ev. destruct (Z.ltb_spec r 0); [reflexivity | lia].
  - intros p k va w pi p1 c p2 k2 a G C A ->.
    unfold DemandPaging.handle_page_fault. rewrite G, C. cbn [negb].
    rewrite A. reflexivity.
  - apply lazy_evict_keeps_slot.
Qed.

Lemma swap_out_short_write_witness :
  length (swap_slot_bitmap Scenario5.s2.1) = 32%nat
  /\ swapfile Scenario5.s2.1 <> 0
  /\ DemandPaging.swap_out_page Scenario5.s2.1 Scenario5.s2.2 16384 FRAME
     = (-1,
        DemandPaging.free_swap_slot (DemandPaging.alloc_swap_slot Scenario5.s2.1).2 0,
        (writei Scenario5.s2.2 (swapfile Scenario5.s2.1) FRAME 0 PGSIZE).2).
Proof.
  destruct swap_out_short_write as (Hshort & _).
  split; [reflexivity|]. split; [vm_compute; discriminate|].
  apply (Hshort Scenario5.s2.1 Scenario5.s2.2 16384 FRAME 0%nat Scenario5.s2.1 0
           (DemandPaging.alloc_swap_slot Scenario5.s2.1).2 100
           (writei Scenario5.s2.2 (swapfile Scenario5.s2.1) FRAME 0 PGSIZE).2).
  - reflexivity.
  - vm_compute. discriminate.
  - vm_compute. reflexivity.
  - vm_compute. reflexivity.
  - lia.
  - vm_compute. reflexivity.
  - vm_compute. discriminate.
Defined.

(** C8 fails on both files.  With room for 100 bytes on the device,
    [swap_out_page] takes slot 0, writes 100 bytes, and returns -1 with slot 0
    free again; [lazy_evict_page] keeps the slot but reports the eviction as
    done, without killing the process. *)
Lemma swap_out_short_write_counterexample :
  (DemandPaging.alloc_swap_slot Scenario5.s2.1).1 = 0
  /\ (writei Scenario5.s2.2 (swapfile Scenario5.s2.1) FRAME 0 PGSIZE).1 = 100
  /\ Scenario5.out.1.1 = -1
  /\ DemandPaging.slot_taken (swap_slot_bitmap Scenario5.out.1.2) 0 = false
  /\ Scenario5.lazy_out.1.1 = 1
  /\ killed Scenario5.lazy_out.1.2 = false
  /\ pi_state (page_at Scenario5.lazy_out.1.2 2) = SWAPPED.
Proof. vm_compute. repeat split. Qed.

(** C9. [delete_swap_file] is a total function that changes nothing when no
    swap file is open, and it leaves none open: a second call changes
    nothing, so two calls equal one. *)
Theorem delete_swap_file_idempotent (p : proc) (k : kernel) :
  (swapfile p = 0 ->
     DemandPaging.delete_swap_file p k = (p, k)
     /\ Lazy.delete_swap_file p k = (p, k))
  /\ (forall p1 k1, DemandPaging.delete_swap_file p k = (p1, k1) ->
        DemandPaging.delete_swap_file p1 k1 = (p1, k1))
  /\ (forall p1 k1, Lazy.delete_swap_file p k = (p1, k1) ->
        Lazy.delete_swap_file p1 k1 = (p1, k1))
  /\ DemandPaging.delete_swap_file (DemandPaging.demand_paging_init p) k
     = (DemandPaging.demand_paging_init p, k)
  /\ Lazy.delete_swap_file (Lazy.lazy_init p) k = (Lazy.lazy_init p, k).
Proof.
  split; [|split; [|split; [|split]]]; try reflexivity.
  - intros H. unfold DemandPaging.delete_swap_file, Lazy.delete_swap_file.
    rewrite H. split; reflexivity.
  - intros p1 k1 H. unfold DemandPaging.delete_swap_file in H.
    destruct (swapfile p =? 0) eqn:E; apply pair_equal_spec in H as [<- <-].
    + unfold DemandPaging.delete_swap_file. rewrite E. reflexivity.
    + unfold DemandPaging.delete_swap_file. cbn [swapfile set_swapfile Z.eqb].
      reflexivity.
  - intros p1 k1 H. unfold Lazy.delete_swap_file in H.
    destruct (swapfile p =? 0) eqn:E.
    + injection H as <- <-. unfold Lazy.delete_swap_file. rewrite E. reflexivity.
    + destruct (_ || _); injection H as <- <-; reflexivity.
Qed.

Lemma delete_swap_file_idempotent_witness :
  DemandPaging.delete_swap_file dp_boot (boot_kernel [] 0 [])
  = (dp_boot, boot_kernel [] 0 [])
  /\ DemandPaging.delete_swap_file
       (DemandPaging.delete_swap_file Scenario1.s0.1 Scenario1.s0.2).1
       (DemandPaging.delete_swap_file Scenario1.s0.1 Scenario1.s0.2).2
     = DemandPaging.delete_swap_file Scenario1.s0.1 Scenario1.s0.2.
Proof.
  split.
  - apply (delete_swap_file_idempotent dp_boot (boot_kernel [] 0 [])). reflexivity.
  - destruct (DemandPaging.delete_swap_file Scenario1.s0.1 Scenario1.s0.2)
      as [p1 k1] eqn:E.
    apply (delete_swap_file_idempotent Scenario1.s0.1 Scenario1.s0.2). exact E.
Defined.

(** C10. A lazy [sys_sbrk] (mode other than SBRK_EAGER, [n >= 0]) returns -1
    and changes nothing when [sz + n] wraps around; otherwise it returns the
    old [sz] and adds exactly [n] to [sz], leaving frames and mappings (the
    whole kernel state) as they were. *)
Theorem sys_sbrk_lazy (growproc : Z -> proc -> kernel -> Z * proc * kernel)
    (p : proc) (k : kernel) (n t : Z) :
  t <> SBRK_EAGER -> 0 <= n < 2 ^ 31 -> 0 <= sz p < 2 ^ 64 ->
  (u64 (sz p + n) < sz p <-> 2 ^ 64 <= sz p + n)
  /\ (u64 (sz p + n) < sz p ->
        sys_sbrk growproc p k n t = (u64 (-1), p, k))
  /\ (~ u64 (sz p + n) < sz p ->
        sys_sbrk growproc p k n t = (sz p, set_sz p (sz p + n), k)).
Proof.
  intros Ht Hn Hsz.
  assert (Hun : u64 n = n) by (unfold u64; apply Z.mod_small; lia).
  assert (Hwrap : u64 (sz p + n) < sz p <-> 2 ^ 64 <= sz p + n).
  { unfold u64. destruct (Z.lt_ge_cases (sz p + n) (2 ^ 64)) as [Hlt|Hge].
    - rewrite Z.mod_small by lia. lia.
    - replace (sz p + n) with (sz p + n - 2 ^ 64 + 1 * 2 ^ 64) by lia.
      rewrite Z.mod_add by lia. rewrite Z.mod_small by lia. lia. }
  unfold sys_sbrk.
  destruct (Z.eqb_spec t SBRK_EAGER); [contradiction|].
  destruct (Z.ltb_spec n 0); [lia|]. simpl. rewrite Hun.
  split; [exact Hwrap|]. split.
  - intros Hw. destruct (Z.ltb_spec (u64 (sz p + n)) (sz p)); [reflexivity | lia].
  - intros Hw. destruct (Z.ltb_spec (u64 (sz p + n)) (sz p)); [contradiction|].
    unfold u64. rewrite Z.mod_small; [reflexivity|]. lia.
Qed.

Lemma sys_sbrk_lazy_witness :
  sys_sbrk (fun _ p k => (0, p, k)) dp_boot (boot_kernel [] 0 []) 4096 2
  = (24576, set_sz dp_boot 28672, boot_kernel [] 0 []).
Proof.
  apply (sys_sbrk_lazy (fun _ p k => (0, p, k)) dp_boot (boot_kernel [] 0 []) 4096 2).
  - discriminate.
  - lia.
  - vm_compute. split; [discriminate | reflexivity].
  - vm_compute. discriminate.
Defined.

(** * Further properties of the code *)

(** ** Rounding to pages *)

Lemma land_page_mask a : Z.land a (Z.lnot (PGSIZE - 1)) = PGSIZE * (a / PGSIZE).
Proof.
  change (PGSIZE - 1) with (Z.ones 12).
  rewrite <- Z.ldiff_land, Z.ldiff_ones_r by lia.
  rewrite Z.shiftl_mul_pow2, Z.shiftr_div_pow2 by lia.
  change (2 ^ 12) with PGSIZE. lia.
Qed.

Lemma PGROUNDDOWN_eq a : 0 <= a < 2 ^ 64 -> PGROUNDDOWN a = a - a mod PGSIZE.
Proof.
  intros Ha. unfold PGROUNDDOWN, u64. rewrite land_page_mask.
  pose proof (Z.div_mod a PGSIZE ltac:(unfold PGSIZE; lia)) as E.
  pose proof (Z.mod_pos_bound a PGSIZE ltac:(unfold PGSIZE; lia)) as B.
  unfold PGSIZE in *. rewrite Z.mod_small; lia.
Qed.

Lemma PGROUNDDOWN_range a : 0 <= PGROUNDDOWN a < 2 ^ 64.
Proof. unfold PGROUNDDOWN, u64. apply Z.mod_pos_bound. lia. Qed.

Lemma PGROUNDDOWN_aligned a : PGROUNDDOWN a mod PGSIZE = 0.
Proof.
  unfold PGROUNDDOWN, u64. rewrite land_page_mask.
  change (2 ^ 64) with (PGSIZE * 2 ^ 52).
  rewrite Z.mul_mod_distr_l by (unfold PGSIZE; lia).
  rewrite Z.mul_comm. apply Z.mod_mul. unfold PGSIZE; lia.
Qed.

Lemma PGROUNDDOWN_idem a : PGROUNDDOWN (PGROUNDDOWN a) = PGROUNDDOWN a.
Proof.
  rewrite (PGROUNDDOWN_eq (PGROUNDDOWN a)) by apply PGROUNDDOWN_range.
  rewrite PGROUNDDOWN_aligned. lia.
Qed.

(** ** [get_page_info] of [demand_paging.c] *)

Lemma scan_va_Some l va : forall i n j,
  DemandPaging.scan_va l va i n = Some j ->
  (i <= j < i + n)%nat
  /\ (exists d, l !! (j - i)%nat = Some d /\ pi_va d = va)
  /\ forall j' d', (j' < j - i)%nat -> l !! j' = Some d' -> pi_va d' <> va.
Proof.
  induction l as [|d l IH]; intros i n j H; destruct n as [|n]; try discriminate.
  cbn [DemandPaging.scan_va] in H.
  destruct (Z.eqb_spec (pi_va d) va) as [E|E].
  - injection H as <-. split; [lia|]. replace (i - i)%nat with 0%nat by lia.
    split; [exists d; auto|]. intros; lia.
  - apply IH in H as (Hr & (d0 & Hd & Hv) & Hn).
    split; [lia|]. replace (j - i)%nat with (S (j - S i)) by lia.
    split; [exists d0; auto|].
    intros [|j'] d' Hj Hl; cbn in Hl.
    + injection Hl as <-. exact E.
    + apply (Hn j'); [lia | exact Hl].
Qed.

Lemma scan_va_None l va : forall i n,
  DemandPaging.scan_va l va i n = None ->
  forall j d, (j < n)%nat -> l !! j = Some d -> pi_va d <> va.
Proof.
  induction l as [|d l IH]; intros i n H j d' Hj Hl; [discriminate|].
  destruct n as [|n]; [lia|]. cbn [DemandPaging.scan_va] in H.
  destruct (Z.eqb_spec (pi_va d) va) as [E|E]; [discriminate|].
  destruct j as [|j]; cbn in Hl.
  - injection Hl as <-. exact E.
  - apply (IH _ _ H j); [lia | exact Hl].
Qed.

Lemma scan_va_first l va : forall i n j d,
  (j < n)%nat -> l !! j = Some d -> pi_va d = va ->
  (forall j' d', (j' < j)%nat -> l !! j' = Some d' -> pi_va d' <> va) ->
  DemandPaging.scan_va l va i n = Some (i + j)%nat.
Proof.
  induction l as [|d0 l IH]; intros i n j d Hj Hl Hv Hn; [discriminate|].
  destruct n as [|n]; [lia|]. cbn [DemandPaging.scan_va].
  destruct j as [|j]; cbn in Hl.
  - injection Hl as ->. rewrite Hv, Z.eqb_refl. f_equal; lia.
  - destruct (Z.eqb_spec (pi_va d0) va) as [E|E].
    + exfalso. apply (Hn 0%nat d0); [lia | reflexivity | exact E].
    + rewrite (IH (S i) n j d); [f_equal; lia | lia | exact Hl | exact Hv |].
      intros j' d' Hj' Hl'. apply (Hn (S j') d'); [lia | exact Hl'].
Qed.

Lemma num_pages_put_page p i d : num_pages (put_page p i d) = num_pages p.
Proof. reflexivity. Qed.

Lemma pages_put_page p i d : pages (put_page p i d) = <[i := d]> (pages p).
Proof. reflexivity. Qed.

Lemma page_at_put_page_ne p i d j : j <> i -> page_at (put_page p i d) j = page_at p j.
Proof.
  intros Hne. unfold page_at. rewrite pages_put_page, list_lookup_insert_ne by congruence.
  reflexivity.
Qed.

(** What the two outcomes of a successful [get_page_info] are. *)
Lemma dp_get_cases p va i p' :
  dp_wf p ->
  DemandPaging.get_page_info p va = (Some i, p') ->
  (p' = p /\ (i < Z.to_nat (num_pages p))%nat
   /\ DemandPaging.scan_va (pages p) (PGROUNDDOWN va) 0 (Z.to_nat (num_pages p)) = Some i)
  \/ (p' = put_page (set_num_pages p (num_pages p + 1)) i
            (mk_page_info (PGROUNDDOWN va) UNMAPPED false (-1) (-1))
      /\ i = Z.to_nat (num_pages p) /\ num_pages p < MAX_PROC_PAGES
      /\ DemandPaging.scan_va (pages p) (PGROUNDDOWN va) 0 (Z.to_nat (num_pages p)) = None).
Proof.
  intros [Hn Hl] H. unfold DemandPaging.get_page_info in H.
  destruct (DemandPaging.scan_va _ _ _ _) as [j|] eqn:E.
  - injection H as <- <-. left. split; [reflexivity|]. split; [|reflexivity].
    apply scan_va_Some in E. lia.
  - destruct (Z.ltb_spec (num_pages p) MAX_PROC_PAGES); [|discriminate].
    injection H as <- <-. right. auto.
Qed.

Lemma dp_get_page_info_lookup p va i p' :
  dp_wf p ->
  DemandPaging.get_page_info p va = (Some i, p') ->
  (i < Z.to_nat MAX_PROC_PAGES)%nat
  /\ pi_va (page_at p' i) = PGROUNDDOWN va
  /\ (forall j, j <> i -> page_at p' j = page_at p j)
  /\ dp_wf p'
  /\ DemandPaging.get_page_info p' va = (Some i, p')
  /\ (p' = p
      \/ (i = Z.to_nat (num_pages p)
          /\ num_pages p' = num_pages p + 1
          /\ page_at p' i = mk_page_info (PGROUNDDOWN va) UNMAPPED false (-1) (-1))).
Proof.
  intros Hwf H. pose proof Hwf as [Hn Hl].
  destruct (dp_get_cases _ _ _ _ Hwf H) as [(-> & Hi & E)|(-> & -> & Hlt & E)].
  - pose proof (scan_va_Some _ _ _ _ _ E) as (_ & (d & Hd & Hv) & _).
    rewrite Nat.sub_0_r in Hd.
    split; [unfold MAX_PROC_PAGES in *; lia|].
    split; [unfold page_at; rewrite Hd; exact Hv|].
    split; [reflexivity|]. split; [exact Hwf|]. split; [exact H | left; reflexivity].
  - assert (Hi : (Z.to_nat (num_pages p) < length (pages p))%nat)
      by (rewrite Hl; unfold MAX_PROC_PAGES in *; lia).
    split; [rewrite <- Hl; exact Hi|].
    split; [rewrite page_at_put_page by exact Hi; reflexivity|].
    split; [intros j Hj; rewrite page_at_put_page_ne by exact Hj; reflexivity|].
    split.
    { split; [rewrite num_pages_put_page; cbn [num_pages set_num_pages]; lia|].
      rewrite pages_put_page, length_insert. exact Hl. }
    split.
    + unfold DemandPaging.get_page_info.
      rewrite num_pages_put_page, pages_put_page.
      change (num_pages (set_num_pages p (num_pages p + 1))) with (num_pages p + 1).
      change (pages (set_num_pages p (num_pages p + 1))) with (pages p).
      rewrite (scan_va_first _ _ 0 _ (Z.to_nat (num_pages p))
                 (mk_page_info (PGROUNDDOWN va) UNMAPPED false (-1) (-1))).
      * reflexivity.
      * lia.
      * apply list_lookup_insert_eq; exact Hi.
      * reflexivity.
      * intros j' d' Hj' Hl'. rewrite list_lookup_insert_ne in Hl' by lia.
        apply (scan_va_None _ _ _ _ E j' d'); [exact Hj' | exact Hl'].
    + right. split; [reflexivity|].
      split; [reflexivity|]. apply page_at_put_page; exact Hi.
Qed.

(** X1. [get_page_info] of [demand_paging.c] finds the descriptor of the page
    of [va] or, while the table has room, takes the next one for it: the
    index is below [MAX_PROC_PAGES], the descriptor carries the page address,
    no other descriptor changes, and asking again finds the same descriptor
    and changes nothing.  A new descriptor is UNMAPPED, clean, with [seq] and
    [swap_slot] -1, and [num_pages] has grown by one. *)
Theorem dp_get_page_info_lookup_or_create p va i p' :
  dp_wf p ->
  DemandPaging.get_page_info p va = (Some i, p') ->
  (i < Z.to_nat MAX_PROC_PAGES)%nat
  /\ pi_va (page_at p' i) = PGROUNDDOWN va
  /\ (forall j, j <> i -> page_at p' j = page_at p j)
  /\ dp_wf p'
  /\ DemandPaging.get_page_info p' va = (Some i, p')
  /\ (p' = p
      \/ (i = Z.to_nat (num_pages p)
          /\ num_pages p' = num_pages p + 1
          /\ page_at p' i = mk_page_info (PGROUNDDOWN va) UNMAPPED false (-1) (-1))).
Proof. apply dp_get_page_info_lookup. Qed.

(** X2. [get_page_info] of [demand_paging.c] returns no descriptor exactly
    when all [MAX_PROC_PAGES] descriptors are in use and none of them carries
    the page. *)
Theorem dp_get_page_info_full p va :
  dp_wf p ->
  (exists p', DemandPaging.get_page_info p va = (None, p'))
  <-> (num_pages p = MAX_PROC_PAGES
       /\ forall j, (j < Z.to_nat MAX_PROC_PAGES)%nat ->
            pi_va (page_at p j) <> PGROUNDDOWN va).
Proof.
  intros [Hn Hl]. unfold DemandPaging.get_page_info. split.
  - intros [p' H].
    destruct (DemandPaging.scan_va _ _ _ _) eqn:E; [discriminate|].
    destruct (Z.ltb_spec (num_pages p) MAX_PROC_PAGES); [discriminate|].
    assert (En : num_pages p = MAX_PROC_PAGES) by lia.
    split; [exact En|]. intros j Hj. unfold page_at.
    destruct (pages p !! j) as [d|] eqn:Ed.
    + apply (scan_va_None _ _ _ _ E j d); [rewrite En; exact Hj | exact Ed].
    + apply lookup_ge_None in Ed. lia.
  - intros [En Hno].
    destruct (DemandPaging.scan_va _ _ _ _) as [j|] eqn:E.
    + exfalso. apply scan_va_Some in E as (Hr & (d & Hd & Hv) & _).
      rewrite Nat.sub_0_r in Hd. apply (Hno j); [rewrite <- En; lia|].
      unfold page_at. rewrite Hd. exact Hv.
    + rewrite En, Z.ltb_irrefl. eexists; reflexivity.
Qed.

(** X3. Under [demand_paging.c] two different pages never share a
    descriptor: the second lookup leaves the descriptor of the first alone. *)
Theorem dp_get_page_info_distinct p va1 va2 i p1 j p2 :
  dp_wf p ->
  DemandPaging.get_page_info p va1 = (Some i, p1) ->
  DemandPaging.get_page_info p1 va2 = (Some j, p2) ->
  PGROUNDDOWN va1 <> PGROUNDDOWN va2 ->
  i <> j /\ pi_va (page_at p2 i) = PGROUNDDOWN va1
  /\ pi_va (page_at p2 j) = PGROUNDDOWN va2.
Proof.
  intros Hwf H1 H2 Hne.
  destruct (dp_get_page_info_lookup _ _ _ _ Hwf H1) as (_ & Hv1 & _ & Hwf1 & _).
  destruct (dp_get_page_info_lookup _ _ _ _ Hwf1 H2) as (_ & Hv2 & Hoth & _).
  assert (Hij : i <> j).
  { intros ->. destruct (dp_get_cases _ _ _ _ Hwf1 H2) as [(-> & _)|(-> & -> & Hlt & E)].
    - congruence.
    - destruct (dp_get_cases _ _ _ _ Hwf H1) as [(-> & Hi & _)|(-> & Hi & _)].
      + lia.
      + rewrite num_pages_put_page in Hi. cbn [num_pages set_num_pages] in Hi.
        destruct Hwf. lia. }
  split; [exact Hij|]. split; [|exact Hv2].
  rewrite Hoth by exact Hij. exact Hv1.
Qed.

(** ** What the functions of [demand_paging.c] leave alone *)

Lemma steady_refl p : dp_steady p p.
Proof. unfold dp_steady. repeat split; lia. Qed.

Lemma steady_trans p q r : dp_steady p q -> dp_steady q r -> dp_steady p r.
Proof.
  intros (A1 & A2 & A3 & A4 & A5 & A6) (B1 & B2 & B3 & B4 & B5 & B6).
  unfold dp_steady. repeat split; try congruence; lia.
Qed.

Lemma steady_wf p p' : dp_steady p p' -> dp_wf p -> dp_wf p'.
Proof.
  intros (_ & _ & _ & A4 & _ & A6) [Hn Hl]. split; [lia | congruence].
Qed.

Lemma steady_put p q i d : dp_steady p q -> dp_steady p (put_page q i d).
Proof.
  intros H. apply (steady_trans _ _ _ H). unfold dp_steady.
  rewrite pages_put_page, length_insert. repeat split; try reflexivity.
  all: rewrite num_pages_put_page; lia.
Qed.

Lemma steady_set_state p q i s : dp_steady p q -> dp_steady p (set_state q i s).
Proof. apply steady_put. Qed.
Lemma steady_set_seq p q i s : dp_steady p q -> dp_steady p (set_seq q i s).
Proof. apply steady_put. Qed.
Lemma steady_set_dirty p q i s : dp_steady p q -> dp_steady p (set_dirty q i s).
Proof. apply steady_put. Qed.
Lemma steady_set_slot p q i s : dp_steady p q -> dp_steady p (set_slot q i s).
Proof. apply steady_put. Qed.
Lemma steady_set_va p q i s : dp_steady p q -> dp_steady p (set_va q i s).
Proof. apply steady_put. Qed.

Lemma steady_set_next p q n : dp_steady p q -> dp_steady p (set_next_fifo_seq q n).
Proof.
  intros H. apply (steady_trans _ _ _ H). unfold dp_steady.
  repeat split; try reflexivity.
  all: change (num_pages (set_next_fifo_seq q n)) with (num_pages q); lia.
Qed.

Lemma steady_set_num_swapped p q n :
  dp_steady p q -> dp_steady p (set_num_swapped_pages q n).
Proof.
  intros H. apply (steady_trans _ _ _ H). unfold dp_steady.
  repeat split; try reflexivity.
  all: change (num_pages (set_num_swapped_pages q n)) with (num_pages q); lia.
Qed.

Lemma steady_set_bitmap p q bm :
  length bm = length (swap_slot_bitmap q) ->
  dp_steady p q -> dp_steady p (set_bitmap q bm).
Proof.
  intros Hl H. apply (steady_trans _ _ _ H). unfold dp_steady.
  repeat split; try reflexivity; try exact Hl.
  all: change (num_pages (set_bitmap q bm)) with (num_pages q); lia.
Qed.

Lemma dp_alloc_scan_length bm n : forall i s bm',
  DemandPaging.alloc_scan bm i n = (s, bm') -> length bm' = length bm.
Proof.
  induction n as [|n IH]; intros i s bm' H; cbn [DemandPaging.alloc_scan] in H.
  - congruence.
  - destruct (_ =? 0).
    + injection H as _ <-. apply length_insert.
    + eapply IH; exact H.
Qed.

Module DPSteady.
Import DemandPaging.

Lemma get_page_info_steady p va pi p' :
  get_page_info p va = (pi, p') -> dp_steady p p'.
Proof.
  unfold get_page_info. intros H.
  destruct (scan_va _ _ _ _); [injection H as _ <-; apply steady_refl|].
  destruct (Z.ltb_spec (num_pages p) MAX_PROC_PAGES);
    injection H as _ <-; [|apply steady_refl].
  unfold dp_steady. rewrite pages_put_page, length_insert, num_pages_put_page.
  change (num_pages (set_num_pages p (num_pages p + 1))) with (num_pages p + 1).
  repeat split; try reflexivity; lia.
Qed.

Lemma alloc_swap_slot_steady p s p' : alloc_swap_slot p = (s, p') -> dp_steady p p'.
Proof.
  unfold alloc_swap_slot. intros H.
  destruct (alloc_scan _ _ _) as [s0 bm] eqn:E. injection H as _ <-.
  apply steady_set_bitmap; [|apply steady_refl].
  eapply dp_alloc_scan_length; exact E.
Qed.

Lemma free_swap_slot_steady p q s : dp_steady p q -> dp_steady p (free_swap_slot q s).
Proof.
  intros H. unfold free_swap_slot. destruct (_ || _); [exact H|].
  apply steady_set_bitmap; [apply length_insert | exact H].
Qed.

Ltac steady :=
  repeat match goal with
    | G : get_page_info _ _ = _ |- _ => apply get_page_info_steady in G
    | G : alloc_swap_slot _ = _ |- _ => apply alloc_swap_slot_steady in G
    end;
  repeat first
    [ apply steady_set_state | apply steady_set_seq | apply steady_set_dirty
    | apply steady_set_slot | apply steady_set_va | apply steady_set_next
    | apply steady_set_num_swapped | apply free_swap_slot_steady
    | match goal with |- dp_steady _ (if ?b then _ else _) => destruct b end ];
  eauto using steady_refl, steady_trans.

Lemma swap_out_page_steady p k va pa r p' k' :
  swap_out_page p k va pa = (r, p', k') -> dp_steady p p'.
Proof.
  unfold swap_out_page. intros H. branches H; inv_pair H; steady.
Qed.

Lemma swap_in_page_steady p k va pa r p' k' :
  swap_in_page p k va pa = (r, p', k') -> dp_steady p p'.
Proof.
  unfold swap_in_page. intros H. branches H; inv_pair H; steady.
Qed.

Lemma evict_page_steady p k va r p' k' :
  evict_page p k va = (r, p', k') -> dp_steady p p'.
Proof.
  unfold evict_page. intros H. branches H; inv_pair H.
  all: try match goal with
       | G : swap_out_page _ _ _ _ = _ |- _ => apply swap_out_page_steady in G
       end.
  all: steady.
Qed.

Lemma acquire_frame_steady p k mem p' k' :
  acquire_frame p k = (mem, p', k') -> dp_steady p p'.
Proof.
  unfold acquire_frame. intros H. branches H; inv_pair H.
  all: try match goal with
       | G : evict_page _ _ _ = _ |- _ => apply evict_page_steady in G
       end.
  all: steady.
Qed.

Lemma mark_resident_steady p pi va s p' :
  mark_resident p pi va = (s, p') -> dp_steady p p'.
Proof.
  unfold mark_resident. intros H. destruct pi as [i|].
  - inv_pair H. steady.
  - destruct (get_page_info p va) as [pi p1] eqn:G.
    destruct pi; inv_pair H; steady.
Qed.

Lemma handle_page_fault_steady p k va w r p' k' :
  handle_page_fault p k va w = (r, p', k') -> dp_steady p p'.
Proof.
  unfold handle_page_fault. intros H.
  destruct (get_page_info p (PGROUNDDOWN va)) as [pi p1] eqn:G.
  destruct (classify p1 pi (PGROUNDDOWN va)) as [c valid].
  destruct (negb valid); [inv_pair H; steady|].
  destruct (acquire_frame p1 _) as [[mem p2] k2] eqn:A.
  apply acquire_frame_steady in A.
  destruct mem as [pa|]; [|inv_pair H; steady].
  branches H; try (inv_pair H; steady).
  all: repeat match goal with
       | G : swap_in_page _ _ _ _ = _ |- _ => apply swap_in_page_steady in G
       | G : mark_resident _ _ _ = _ |- _ => apply mark_resident_steady in G
       | G : install _ _ _ _ = _ |- _ => apply DPFacts.install_proc in G; subst
       end.
  all: try (inv_pair H); steady.
Qed.

Lemma handle_write_fault_steady p k va r p' k' :
  handle_write_fault p k va = (r, p', k') -> dp_steady p p'.
Proof.
  unfold handle_write_fault. intros H. branches H; inv_pair H; steady.
Qed.

End DPSteady.

Lemma shape_steady p p' : dp_steady p p' -> dp_shape p -> dp_shape p'.
Proof.
  intros H [Hwf Hb]. split; [eapply steady_wf; eassumption|].
  destruct H as (_ & _ & _ & _ & -> & _). exact Hb.
Qed.

Lemma shape_eq p p' :
  num_pages p' = num_pages p -> pages p' = pages p ->
  swap_slot_bitmap p' = swap_slot_bitmap p -> dp_shape p -> dp_shape p'.
Proof.
  intros Hn Hp Hb [[Hw Hl] Hbl]. unfold dp_shape, dp_wf.
  rewrite Hn, Hp, Hb. auto.
Qed.

Lemma shape_set_exec_tables p a b : dp_shape p -> dp_shape (set_exec_tables p a b).
Proof. apply shape_eq; reflexivity. Qed.

Lemma shape_put p i d : dp_shape p -> dp_shape (put_page p i d).
Proof.
  intros [[Hw Hl] Hbl]. unfold dp_shape, dp_wf.
  rewrite pages_put_page, length_insert. auto.
Qed.

Lemma record_page_shape p ph va :
  dp_shape p -> dp_shape (record_page DemandPaging.get_page_info p ph va).
Proof.
  intros H. unfold record_page.
  destruct (DemandPaging.get_page_info p va) as [pi p1] eqn:G.
  apply DPSteady.get_page_info_steady in G. apply (shape_steady _ _ G) in H.
  destruct pi as [i|]; [|exact H].
  destruct (_ <? _); apply shape_set_exec_tables; unfold set_state, set_va;
    apply shape_put, shape_put, H.
Qed.

Lemma record_pages_shape ph n : forall p va,
  dp_shape p -> dp_shape (record_pages DemandPaging.get_page_info p ph va n).
Proof.
  induction n as [|n IH]; intros p va H; cbn [record_pages]; [exact H|].
  destruct (_ <? _); [|exact H]. apply IH, record_page_shape, H.
Qed.

Lemma kexec_stack_page_shape p sb :
  dp_shape p -> dp_shape (kexec_stack_page DemandPaging.get_page_info p sb).
Proof.
  intros H. unfold kexec_stack_page.
  destruct (DemandPaging.get_page_info p sb) as [pi p1] eqn:G.
  apply DPSteady.get_page_info_steady in G. apply (shape_steady _ _ G) in H.
  destruct pi as [i|]; [|exact H].
  unfold set_dirty, set_seq, set_state.
  apply shape_put. eapply shape_eq; [reflexivity..|]. apply shape_put, shape_put, H.
Qed.

Lemma dp_init_shape p : dp_shape (DemandPaging.demand_paging_init p).
Proof.
  unfold dp_shape, dp_wf, DemandPaging.demand_paging_init.
  cbn [num_pages pages swap_slot_bitmap]. rewrite !length_replicate.
  unfold MAX_PROC_PAGES. repeat split; lia.
Qed.

Lemma dp_step_shape p p' : DPTrace.step p p' -> dp_shape p -> dp_shape p'.
Proof.
  intros S H. destruct S.
  - eapply shape_steady; [eapply DPSteady.get_page_info_steady|]; eassumption.
  - eapply shape_steady; [eapply DPSteady.handle_page_fault_steady|]; eassumption.
  - eapply shape_steady; [eapply DPSteady.handle_write_fault_steady|]; eassumption.
  - eapply shape_steady; [eapply DPSteady.evict_page_steady|]; eassumption.
  - eapply shape_steady; [eapply DPSteady.swap_out_page_steady|]; eassumption.
  - eapply shape_steady; [eapply DPSteady.swap_in_page_steady|]; eassumption.
  - eapply shape_steady; [eapply DPSteady.alloc_swap_slot_steady|]; eassumption.
  - eapply shape_steady; [apply DPSteady.free_swap_slot_steady, steady_refl|]; assumption.
  - unfold DemandPaging.create_swap_file in *.
    match goal with G : _ = (_, _, _) |- _ => rename G into E end.
    destruct (create k (pid p)) as [ip k1]. destruct (ip =? 0); inv_pair E; [exact H|].
    revert H. apply shape_eq; reflexivity.
  - unfold DemandPaging.delete_swap_file in *.
    match goal with G : _ = (_, _) |- _ => rename G into E end.
    destruct (swapfile p =? 0); apply pair_equal_spec in E as [<- _]; [exact H|].
    revert H. apply shape_eq; reflexivity.
  - destruct H as [[Hw Hl] Hb]. unfold dp_shape, dp_wf, kexec_clear.
    cbn [num_pages set_num_pages]. unfold MAX_PROC_PAGES in *. repeat split; try lia.
    + exact Hl.
    + exact Hb.
  - apply record_pages_shape, H.
  - revert H. apply shape_eq; reflexivity.
  - apply kexec_stack_page_shape, H.
  - revert H. apply shape_eq; reflexivity.
  - revert H. apply shape_eq; reflexivity.
Qed.

Lemma dp_reachable_shape p :
  DPTrace.reachable p ->
  0 <= num_pages p <= MAX_PROC_PAGES
  /\ length (pages p) = Z.to_nat MAX_PROC_PAGES
  /\ length (swap_slot_bitmap p) = 32%nat.
Proof.
  intros R. assert (H : dp_shape p).
  { induction R; [apply dp_init_shape | eapply dp_step_shape; eassumption]. }
  destruct H as [[? ?] ?]. auto.
Qed.

(** ** [handle_write_fault] *)

Lemma dp_get_page_info_round p va :
  DemandPaging.get_page_info p (PGROUNDDOWN va) = DemandPaging.get_page_info p va.
Proof. unfold DemandPaging.get_page_info. rewrite PGROUNDDOWN_idem. reflexivity. Qed.

Lemma walk_round k va : walk k (PGROUNDDOWN va) = walk k va.
Proof. unfold walk. rewrite PGROUNDDOWN_idem. reflexivity. Qed.

Lemma walk_set_pagetable_eq k va e :
  walk (set_pagetable k (<[PGROUNDDOWN va := e]> (pagetable k))) va = Some e.
Proof. unfold walk. cbn [pagetable set_pagetable]. apply lookup_insert_eq. Qed.

Lemma walk_set_pagetable_ne k va e va2 :
  PGROUNDDOWN va2 <> PGROUNDDOWN va ->
  walk (set_pagetable k (<[PGROUNDDOWN va := e]> (pagetable k))) va2 = walk k va2.
Proof.
  intros Hne. unfold walk. cbn [pagetable set_pagetable].
  apply lookup_insert_ne. congruence.
Qed.

(** X6. [handle_write_fault] returns 0 or -1.  It returns 0 exactly on a
    RESIDENT page that is mapped: the descriptor becomes dirty and no other
    changes, the entry gains [PTE_W] and keeps its frame, and no other page,
    no frame and no free-list entry is touched.  When it returns -1 the
    kernel state is untouched. *)
Theorem dp_write_fault_marks_dirty p k va r p' k' :
  DemandPaging.handle_write_fault p k va = (r, p', k') ->
  (r = 0 /\
   exists i e,
     DemandPaging.get_page_info p va = (Some i, p)
     /\ pi_state (page_at p i) = RESIDENT
     /\ walk k va = Some e
     /\ page_at p' i = with_dirty (page_at p i) true
     /\ (forall j, j <> i -> page_at p' j = page_at p j)
     /\ walk k' va = Some (mk_pte (pte_pa e) (Z.lor (pte_perm e) PTE_W))
     /\ Z.testbit (Z.lor (pte_perm e) PTE_W) 2 = true
     /\ (forall va2, PGROUNDDOWN va2 <> PGROUNDDOWN va -> walk k' va2 = walk k va2)
     /\ freelist k' = freelist k /\ physmem k' = physmem k)
  \/ (r = -1 /\ k' = k
      /\ forall i, DemandPaging.get_page_info p va = (Some i, p) ->
           pi_state (page_at p i) = RESIDENT -> walk k va = None).
Proof.
  unfold DemandPaging.handle_write_fault. rewrite dp_get_page_info_round, walk_round.
  intros H.
  destruct (DemandPaging.get_page_info p va) as [[i|] p1] eqn:G.
  2:{ inv_pair H. right. split; [reflexivity|]. split; [reflexivity|]. discriminate. }
  destruct (state_eqb (pi_state (page_at p1 i)) RESIDENT) eqn:Es; cbn [negb] in H.
  2:{ inv_pair H. right. split; [reflexivity|]. split; [reflexivity|].
      intros i' Hi' Hr. exfalso.
      assert (i' = i /\ p1 = p) as [-> ->] by (split; congruence).
      apply state_eqb_eq in Hr. congruence. }
  apply state_eqb_eq in Es.
  assert (p1 = p) as -> by (eapply dp_get_existing; [exact G | congruence]).
  pose proof (page_at_in_range p i ltac:(congruence)) as Hi.
  destruct (walk k va) as [e|] eqn:W.
  - inv_pair H. left. split; [reflexivity|]. exists i, e.
    split; [reflexivity|]. split; [exact Es|]. split; [reflexivity|].
    split; [apply page_at_set_dirty; exact Hi|].
    split; [intros j Hj; apply page_at_put_page_ne; exact Hj|].
    rewrite PGROUNDDOWN_idem.
    split; [apply walk_set_pagetable_eq|].
    split; [rewrite Z.lor_spec; apply orb_true_r|].
    split; [intros va2 Hne; apply walk_set_pagetable_ne; exact Hne|].
    split; reflexivity.
  - inv_pair H. right. split; [reflexivity|]. split; [reflexivity|]. reflexivity.
Qed.

(** ** [find_fifo_victim] *)


Lemma page_at_lookup p i d : pages p !! i = Some d -> page_at p i = d.
Proof. unfold page_at. intros ->. reflexivity. Qed.

Lemma page_at_resident_lookup p i :
  pi_state (page_at p i) = RESIDENT -> pages p !! i = Some (page_at p i).
Proof.
  unfold page_at. destruct (pages p !! i); [reflexivity | discriminate].
Qed.


(** ** Sequence numbers only grow *)











Module DPSeq.
Import DemandPaging.

















End DPSeq.


(** ** Swap-out and swap-in *)

(** A full write puts the first page of the frame at [off] in the file. *)
Lemma writei_full k ip pa off k1 :
  0 <= off ->
  writei k ip pa off PGSIZE = (PGSIZE, k1) ->
  exists f, inodes k1 !! ip = Some f
    /\ take (Z.to_nat PGSIZE) (drop (Z.to_nat off) (i_data f))
       = take (Z.to_nat PGSIZE) (frame k pa)
    /\ length (take (Z.to_nat PGSIZE) (frame k pa)) = Z.to_nat PGSIZE.
Proof.
  intros Hoff. unfold writei. destruct (inodes k !! ip) as [f|] eqn:Ef; [|discriminate].
  destruct (Z.ltb_spec (Z.of_nat (length (i_data f))) off) as [|Hsz]; [discriminate|].
  cbn [orb]. change (PGSIZE <? 0) with false. cbn match.
  set (m := Z.to_nat (Z.max 0 (Z.min PGSIZE (disk_room k)))).
  intros H. apply pair_equal_spec in H as [Hn <-].
  assert (Hm : (m <= Z.to_nat PGSIZE)%nat) by (unfold m; lia).
  rewrite length_take in Hn.
  assert (Em : m = Z.to_nat PGSIZE) by lia.
  assert (Hlen : (Z.to_nat PGSIZE <= length (frame k pa))%nat) by lia.
  rewrite Em in *. clear m Hm Em.
  eexists. split.
  { cbn [inodes set_disk_room set_inodes]. apply lookup_insert_eq. }
  cbn [i_data]. split; [|rewrite length_take; lia].
  rewrite drop_app_length' by (rewrite length_take; lia).
  rewrite take_app_length' by (rewrite length_take; lia).
  reflexivity.
Qed.

Lemma vas_upd q i (f : page_info -> page_info) :
  (forall d, pi_va (f d) = pi_va d) ->
  pi_va <$> pages (put_page q i (f (page_at q i))) = pi_va <$> pages q.
Proof.
  intros Hf. rewrite pages_put_page, list_fmap_insert, Hf.
  apply list_insert_id'. intros Hi. rewrite length_fmap in Hi.
  rewrite list_lookup_fmap. unfold page_at.
  destruct (pages q !! i) as [d|] eqn:E; [reflexivity|].
  apply lookup_ge_None in E. lia.
Qed.

Lemma scan_va_vas l l' va : forall i n,
  pi_va <$> l = pi_va <$> l' ->
  DemandPaging.scan_va l va i n = DemandPaging.scan_va l' va i n.
Proof.
  revert l'. induction l as [|d l IH]; intros [|d' l'] i n E; try discriminate.
  - reflexivity.
  - cbn in E. injection E as Ev El. destruct n as [|n]; [reflexivity|].
    cbn [DemandPaging.scan_va]. rewrite Ev. destruct (_ =? _); [reflexivity|].
    apply IH, El.
Qed.

Lemma dp_get_same_vas q q' va i :
  pi_va <$> pages q' = pi_va <$> pages q -> num_pages q' = num_pages q ->
  DemandPaging.get_page_info q va = (Some i, q) ->
  DemandPaging.get_page_info q' va = (Some i, q').
Proof.
  intros Hv Hn. unfold DemandPaging.get_page_info.
  rewrite Hn, (scan_va_vas _ _ _ _ _ Hv).
  destruct (DemandPaging.scan_va _ _ _ _) as [j|]; [congruence|].
  destruct (_ <? _); [|discriminate].
  intros H. exfalso. apply pair_equal_spec in H as [_ H].
  apply (f_equal num_pages) in H. rewrite num_pages_put_page in H.
  cbn [num_pages set_num_pages] in H. lia.
Qed.

(** What a successful [swap_out_page] leaves behind. *)
Lemma dp_swap_out_page_ok p k va pa slot p1 k1 :
  dp_shape p ->
  DemandPaging.swap_out_page p k va pa = (slot, p1, k1) -> 0 <= slot ->
  exists i,
    DemandPaging.get_page_info p1 va = (Some i, p1)
    /\ swapfile p1 = swapfile p /\ swapfile p <> 0
    /\ pi_state (page_at p1 i) = SWAPPED
    /\ swap_slot (page_at p1 i) = slot
    /\ slot < MAX_SWAP_SLOTS
    /\ DemandPaging.slot_taken (swap_slot_bitmap p1) slot = true
    /\ length (swap_slot_bitmap p1) = 32%nat
    /\ slot_contents k1 (swapfile p) slot = take (Z.to_nat PGSIZE) (frame k pa)
    /\ length (take (Z.to_nat PGSIZE) (frame k pa)) = Z.to_nat PGSIZE.
Proof.
  intros [Hwf Hbm] H Hs. unfold DemandPaging.swap_out_page in H.
  destruct (Z.eqb_spec (swapfile p) 0) as [|Hsf]; [inv_pair H; lia|].
  destruct (DemandPaging.get_page_info p va) as [[i|] p0] eqn:G; [|inv_pair H; lia].
  destruct (dp_get_page_info_lookup _ _ _ _ Hwf G) as (Hi & _ & _ & Hwf0 & G0 & _).
  destruct (dp_get_page_info_frame _ _ _ _ G) as [Eb Ef].
  destruct (DemandPaging.alloc_swap_slot p0) as [s p2] eqn:A.
  destruct (Z.ltb_spec s 0) as [|Hs0]; [inv_pair H; lia|].
  destruct (dp_alloc_taken p0 s p2 ltac:(congruence) A Hs0) as (Hr & Hl2 & Hp2 & Hf2 & Ht).
  destruct (writei k (swapfile p2) pa (s * PGSIZE) PGSIZE) as [n kw] eqn:Wr.
  destruct (Z.eqb_spec n PGSIZE) as [->|]; cbn [negb] in H; [|inv_pair H; lia].
  inv_pair H.
  assert (Hi2 : (i < length (pages p2))%nat).
  { rewrite Hp2. destruct Hwf0 as [_ ->]. exact Hi. }
  exists i. split.
  { apply (dp_get_same_vas p0); [| |exact G0].
    - change (pages (set_num_swapped_pages ?q ?v)) with (pages q).
      unfold set_state, set_slot.
      rewrite (vas_upd _ i (fun d => with_state d SWAPPED)) by reflexivity.
      rewrite (vas_upd _ i (fun d => with_slot d s)) by reflexivity.
      rewrite Hp2. reflexivity.
    - change (num_pages p2 = num_pages p0).
      unfold DemandPaging.alloc_swap_slot in A.
      destruct (DemandPaging.alloc_scan _ _ _). inv_pair A. reflexivity. }
  split; [change (swapfile p2 = swapfile p); congruence|].
  split; [exact Hsf|].
  rewrite page_at_set_num_swapped.
  rewrite page_at_set_state by (len_simpl; exact Hi2).
  rewrite page_at_set_slot by exact Hi2.
  cbn [pi_state swap_slot with_state with_slot].
  split; [reflexivity|]. split; [reflexivity|]. split; [unfold MAX_SWAP_SLOTS; lia|].
  split.
  { change (DemandPaging.slot_taken (swap_slot_bitmap p2) s = true).
    rewrite Ht by (unfold MAX_SWAP_SLOTS; lia). destruct (decide (s = s)); congruence. }
  split; [exact Hl2|].
  assert (Hoff : 0 <= s * PGSIZE) by (unfold PGSIZE; lia).
  destruct (writei_full _ _ _ _ _ Hoff Wr) as (f & Hf & Hd & Hlen).
  split; [|exact Hlen].
  unfold slot_contents. change (inodes (log kw ?e)) with (inodes kw).
  replace (swapfile p) with (swapfile p2) by congruence. rewrite Hf. exact Hd.
Qed.

(** X7. Under [demand_paging.c] a page that [swap_out_page] has written
    comes back unchanged with [swap_in_page], whatever frame it is read into
    and whatever happened to the rest of the file in between; the slot is
    taken in between and free afterwards, and the descriptor goes from
    SWAPPED to RESIDENT and clean. *)
Theorem dp_swap_round_trip p k va pa slot p1 k1 k1' pa2 p2 k2 :
  0 <= num_pages p <= MAX_PROC_PAGES ->
  length (pages p) = Z.to_nat MAX_PROC_PAGES ->
  length (swap_slot_bitmap p) = 32%nat ->
  DemandPaging.swap_out_page p k va pa = (slot, p1, k1) -> 0 <= slot ->
  slot_contents k1' (swapfile p1) slot = slot_contents k1 (swapfile p1) slot ->
  DemandPaging.swap_in_page p1 k1' va pa2 = (0, p2, k2) ->
  take (Z.to_nat PGSIZE) (frame k2 pa2) = take (Z.to_nat PGSIZE) (frame k pa)
  /\ length (take (Z.to_nat PGSIZE) (frame k pa)) = Z.to_nat PGSIZE
  /\ DemandPaging.slot_taken (swap_slot_bitmap p1) slot = true
  /\ DemandPaging.slot_taken (swap_slot_bitmap p2) slot = false
  /\ exists i, DemandPaging.get_page_info p1 va = (Some i, p1)
       /\ pi_state (page_at p1 i) = SWAPPED
       /\ pi_state (page_at p2 i) = RESIDENT
       /\ is_dirty (page_at p2 i) = false.
Proof.
  intros Hn Hl Hb Hout Hs Hk Hin.
  destruct (dp_swap_out_page_ok p k va pa slot p1 k1 (conj (conj Hn Hl) Hb) Hout Hs)
    as (i & G & Hf & Hf0 & Hst & Hsl & Hlt & Htk & Hl1 & Hc & Hlen).
  destruct (dp_swap_in_page_ok p1 k1' va pa2 p2 k2 Hl1 Hin)
    as (i' & G' & Hst' & Hd' & _ & Hfree & Hc').
  assert (i' = i) as -> by congruence.
  rewrite Hsl in *. rewrite Hc', Hk, Hf, Hc.
  split; [reflexivity|]. split; [exact Hlen|]. split; [exact Htk|].
  split; [apply Hfree; exact Hlt|].
  exists i. split; [exact G|]. split; [exact Hst|]. rewrite Hd'. split; reflexivity.
Qed.

(** ** What a served fault installs *)

Lemma mappages_ok k va pa perm k' :
  mappages k va pa perm = (0, k') ->
  walk k va = None /\ pt_nomem k = false
  /\ k' = set_pagetable k (<[PGROUNDDOWN va := mk_pte pa perm]> (pagetable k)).
Proof.
  unfold mappages. destruct (pt_nomem k); [discriminate|].
  destruct (walk k va); [discriminate|]. intros H. injection H as <-. auto.
Qed.

Lemma mappages_result k va pa perm r k' :
  mappages k va pa perm = (r, k') -> r = 0 \/ (r = -1 /\ k' = k).
Proof.
  unfold mappages. destruct (pt_nomem k); [intros H; injection H as <- <-; auto|].
  destruct (walk k va); intros H; injection H as <- <-; auto.
Qed.

Lemma dp_install_ok p k va pa p' k' :
  DemandPaging.install p k va pa = (0, p', k') ->
  p' = p /\ walk k va = None
  /\ walk k' va
     = Some (mk_pte pa (if DemandPaging.in_range (text_start p) (text_end p) va
                        then Z.lor (Z.lor PTE_U PTE_R) PTE_X
                        else Z.lor PTE_U PTE_R))
  /\ (forall va2, PGROUNDDOWN va2 <> PGROUNDDOWN va -> walk k' va2 = walk k va2)
  /\ freelist k' = freelist k.
Proof.
  unfold DemandPaging.install. intros H.
  destruct (mappages _ _ _ _) as [r k1] eqn:M.
  destruct (mappages_result _ _ _ _ _ _ M) as [->|[-> ->]]; cbn in H; [|discriminate].
  apply mappages_ok in M as (Hw & _ & ->). inv_pair H.
  split; [reflexivity|]. split; [exact Hw|].
  split; [apply walk_set_pagetable_eq|].
  split; [intros va2 Hne; apply walk_set_pagetable_ne; exact Hne | reflexivity].
Qed.

Lemma steady_text p p' :
  dp_steady p p' -> text_start p' = text_start p /\ text_end p' = text_end p.
Proof. intros (L & _). unfold layout_of in L. split; congruence. Qed.

(** X8. A fault that [handle_page_fault] serves leaves the page mapped
    readable and for the user, executable exactly when it lies in the text
    range, and never writable, whether the access was a write or not. *)
Theorem dp_fault_maps_read_only p k va w p' k' :
  DemandPaging.handle_page_fault p k va w = (0, p', k') ->
  exists pa perm,
    walk k' va = Some (mk_pte pa perm)
    /\ perm = (if DemandPaging.in_range (text_start p) (text_end p) (PGROUNDDOWN va)
               then Z.lor (Z.lor PTE_U PTE_R) PTE_X
               else Z.lor PTE_U PTE_R)
    /\ Z.testbit perm 1 = true
    /\ Z.testbit perm 2 = false
    /\ Z.testbit perm 3
       = DemandPaging.in_range (text_start p) (text_end p) (PGROUNDDOWN va)
    /\ Z.testbit perm 4 = true.
Proof.
  intros H. pose proof (DPSteady.handle_page_fault_steady _ _ _ _ _ _ _ H) as St.
  apply steady_text in St as [Ets Ete].
  assert (exists pa k0, DemandPaging.install p' k0 (PGROUNDDOWN va) pa = (0, p', k'))
    as (pa & k0 & I).
  { unfold DemandPaging.handle_page_fault in H.
    destruct (DemandPaging.get_page_info p (PGROUNDDOWN va)) as [pi p1].
    destruct (DemandPaging.classify p1 pi (PGROUNDDOWN va)) as [c valid].
    destruct (negb valid); [discriminate H|].
    destruct (DemandPaging.acquire_frame p1 _) as [[mem p2] k2].
    destruct mem as [pa|]; [|discriminate H].
    branches H; try discriminate H.
    all: match goal with
         | I : DemandPaging.install ?q _ _ _ = _ |- _ =>
             pose proof (DPFacts.install_proc _ _ _ _ _ _ _ I); subst q; eauto
         end. }
  apply dp_install_ok in I as (_ & _ & Hw & _).
  rewrite walk_round, Ets, Ete in Hw. exists pa. eexists. split; [exact Hw|].
  split; [reflexivity|].
  destruct (DemandPaging.in_range _ _ _); repeat split; reflexivity.
Qed.

(** X9. With the table of descriptors full, [handle_page_fault] still serves
    a valid fault on an unmapped page that has no descriptor whenever a
    frame is free and the page table can grow: it maps that frame and leaves
    the process as it was, so that nothing records the page. *)
Theorem dp_fault_untracked_when_full p k va w pa rest :
  DemandPaging.get_page_info p va = (None, p) ->
  (DemandPaging.classify p None (PGROUNDDOWN va)).2 = true ->
  (DemandPaging.in_range (text_start p) (data_end p) (PGROUNDDOWN va) = true ->
   exec_inode p <> 0) ->
  freelist k = pa :: rest -> pa <> 0 ->
  pt_nomem k = false -> walk k va = None ->
  exists k',
    DemandPaging.handle_page_fault p k va w = (0, p, k')
    /\ exists perm, walk k' va = Some (mk_pte pa perm).
Proof.
  intros G Hv Hex Hfl Hpa Hpt Hw.
  unfold DemandPaging.handle_page_fault.
  rewrite dp_get_page_info_round, G.
  destruct (DemandPaging.classify p None (PGROUNDDOWN va)) as [c valid] eqn:C.
  cbn in Hv. subst valid. cbn [negb].
  unfold DemandPaging.acquire_frame, kalloc. rewrite freelist_log, Hfl.
  destruct (Z.eqb_spec pa 0) as [|_]; [contradiction|].
  assert (I : forall k0, walk k0 va = None -> pt_nomem k0 = false ->
            exists k', DemandPaging.install p k0 (PGROUNDDOWN va) pa = (0, p, k')
                       /\ exists perm, walk k' va = Some (mk_pte pa perm)).
  { intros k0 Hw0 Hp0. unfold DemandPaging.install, mappages.
    rewrite Hp0, walk_round, Hw0. cbn [Z.ltb Z.compare].
    eexists. split; [reflexivity|]. eexists.
    rewrite <- (walk_round _ va). unfold walk. cbn [pagetable set_pagetable].
    rewrite !PGROUNDDOWN_idem. apply lookup_insert_eq. }
  assert (Gm : forall q, q = p ->
             DemandPaging.mark_resident q None (PGROUNDDOWN va) = (-1, p)).
  { intros q ->. unfold DemandPaging.mark_resident.
    rewrite dp_get_page_info_round, G. reflexivity. }
  destruct (DemandPaging.in_range (text_start p) (data_end p) (PGROUNDDOWN va)) eqn:R.
  - destruct (Z.eqb_spec (exec_inode p) 0) as [E|_]; [exfalso; apply Hex; auto|].
    assert (S : DemandPaging.scan_va (pages p) (PGROUNDDOWN va) 0
                  (Z.to_nat (num_pages p)) = None).
    { unfold DemandPaging.get_page_info in G.
      destruct (DemandPaging.scan_va _ _ _ _); [discriminate | reflexivity]. }
    rewrite S. cbn [Z.ltb Z.compare]. rewrite (Gm p eq_refl).
    match goal with |- context [DemandPaging.install p ?k0 _ _] =>
      destruct (I k0) as (k' & -> & Hk'); [exact Hw | exact Hpt |]
    end.
    exists k'. split; [reflexivity | exact Hk'].
  - rewrite (Gm p eq_refl).
    match goal with |- context [DemandPaging.install p ?k0 _ _] =>
      destruct (I k0) as (k' & -> & Hk'); [exact Hw | exact Hpt |]
    end.
    exists k'. split; [reflexivity | exact Hk'].
Qed.

(** ** What the functions of [lazy.c] leave alone *)

Lemma lsteady_refl p : lazy_steady p p.
Proof. unfold lazy_steady. auto. Qed.

Lemma lsteady_trans p q r : lazy_steady p q -> lazy_steady q r -> lazy_steady p r.
Proof.
  intros (A1 & A2 & A3 & A4) (B1 & B2 & B3 & B4).
  unfold lazy_steady. repeat split; congruence.
Qed.

Lemma lsteady_put p q i d : lazy_steady p q -> lazy_steady p (put_page q i d).
Proof.
  intros H. apply (lsteady_trans _ _ _ H). unfold lazy_steady.
  rewrite pages_put_page, length_insert. repeat split; reflexivity.
Qed.

Lemma lsteady_set_state p q i s : lazy_steady p q -> lazy_steady p (set_state q i s).
Proof. apply lsteady_put. Qed.
Lemma lsteady_set_seq p q i s : lazy_steady p q -> lazy_steady p (set_seq q i s).
Proof. apply lsteady_put. Qed.
Lemma lsteady_set_dirty p q i s : lazy_steady p q -> lazy_steady p (set_dirty q i s).
Proof. apply lsteady_put. Qed.
Lemma lsteady_set_slot p q i s : lazy_steady p q -> lazy_steady p (set_slot q i s).
Proof. apply lsteady_put. Qed.
Lemma lsteady_set_va p q i s : lazy_steady p q -> lazy_steady p (set_va q i s).
Proof. apply lsteady_put. Qed.

Lemma lsteady_set_next p q n : lazy_steady p q -> lazy_steady p (set_next_fifo_seq q n).
Proof. intros H. apply (lsteady_trans _ _ _ H). unfold lazy_steady. auto. Qed.

Lemma lsteady_set_num_swapped p q n :
  lazy_steady p q -> lazy_steady p (set_num_swapped_pages q n).
Proof. intros H. apply (lsteady_trans _ _ _ H). unfold lazy_steady. auto. Qed.

Lemma lsteady_setkilled p q : lazy_steady p q -> lazy_steady p (setkilled q).
Proof. intros H. apply (lsteady_trans _ _ _ H). unfold lazy_steady. auto. Qed.

Lemma lsteady_set_swapfile p q v : lazy_steady p q -> lazy_steady p (set_swapfile q v).
Proof. intros H. apply (lsteady_trans _ _ _ H). unfold lazy_steady. auto. Qed.

Lemma lsteady_set_bitmap p q bm :
  length bm = length (swap_slot_bitmap q) ->
  lazy_steady p q -> lazy_steady p (set_bitmap q bm).
Proof.
  intros Hl H. apply (lsteady_trans _ _ _ H). unfold lazy_steady.
  repeat split; try reflexivity. exact Hl.
Qed.

Lemma lazy_scan_bits_length bm i n : forall j s bm',
  Lazy.scan_bits bm i j n = Some (s, bm') -> length bm' = length bm.
Proof.
  induction n as [|n IH]; intros j s bm' H; cbn [Lazy.scan_bits] in H; [discriminate|].
  destruct (_ <=? _); [discriminate|]. destruct (_ =? 0).
  - injection H as _ <-. apply length_insert.
  - eapply IH; exact H.
Qed.

Lemma lazy_scan_words_length bm n : forall i s bm',
  Lazy.scan_words bm i n = (s, bm') -> length bm' = length bm.
Proof.
  induction n as [|n IH]; intros i s bm' H.
  - injection H as _ <-. reflexivity.
  - change (Lazy.scan_words bm i (S n))
      with (match Lazy.scan_bits bm i 0 64 with
            | Some r => r
            | None => Lazy.scan_words bm (i + 1) n
            end) in H.
    destruct (Lazy.scan_bits bm i 0 64) as [[s0 bm0]|] eqn:E.
    + apply pair_equal_spec in H as [_ <-]. eapply lazy_scan_bits_length; exact E.
    + eapply IH; exact H.
Qed.

Module LazySteady.
Import Lazy.

Lemma lz_alloc_swap_slot_steady p s p' : alloc_swap_slot p = (s, p') -> lazy_steady p p'.
Proof.
  unfold alloc_swap_slot. intros H. destruct (_ <=? _).
  - injection H as _ <-. apply lsteady_refl.
  - destruct (scan_words _ _ _) as [s0 bm] eqn:E. injection H as _ <-.
    apply lsteady_set_bitmap; [|apply lsteady_refl].
    eapply lazy_scan_words_length; exact E.
Qed.

Lemma lz_free_swap_slot_steady p q s : lazy_steady p q -> lazy_steady p (free_swap_slot q s).
Proof.
  intros H. unfold free_swap_slot. destruct (_ || _); [exact H|].
  destruct (_ && _); [|exact H].
  apply lsteady_set_bitmap; [apply length_insert | exact H].
Qed.

Lemma lz_create_swap_file_steady p k r p' k' :
  create_swap_file p k = (r, p', k') -> lazy_steady p p'.
Proof.
  unfold create_swap_file. intros H. branches H; inv_pair H;
    try apply lsteady_set_swapfile; apply lsteady_refl.
Qed.

Ltac steady :=
  repeat match goal with
    | G : alloc_swap_slot _ = _ |- _ => apply lz_alloc_swap_slot_steady in G
    | G : create_swap_file _ _ = _ |- _ => apply lz_create_swap_file_steady in G
    end;
  repeat first
    [ match goal with |- lazy_steady _ (if ?b then _ else _) => destruct b end
    | apply lsteady_set_state | apply lsteady_set_seq | apply lsteady_set_dirty
    | apply lsteady_set_slot | apply lsteady_set_va | apply lsteady_set_next
    | apply lsteady_set_num_swapped | apply lz_free_swap_slot_steady
    | apply lsteady_setkilled ];
  eauto using lsteady_refl, lsteady_trans.

Lemma lazy_evict_page_steady p k r p' k' :
  lazy_evict_page p k = (r, p', k') -> lazy_steady p p'.
Proof.
  unfold lazy_evict_page. intros H.
  destruct (_ =? -1); [apply pair_equal_spec in H as [H _];
                       apply pair_equal_spec in H as [_ <-]; apply lsteady_refl|].
  destruct (_ || _).
  - destruct (swapfile p =? 0).
    + destruct (create_swap_file p _) as [[r0 p0] k0] eqn:C.
      apply lz_create_swap_file_steady in C.
      destruct (negb _).
      * apply pair_equal_spec in H as [H _]. apply pair_equal_spec in H as [_ <-]. steady.
      * destruct (alloc_swap_slot p0) as [s p1] eqn:A. apply lz_alloc_swap_slot_steady in A.
        destruct (s <? 0); apply pair_equal_spec in H as [H _];
          apply pair_equal_spec in H as [_ <-]; steady.
    + destruct (alloc_swap_slot p) as [s p1] eqn:A. apply lz_alloc_swap_slot_steady in A.
      destruct (s <? 0); apply pair_equal_spec in H as [H _];
        apply pair_equal_spec in H as [_ <-]; steady.
  - apply pair_equal_spec in H as [H _]. apply pair_equal_spec in H as [_ <-]. steady.
Qed.

Lemma lz_acquire_frame_steady p k mem p' k' :
  acquire_frame p k = (mem, p', k') -> lazy_steady p p'.
Proof.
  unfold acquire_frame. intros H.
  destruct (kalloc k) as [m k1]. destruct (m =? 0).
  - destruct (lazy_evict_page p k1) as [[r p1] k2] eqn:E.
    apply lazy_evict_page_steady in E.
    destruct (if 0 <? r then kalloc k2 else (0, k2)) as [m2 k3].
    destruct (m2 =? 0); inv_pair H; steady.
  - inv_pair H. steady.
Qed.

Lemma lazy_handle_fault_steady p k va w r p' k' :
  lazy_handle_fault p k va w = (r, p', k') -> lazy_steady p p'.
Proof.
  unfold lazy_handle_fault. intros H.
  destruct (ismapped k _); [inv_pair H; steady|].
  destruct (state_eqb _ SWAPPED).
  - destruct (acquire_frame p _) as [[mem p1] k1] eqn:A.
    apply lz_acquire_frame_steady in A.
    destruct mem as [mem|]; [|inv_pair H; steady].
    destruct (mappages _ _ _ _) as [r0 k2].
    destruct (negb _); inv_pair H; steady.
  - destruct (classify p _) as [c valid].
    destruct (negb valid); [inv_pair H; steady|].
    destruct (acquire_frame p _) as [[mem p1] k1] eqn:A.
    apply lz_acquire_frame_steady in A.
    destruct mem as [mem|]; [|inv_pair H; steady].
    destruct (mappages _ _ _ _) as [r0 k2].
    destruct (negb _); inv_pair H; steady.
Qed.

End LazySteady.

(** ** [sys_memstat] *)

Lemma lshape_steady p p' : lazy_steady p p' -> lazy_shape p -> lazy_shape p'.
Proof.
  intros (_ & A & B & C) (Hn & Hl & Hb). unfold lazy_shape. repeat split; congruence.
Qed.

Lemma lshape_eq p p' :
  num_pages p' = num_pages p -> pages p' = pages p ->
  swap_slot_bitmap p' = swap_slot_bitmap p -> lazy_shape p -> lazy_shape p'.
Proof.
  intros Hn Hp Hb (A & B & C). unfold lazy_shape. rewrite Hn, Hp, Hb. auto.
Qed.

Lemma lshape_put p i d : lazy_shape p -> lazy_shape (put_page p i d).
Proof.
  intros (A & B & C). unfold lazy_shape.
  rewrite pages_put_page, length_insert. auto.
Qed.

Lemma lazy_record_page_shape p ph va :
  lazy_shape p -> lazy_shape (record_page LazyTrace.get p ph va).
Proof.
  intros H. unfold record_page, LazyTrace.get.
  destruct (_ <? _).
  all: match goal with
       | |- lazy_shape (set_exec_tables ?q _ _) =>
           apply (lshape_eq q); [reflexivity..|]
       end.
  all: unfold set_state, set_va; apply lshape_put, lshape_put, H.
Qed.

Lemma lazy_record_pages_shape ph n : forall p va,
  lazy_shape p -> lazy_shape (record_pages LazyTrace.get p ph va n).
Proof.
  induction n as [|n IH]; intros p va H; cbn [record_pages]; [exact H|].
  destruct (_ <? _); [|exact H]. apply IH, lazy_record_page_shape, H.
Qed.

Lemma lazy_init_shape p : lazy_shape (Lazy.lazy_init p).
Proof.
  unfold lazy_shape, Lazy.lazy_init. cbn [num_pages pages swap_slot_bitmap].
  rewrite !length_replicate. auto.
Qed.

Lemma lazy_step_shape p p' : LazyTrace.step p p' -> lazy_shape p -> lazy_shape p'.
Proof.
  intros S H. destruct S.
  - eapply lshape_steady; [eapply LazySteady.lazy_handle_fault_steady|]; eassumption.
  - eapply lshape_steady; [eapply LazySteady.lazy_evict_page_steady|]; eassumption.
  - eapply lshape_steady; [eapply LazySteady.lz_alloc_swap_slot_steady|]; eassumption.
  - eapply lshape_steady; [apply LazySteady.lz_free_swap_slot_steady, lsteady_refl|]; assumption.
  - eapply lshape_steady; [eapply LazySteady.lz_create_swap_file_steady|]; eassumption.
  - unfold Lazy.delete_swap_file in *.
    match goal with G : _ = (_, _) |- _ => rename G into E end.
    destruct (swapfile p =? 0); [apply pair_equal_spec in E as [<- _]; exact H|].
    destruct (_ || _); apply pair_equal_spec in E as [<- _];
      revert H; apply lshape_eq; reflexivity.
  - destruct H as (A & B & C). unfold lazy_shape. auto.
  - apply lazy_record_pages_shape, H.
  - revert H. apply lshape_eq; reflexivity.
  - unfold kexec_stack_page, LazyTrace.get, set_dirty, set_seq, set_state.
    apply lshape_put. eapply lshape_eq; [reflexivity..|]. apply lshape_put, lshape_put, H.
  - revert H. apply lshape_eq; reflexivity.
  - revert H. apply lshape_eq; reflexivity.
Qed.

Lemma lazy_reachable_shape p : LazyTrace.reachable p -> lazy_shape p.
Proof.
  intros R. induction R; [apply lazy_init_shape | eapply lazy_step_shape; eassumption].
Qed.

(** *** [sys_memstat] *)

Lemma count_states_spec l : forall n r s,
  count_states l n r s
  = (r + Z.of_nat (length (filter (fun d => pi_state d = RESIDENT) (take n l))),
     s + Z.of_nat (length (filter (fun d => pi_state d = SWAPPED) (take n l)))).
Proof.
  induction l as [|d l IH]; intros n r s.
  - destruct n; cbn; f_equal; lia.
  - destruct n as [|n]; [cbn; f_equal; lia|].
    cbn [count_states take]. rewrite !filter_cons.
    destruct (pi_state d) eqn:E; rewrite IH.
    + rewrite decide_False, decide_False by discriminate. reflexivity.
    + rewrite decide_True, decide_False by (reflexivity || discriminate).
      cbn [length]. f_equal; lia.
    + rewrite decide_False, decide_True by (reflexivity || discriminate).
      cbn [length]. f_equal; lia.
Qed.

Lemma filter_fmap_stat (s : page_state) (l : list page_info) :
  length (filter (fun x => ps_state x = s) (stat_of <$> l))
  = length (filter (fun d => pi_state d = s) l).
Proof.
  induction l as [|d l IH]; [reflexivity|].
  cbn [fmap list_fmap]. rewrite !filter_cons. cbn [stat_of ps_state].
  destruct (decide (pi_state d = s)); cbn [length]; rewrite IH; reflexivity.
Qed.

Lemma filter_states_le (l : list page_info) :
  (length (filter (fun d => pi_state d = RESIDENT) l)
   + length (filter (fun d => pi_state d = SWAPPED) l) <= length l)%nat.
Proof.
  induction l as [|d l IH]; [reflexivity|]. rewrite !filter_cons.
  destruct (pi_state d).
  - rewrite decide_False, decide_False by discriminate. cbn [length]. lia.
  - rewrite decide_True, decide_False by (reflexivity || discriminate). cbn [length]. lia.
  - rewrite decide_False, decide_True by (reflexivity || discriminate). cbn [length]. lia.
Qed.

Lemma memstat_copy_count p :
  (if num_pages p <? MAX_PAGES_INFO then num_pages p else MAX_PAGES_INFO)
  = Z.min (num_pages p) MAX_PAGES_INFO.
Proof. destruct (Z.ltb_spec (num_pages p) MAX_PAGES_INFO); lia. Qed.

Lemma memstat_fields p :
  let info := memstat_info p in
  let shown := take (Z.to_nat (Z.min (num_pages p) MAX_PAGES_INFO)) (pages p) in
  ms_pages info = stat_of <$> shown
  /\ ms_num_resident_pages info
     = Z.of_nat (length (filter (fun d => pi_state d = RESIDENT) shown))
  /\ ms_num_swapped_pages info
     = Z.of_nat (length (filter (fun d => pi_state d = SWAPPED) shown))
  /\ ms_pid info = pid p /\ ms_next_fifo_seq info = next_fifo_seq p.
Proof.
  unfold memstat_info. rewrite count_states_spec, memstat_copy_count. cbn.
  repeat split; lia.
Qed.

(** X18. What [sys_memstat] reports is consistent: the two counts are the
    numbers of RESIDENT and SWAPPED entries in the list it copies, the list
    has at most min([num_pages], [MAX_PAGES_INFO]) entries, and entry [i] is
    descriptor [i] with its address cut to 32 bits. *)
Theorem sys_memstat_counts p :
  let info := memstat_info p in
  ms_num_resident_pages info
  = Z.of_nat (length (filter (fun x => ps_state x = RESIDENT) (ms_pages info)))
  /\ ms_num_swapped_pages info
     = Z.of_nat (length (filter (fun x => ps_state x = SWAPPED) (ms_pages info)))
  /\ ms_num_resident_pages info + ms_num_swapped_pages info
     <= Z.of_nat (length (ms_pages info))
  /\ Z.of_nat (length (ms_pages info)) <= Z.max 0 (Z.min (num_pages p) MAX_PAGES_INFO)
  /\ forall i x, ms_pages info !! i = Some x ->
       x = stat_of (page_at p i) /\ 0 <= ps_va x < 2 ^ 32.
Proof.
  destruct (memstat_fields p) as (Hp & Hr & Hs & _). cbn zeta in *.
  set (shown := take _ (pages p)) in *.
  rewrite Hp, Hr, Hs, !filter_fmap_stat, length_fmap.
  split; [reflexivity|]. split; [reflexivity|]. split.
  { pose proof (filter_states_le shown). lia. }
  split; [unfold shown; rewrite length_take; lia|].
  intros i x Hl. rewrite list_lookup_fmap in Hl.
  destruct (shown !! i) as [d|] eqn:E; [|discriminate]. injection Hl as <-.
  unfold shown in E. apply lookup_take_Some in E as [E _].
  rewrite (page_at_lookup _ _ _ E). split; [reflexivity|].
  cbn [stat_of ps_va]. unfold uint. apply Z.mod_pos_bound. lia.
Qed.

(** X19. [num_pages_total] of [sys_memstat] is the size of the process in
    pages, rounded up. *)
Theorem sys_memstat_total p :
  0 <= sz p < 2 ^ 43 ->
  let t := ms_num_pages_total (memstat_info p) in
  PGSIZE * (t - 1) < sz p <= PGSIZE * t.
Proof.
  intros Hsz. unfold memstat_info.
  destruct (count_states _ _ _ _) as [r s]. cbn [ms_num_pages_total].
  pose proof (Z.div_mod (sz p) PGSIZE ltac:(unfold PGSIZE; lia)) as E.
  pose proof (Z.mod_pos_bound (sz p) PGSIZE ltac:(unfold PGSIZE; lia)) as B.
  assert (Hq : 0 <= sz p / PGSIZE < 2 ^ 31).
  { split; [apply Z.div_pos; unfold PGSIZE; lia|].
    apply Z.div_lt_upper_bound; unfold PGSIZE; lia. }
  assert (Es : s32 (sz p / PGSIZE) = sz p / PGSIZE).
  { unfold s32. rewrite Z.mod_small; lia. }
  rewrite Es. destruct (Z.eqb_spec (sz p mod PGSIZE) 0); cbn [negb]; unfold PGSIZE in *; lia.
Qed.

(** X20. Under [lazy.c] [num_pages] stays 0, so [sys_memstat] reports no
    page and counts no RESIDENT and no SWAPPED page, whatever is resident. *)
Theorem lazy_memstat_reports_nothing p :
  LazyTrace.reachable p ->
  num_pages p = 0
  /\ ms_pages (memstat_info p) = []
  /\ ms_num_resident_pages (memstat_info p) = 0
  /\ ms_num_swapped_pages (memstat_info p) = 0.
Proof.
  intros R. apply lazy_reachable_shape in R as (Hn & _ & _).
  destruct (memstat_fields p) as (Hp & Hr & Hs & _). cbn zeta in *.
  rewrite Hn in *. rewrite Hp, Hr, Hs. cbn. auto.
Qed.

Lemma lazy_boot_reachable : LazyTrace.reachable lazy_boot.
Proof.
  apply (LazyTrace.reach_step
           (set_layout (Lazy.lazy_init proc0) 0 4096 4096 8192 8192 16384 24576)).
  - apply (LazyTrace.reach_step (Lazy.lazy_init proc0)).
    + apply LazyTrace.reach_init.
    + apply LazyTrace.step_exec_layout.
  - apply LazyTrace.step_exec_inode.
Defined.

Lemma lazy_scenario2_reachable : LazyTrace.reachable Scenario2.s1.1.
Proof.
  apply (LazyTrace.reach_step lazy_boot); [apply lazy_boot_reachable|].
  destruct (Lazy.lazy_handle_fault Scenario2.s0.1 Scenario2.s0.2 Scenario2.S true)
    as [[r p'] k'] eqn:E.
  replace (Scenario2.s1.1) with p'.
  - exact (LazyTrace.step_fault _ _ _ _ _ _ _ E).
  - unfold Scenario2.s1, state_of. rewrite E. reflexivity.
Defined.

Lemma lazy_memstat_reports_nothing_witness :
  LazyTrace.reachable Scenario2.s1.1
  /\ pi_state (page_at Scenario2.s1.1 (Lazy.get_page_info Scenario2.S)) = RESIDENT
  /\ num_pages Scenario2.s1.1 = 0
  /\ ms_pages (memstat_info Scenario2.s1.1) = []
  /\ ms_num_resident_pages (memstat_info Scenario2.s1.1) = 0
  /\ ms_num_swapped_pages (memstat_info Scenario2.s1.1) = 0.
Proof.
  split; [apply lazy_scenario2_reachable|].
  split; [vm_compute; reflexivity|].
  apply (lazy_memstat_reports_nothing Scenario2.s1.1 lazy_scenario2_reachable).
Defined.

Lemma sys_memstat_total_witness :
  0 <= sz dp_boot < 2 ^ 43
  /\ PGSIZE * (ms_num_pages_total (memstat_info dp_boot) - 1) < sz dp_boot
     <= PGSIZE * ms_num_pages_total (memstat_info dp_boot).
Proof.
  split; [vm_compute; split; [discriminate | reflexivity]|].
  apply (sys_memstat_total dp_boot). vm_compute. split; [discriminate | reflexivity].
Defined.

(** ** The victim of [lazy_evict_page] *)

Lemma victim_scan_spec l : forall i n v m,
  (Lazy.victim_scan l i n v m = v
   /\ forall j d, (j < n)%nat -> l !! j = Some d -> pi_state d = RESIDENT ->
        m <= Lazy.u32 (seq d))
  \/ (exists j d, (j < n)%nat /\ l !! j = Some d /\ pi_state d = RESIDENT
        /\ Lazy.victim_scan l i n v m = i + Z.of_nat j
        /\ Lazy.u32 (seq d) < m
        /\ forall j' d', (j' < n)%nat -> l !! j' = Some d' -> pi_state d' = RESIDENT ->
             Lazy.u32 (seq d) <= Lazy.u32 (seq d')
             /\ (Lazy.u32 (seq d') = Lazy.u32 (seq d) -> (j <= j')%nat)).
Proof.
  induction l as [|d0 l IH]; intros i n v m.
  { left. split; [destruct n; reflexivity|]. intros j d _ Hl. discriminate. }
  destruct n as [|n].
  { left. split; [reflexivity|]. intros; lia. }
  cbn [Lazy.victim_scan].
  destruct (state_eqb (pi_state d0) RESIDENT && (Lazy.u32 (seq d0) <? m)) eqn:C.
  - apply andb_true_iff in C as [Hr C]. apply state_eqb_eq in Hr.
    apply Z.ltb_lt in C.
    destruct (IH (i + 1) n i (Lazy.u32 (seq d0)))
      as [[E Hall]|(j & d & Hj & Hl & Hrd & E & Hlt & Hmin)].
    + right. exists 0%nat, d0. split; [lia|]. split; [reflexivity|].
      split; [exact Hr|]. split; [rewrite E; lia|]. split; [exact C|].
      intros [|j'] d' Hj' Hl' Hr'; cbn in Hl'.
      * injection Hl' as <-. split; [lia | intros; lia].
      * pose proof (Hall j' d' ltac:(lia) Hl' Hr'). split; [lia | intros; lia].
    + right. exists (S j), d. split; [lia|]. split; [exact Hl|].
      split; [exact Hrd|]. split; [rewrite E; lia|]. split; [lia|].
      intros [|j'] d' Hj' Hl' Hr'; cbn in Hl'.
      * injection Hl' as <-. split; [lia | intros; lia].
      * destruct (Hmin j' d' ltac:(lia) Hl' Hr') as [A B]. split; [lia|].
        intros T. specialize (B T). lia.
  - assert (Hc : pi_state d0 = RESIDENT -> m <= Lazy.u32 (seq d0)).
    { intros Hr. apply state_eqb_eq in Hr. rewrite Hr in C. cbn in C. lia. }
    destruct (IH (i + 1) n v m)
      as [[E Hall]|(j & d & Hj & Hl & Hrd & E & Hlt & Hmin)].
    + left. split; [exact E|].
      intros [|j'] d' Hj' Hl' Hr'; cbn in Hl'.
      * injection Hl' as <-. apply Hc, Hr'.
      * apply (Hall j' d'); [lia | exact Hl' | exact Hr'].
    + right. exists (S j), d. split; [lia|]. split; [exact Hl|].
      split; [exact Hrd|]. split; [rewrite E; lia|]. split; [exact Hlt|].
      intros [|j'] d' Hj' Hl' Hr'; cbn in Hl'.
      * injection Hl' as <-. pose proof (Hc Hr'). split; [lia | intros; lia].
      * destruct (Hmin j' d' ltac:(lia) Hl' Hr') as [A B]. split; [lia|].
        intros T. specialize (B T). lia.
Qed.

(** X13. [lazy_evict_page] returns -1 and changes nothing when no RESIDENT
    descriptor has a sequence number below 0xFFFFFFFF as an unsigned 32-bit
    number; otherwise its victim is the first RESIDENT descriptor with the
    smallest such number: after a successful eviction that descriptor is no
    longer RESIDENT and its page is unmapped, and a failed one kills the
    process. *)
Theorem lazy_evict_oldest_resident p k r p' k' :
  length (swap_slot_bitmap p) = 32%nat ->
  Lazy.lazy_evict_page p k = (r, p', k') ->
  (r = -1 /\ p' = p /\ k' = k
   /\ forall j, (j < Z.to_nat MAX_PROC_PAGES)%nat -> pi_state (page_at p j) = RESIDENT ->
        Lazy.u32 (seq (page_at p j)) = 4294967295)
  \/ (exists j, (j < Z.to_nat MAX_PROC_PAGES)%nat
        /\ pi_state (page_at p j) = RESIDENT
        /\ Lazy.u32 (seq (page_at p j)) < 4294967295
        /\ (forall j', (j' < Z.to_nat MAX_PROC_PAGES)%nat ->
              pi_state (page_at p j') = RESIDENT ->
              Lazy.u32 (seq (page_at p j)) <= Lazy.u32 (seq (page_at p j'))
              /\ (Lazy.u32 (seq (page_at p j')) = Lazy.u32 (seq (page_at p j)) ->
                  (j <= j')%nat))
        /\ (r = 1 ->
            pi_state (page_at p' j) <> RESIDENT
            /\ walk k' (pi_va (page_at p j)) = None)
        /\ (r <> 1 -> r = -1 /\ killed p' = true)).
Proof.
  intros Hb H.
  destruct (victim_scan_spec (pages p) 0 (Z.to_nat MAX_PROC_PAGES) (-1) 4294967295)
    as [[E Hall]|(j & d & Hj & Hl & Hrd & E & Hlt & Hmin)].
  - left. unfold Lazy.lazy_evict_page in H. rewrite E in H. cbn [Z.eqb] in H.
    inv_pair H. split; [reflexivity|]. split; [reflexivity|]. split; [reflexivity|].
    intros j Hj Hr.
    pose proof (Hall j _ Hj (page_at_resident_lookup _ _ Hr) Hr) as Hge.
    assert (0 <= Lazy.u32 (seq (page_at p j)) < 2 ^ 32)
      by (apply Z.mod_pos_bound; lia).
    lia.
  - right. exists j. rewrite (page_at_lookup _ _ _ Hl).
    split; [exact Hj|]. split; [exact Hrd|]. split; [exact Hlt|].
    split.
    { intros j' Hj' Hr'.
      apply (Hmin j' _ Hj' (page_at_resident_lookup _ _ Hr') Hr'). }
    assert (Hvi : Z.to_nat (Lazy.victim_scan (pages p) 0 (Z.to_nat MAX_PROC_PAGES)
                              (-1) 4294967295) = j) by (rewrite E; lia).
    assert (Hlen : (j < length (pages p))%nat) by (eapply lookup_lt_Some; exact Hl).
    split.
    + intros ->.
      pose proof (lazy_evict_page_ok p k p' k' Hb H) as Hok. cbn zeta in Hok.
      rewrite Hvi, (page_at_lookup _ _ _ Hl) in Hok.
      destruct (Hok Hlen) as (Hst & Hw & _).
      split; [|exact Hw].
      destruct (_ || _); destruct Hst as [-> _]; discriminate.
    + intros Hr. unfold Lazy.lazy_evict_page in H.
      rewrite E in H.
      destruct (Z.eqb_spec (0 + Z.of_nat j) (-1)) as [|_]; [lia|].
      revert H. generalize (log k (EvVICTIM (pi_va (page_at p (Z.to_nat (0 + Z.of_nat j))))
                  (seq (page_at p (Z.to_nat (0 + Z.of_nat j)))))).
      intros kq H.
      destruct (_ || _).
      * destruct (swapfile p =? 0).
        -- destruct (Lazy.create_swap_file p _) as [[r0 p0] k0].
           destruct (negb _).
           ++ apply pair_equal_spec in H as [H _].
              apply pair_equal_spec in H as [<- <-]. auto.
           ++ destruct (Lazy.alloc_swap_slot p0) as [s p1].
              destruct (s <? 0); apply pair_equal_spec in H as [H _];
                apply pair_equal_spec in H as [<- <-]; [auto | contradiction].
        -- destruct (Lazy.alloc_swap_slot p) as [s p1].
           destruct (s <? 0); apply pair_equal_spec in H as [H _];
             apply pair_equal_spec in H as [<- <-]; [auto | contradiction].
      * apply pair_equal_spec in H as [H _].
        apply pair_equal_spec in H as [<- _]. contradiction.
Qed.

(** ** The index of [lazy.c] *)

Lemma lsteady_text p p' :
  lazy_steady p p' -> text_start p' = text_start p /\ text_end p' = text_end p.
Proof. intros (L & _). unfold layout_of in L. split; congruence. Qed.

(** X11. The descriptor index of [lazy.c] is below [MAX_PROC_PAGES], and
    two addresses have the same index exactly when their page numbers differ
    by a multiple of [MAX_PROC_PAGES]; so does an address and the one
    [MAX_PROC_PAGES] pages above it. *)
Theorem lazy_get_page_info_wraps va :
  0 <= va ->
  (Lazy.get_page_info va < Z.to_nat MAX_PROC_PAGES)%nat
  /\ Lazy.get_page_info (va + MAX_PROC_PAGES * PGSIZE) = Lazy.get_page_info va
  /\ forall va', 0 <= va' ->
       Lazy.get_page_info va' = Lazy.get_page_info va <->
       (va' / PGSIZE - va / PGSIZE) mod MAX_PROC_PAGES = 0.
Proof.
  intros Hva. unfold Lazy.get_page_info, MAX_PROC_PAGES, PGSIZE.
  pose proof (Z.mod_pos_bound (va / 4096) 128 ltac:(lia)) as B.
  split; [lia|]. split.
  - replace ((va + 128 * 4096) / 4096) with (va / 4096 + 1 * 128).
    + rewrite Z.mod_add by lia. reflexivity.
    + rewrite (Z.div_add va 128 4096) by lia. lia.
  - intros va' Hva'.
    pose proof (Z.mod_pos_bound (va' / 4096) 128 ltac:(lia)) as B'.
    rewrite Zminus_mod.
    split.
    + intros E. apply Z2Nat.inj in E; try lia. rewrite E, Z.sub_diag. reflexivity.
    + intros E. f_equal.
      assert (-128 < (va' / 4096) mod 128 - (va / 4096) mod 128 < 128) by lia.
      destruct (Z.eq_dec ((va' / 4096) mod 128) ((va / 4096) mod 128)) as [|Hne]; [assumption|].
      exfalso.
      destruct (Z.lt_ge_cases ((va' / 4096) mod 128 - (va / 4096) mod 128) 0).
      * rewrite <- (Z.mod_add _ 1 128) in E by lia. rewrite Z.mod_small in E; lia.
      * rewrite Z.mod_small in E; lia.
Qed.

(** X12. A fault that [lazy_handle_fault] serves on a page whose
    descriptor is not SWAPPED rewrites the descriptor in full (page address,
    RESIDENT, dirty exactly for a write fault, the counter as sequence number,
    no slot) and maps the page writable exactly when it is not text. *)
Theorem lazy_fault_rewrites_descriptor p k va w p' k' :
  length (pages p) = 128%nat ->
  Lazy.lazy_handle_fault p k va w = (0, p', k') ->
  pi_state (page_at p (Lazy.get_page_info (PGROUNDDOWN va))) <> SWAPPED ->
  page_at p' (Lazy.get_page_info (PGROUNDDOWN va))
  = mk_page_info (PGROUNDDOWN va) RESIDENT w (next_fifo_seq p) (-1)
  /\ exists mem,
       walk k' va = Some (mk_pte mem (Lazy.pte_flags p (PGROUNDDOWN va)))
       /\ Z.testbit (Lazy.pte_flags p (PGROUNDDOWN va)) 2
          = negb (Lazy.in_range (text_start p) (text_end p) (PGROUNDDOWN va)).
Proof.
  intros Hlen H Hst. unfold Lazy.lazy_handle_fault in H.
  pose proof (lazy_index_lt (PGROUNDDOWN va)) as Hidx.
  set (i := Lazy.get_page_info (PGROUNDDOWN va)) in *.
  destruct (ismapped k _); [discriminate|].
  destruct (state_eqb (pi_state (page_at p i)) SWAPPED) eqn:Es.
  { apply state_eqb_eq in Es. contradiction. }
  destruct (Lazy.classify p _) as [c valid].
  destruct (negb valid); [discriminate|].
  destruct (Lazy.acquire_frame p _) as [[mem p2] k2] eqn:A.
  pose proof (LazySteady.lz_acquire_frame_steady _ _ _ _ _ A) as St.
  apply lsteady_text in St as [Ets Ete].
  apply lazy_acquire_frame in A as [An Al].
  destruct mem as [pa|]; [|discriminate].
  assert (Hi : (i < length (pages p2))%nat) by lia.
  destruct (mappages _ _ _ _) as [r k3] eqn:M.
  destruct (mappages_result _ _ _ _ _ _ M) as [->|[-> ->]]; cbn [negb Z.eqb] in H;
    [|discriminate].
  apply mappages_ok in M as (_ & _ & ->).
  apply pair_equal_spec in H as [H <-]. apply pair_equal_spec in H as [_ <-].
  split.
  - repeat first
      [ rewrite page_at_set_next
      | rewrite page_at_set_slot by (len_simpl; exact Hi)
      | rewrite page_at_set_seq by (len_simpl; exact Hi)
      | rewrite page_at_set_dirty by (len_simpl; exact Hi)
      | rewrite page_at_set_state by (len_simpl; exact Hi)
      | rewrite page_at_set_va by (len_simpl; exact Hi) ].
    repeat first [ rewrite next_set_dirty | rewrite next_set_state | rewrite next_set_va ].
    cbn. rewrite An. reflexivity.
  - exists pa. split.
    + rewrite !walk_log, <- (walk_round _ va).
      unfold walk. cbn [pagetable set_pagetable]. rewrite !PGROUNDDOWN_idem.
      rewrite lookup_insert_eq. unfold Lazy.pte_flags. rewrite Ets, Ete. reflexivity.
    + unfold Lazy.pte_flags. destruct (Lazy.in_range _ _ _); reflexivity.
Qed.

(** ** The slot allocators in sequence *)

Lemma word_index_lt (W n : Z) s : 0 < W -> 0 <= s < W * n -> 0 <= n ->
  (Z.to_nat (s / W) < Z.to_nat n)%nat.
Proof.
  intros HW Hs Hn. apply Nat2Z.inj_lt.
  rewrite !Z2Nat.id by (try apply Z.div_pos; lia).
  apply Z.div_lt_upper_bound; lia.
Qed.

Lemma dp_alloc_cases p s p' :
  length (swap_slot_bitmap p) = 32%nat ->
  DemandPaging.alloc_swap_slot p = (s, p') ->
  (s = -1 /\ forall j, 0 <= j < MAX_SWAP_SLOTS ->
               DemandPaging.slot_taken (swap_slot_bitmap p) j = true)
  \/ (0 <= s < MAX_SWAP_SLOTS
      /\ DemandPaging.slot_taken (swap_slot_bitmap p) s = false
      /\ (forall j, 0 <= j < s -> DemandPaging.slot_taken (swap_slot_bitmap p) j = true)
      /\ length (swap_slot_bitmap p') = 32%nat
      /\ forall j, 0 <= j < MAX_SWAP_SLOTS ->
           DemandPaging.slot_taken (swap_slot_bitmap p') j
           = if decide (j = s) then true
             else DemandPaging.slot_taken (swap_slot_bitmap p) j).
Proof.
  intros Hlen H. unfold DemandPaging.alloc_swap_slot in H.
  destruct (DemandPaging.alloc_scan _ 0 1024) as [s0 bm'] eqn:E.
  injection H as -> <-.
  apply (dp_alloc_scan_spec _ 1024 0 ltac:(lia) ltac:(lia) Hlen) in E.
  change (0 + Z.of_nat 1024) with 1024 in E. unfold MAX_SWAP_SLOTS.
  destruct E as [(-> & _ & Hall) | (Hr & Hf & Hlow & ->)].
  - left. split; [reflexivity|]. intros j Hj. rewrite dp_taken. apply Hall, Hj.
  - right. split; [exact Hr|]. split; [rewrite dp_taken; exact Hf|].
    split; [intros j Hj; rewrite dp_taken; apply Hlow, Hj|].
    cbn [swap_slot_bitmap set_bitmap].
    split; [rewrite length_insert; exact Hlen|].
    intros j Hj. rewrite !dp_taken. apply taken_set; try lia.
    rewrite Hlen. apply (word_index_lt 32 32); lia.
Qed.

Lemma lazy_alloc_cases p s p' :
  length (swap_slot_bitmap p) = 32%nat ->
  Lazy.alloc_swap_slot p = (s, p') ->
  (s = -1 /\ p' = p
   /\ (MAX_SWAP_SLOTS <= num_swapped_pages p
       \/ forall j, 0 <= j < MAX_SWAP_SLOTS ->
            Lazy.slot_taken (swap_slot_bitmap p) j = true))
  \/ (0 <= s < MAX_SWAP_SLOTS
      /\ num_swapped_pages p < MAX_SWAP_SLOTS
      /\ num_swapped_pages p' = num_swapped_pages p
      /\ Lazy.slot_taken (swap_slot_bitmap p) s = false
      /\ (forall j, 0 <= j < s -> Lazy.slot_taken (swap_slot_bitmap p) j = true)
      /\ length (swap_slot_bitmap p') = 32%nat
      /\ forall j, 0 <= j < MAX_SWAP_SLOTS ->
           Lazy.slot_taken (swap_slot_bitmap p') j
           = if decide (j = s) then true
             else Lazy.slot_taken (swap_slot_bitmap p) j).
Proof.
  intros Hlen H. unfold Lazy.alloc_swap_slot in H.
  destruct (Z.leb_spec MAX_SWAP_SLOTS (num_swapped_pages p)) as [Hg|Hg].
  { injection H as <- <-. left. auto. }
  destruct (Lazy.scan_words _ 0 16) as [s0 bm'] eqn:E.
  injection H as -> <-.
  apply (lazy_scan_words_spec _ 16 0 ltac:(lia) ltac:(lia)) in E.
  change ((0 + Z.of_nat 16) * 64) with 1024 in E. change (0 * 64) with 0 in E.
  unfold MAX_SWAP_SLOTS in *.
  destruct E as [(-> & -> & Hall) | (Hr & Hf & Hlow & ->)].
  - left. split; [reflexivity|]. split; [apply set_bitmap_same|].
    right. intros j Hj. rewrite lazy_taken. apply Hall, Hj.
  - right. split; [exact Hr|]. split; [exact Hg|]. split; [reflexivity|].
    split; [rewrite lazy_taken; exact Hf|].
    split; [intros j Hj; rewrite lazy_taken; apply Hlow, Hj|].
    cbn [swap_slot_bitmap set_bitmap].
    split; [rewrite length_insert; exact Hlen|].
    intros j Hj. rewrite !lazy_taken. apply taken_set; try lia.
    rewrite Hlen. apply (word_index_lt 64 32); lia.
Qed.

(** X16. With either allocator, two successive allocations return
    increasing slots, and after a slot is freed the next allocation returns
    that slot or a lower one ([lazy.c]: while its counter is below
    [MAX_SWAP_SLOTS]). *)
Theorem swap_slots_are_reused p :
  length (swap_slot_bitmap p) = 32%nat ->
  (forall s1 p1 s2 p2,
     DemandPaging.alloc_swap_slot p = (s1, p1) ->
     DemandPaging.alloc_swap_slot p1 = (s2, p2) ->
     0 <= s1 -> 0 <= s2 -> s1 < s2)
  /\ (forall s s' p', 0 <= s < MAX_SWAP_SLOTS ->
        DemandPaging.alloc_swap_slot (DemandPaging.free_swap_slot p s) = (s', p') ->
        0 <= s' <= s)
  /\ (forall s1 p1 s2 p2,
        Lazy.alloc_swap_slot p = (s1, p1) ->
        Lazy.alloc_swap_slot p1 = (s2, p2) ->
        0 <= s1 -> 0 <= s2 -> s1 < s2)
  /\ (forall s s' p', 0 <= s < MAX_SWAP_SLOTS ->
        num_swapped_pages p < MAX_SWAP_SLOTS ->
        Lazy.alloc_swap_slot (Lazy.free_swap_slot p s) = (s', p') ->
        0 <= s' <= s).
Proof.
  intros Hlen. split; [|split; [|split]].
  - intros s1 p1 s2 p2 A1 A2 H1 H2.
    destruct (dp_alloc_cases _ _ _ Hlen A1) as [[-> _]|(R1 & F1 & L1 & Hl1 & T1)]; [lia|].
    destruct (dp_alloc_cases _ _ _ Hl1 A2) as [[-> _]|(R2 & F2 & _)]; [lia|].
    rewrite T1 in F2 by exact R2. destruct (decide (s2 = s1)); [discriminate|].
    destruct (Z.lt_ge_cases s2 s1) as [Hlt|]; [|lia].
    rewrite L1 in F2 by lia. discriminate.
  - intros s s' p' Hs A.
    destruct (dp_free_ok p Hlen s) as [Hfree _].
    assert (Hl' : length (swap_slot_bitmap (DemandPaging.free_swap_slot p s)) = 32%nat).
    { unfold DemandPaging.free_swap_slot. destruct (_ || _); [exact Hlen|].
      cbn [swap_slot_bitmap set_bitmap]. rewrite length_insert. exact Hlen. }
    pose proof (Hfree Hs s Hs) as Fs. destruct (decide (s = s)); [|congruence].
    destruct (dp_alloc_cases _ _ _ Hl' A) as [[_ Hall]|(R & _ & L & _)].
    + rewrite Hall in Fs by exact Hs. discriminate.
    + destruct (Z.lt_ge_cases s s') as [Hlt|]; [|lia].
      rewrite L in Fs by lia. discriminate.
  - intros s1 p1 s2 p2 A1 A2 H1 H2.
    destruct (lazy_alloc_cases _ _ _ Hlen A1) as [[-> _]|(R1 & _ & _ & F1 & L1 & Hl1 & T1)]; [lia|].
    destruct (lazy_alloc_cases _ _ _ Hl1 A2) as [[-> _]|(R2 & _ & _ & F2 & _)]; [lia|].
    rewrite T1 in F2 by exact R2. destruct (decide (s2 = s1)); [discriminate|].
    destruct (Z.lt_ge_cases s2 s1) as [Hlt|]; [|lia].
    rewrite L1 in F2 by lia. discriminate.
  - intros s s' p' Hs Hc A.
    destruct (lazy_free_ok p Hlen s) as [Hfree _].
    assert (Hl' : length (swap_slot_bitmap (Lazy.free_swap_slot p s)) = 32%nat).
    { unfold Lazy.free_swap_slot. destruct (_ || _); [exact Hlen|].
      destruct (_ && _); [|exact Hlen].
      cbn [swap_slot_bitmap set_bitmap]. rewrite length_insert. exact Hlen. }
    assert (Hc' : num_swapped_pages (Lazy.free_swap_slot p s) = num_swapped_pages p).
    { unfold Lazy.free_swap_slot. destruct (_ || _); [reflexivity|].
      destruct (_ && _); reflexivity. }
    pose proof (Hfree Hs s Hs) as Fs. destruct (decide (s = s)); [|congruence].
    destruct (lazy_alloc_cases _ _ _ Hl' A) as [(_ & _ & [Hfull|Hall])|(R & _ & _ & _ & L & _)].
    + lia.
    + rewrite Hall in Fs by exact Hs. discriminate.
    + destruct (Z.lt_ge_cases s s') as [Hlt|]; [|lia].
      rewrite L in Fs by lia. discriminate.
Qed.

(** ** [lazy_free] *)

Lemma iput_lookup k ip j :
  inodes (iput k ip) !! j
  = (fun f => if decide (j = ip)
              then mk_inode (i_ref f - 1) (i_type f) (i_nlink f) (i_data f)
              else f) <$> inodes k !! j.
Proof.
  unfold iput. cbn [inodes set_inodes].
  destruct (decide (j = ip)) as [->|Hne].
  - rewrite lookup_alter_eq. destruct (inodes k !! ip); reflexivity.
  - rewrite lookup_alter_ne by congruence. destruct (inodes k !! j); reflexivity.
Qed.

(** X15. [lazy_free] drops one reference to the swap inode and one to the
    executable, forgets both handles, leaves link counts, file contents,
    descriptors, bitmap and [num_swapped_pages] as they were, and a second
    call releases nothing more. *)
Theorem lazy_free_releases_once p k p1 k1 :
  lazy_free p k = (p1, k1) ->
  swapfile p1 = 0 /\ exec_inode p1 = 0
  /\ pages p1 = pages p
  /\ swap_slot_bitmap p1 = swap_slot_bitmap p
  /\ num_swapped_pages p1 = num_swapped_pages p
  /\ (forall j f, inodes k !! j = Some f ->
        exists f', inodes k1 !! j = Some f'
          /\ i_nlink f' = i_nlink f /\ i_data f' = i_data f
          /\ i_ref f'
             = i_ref f
               - (if decide (j = swapfile p /\ swapfile p <> 0) then 1 else 0)
               - (if decide (j = exec_inode p /\ exec_inode p <> 0) then 1 else 0))
  /\ forall p2 k2, lazy_free p1 k1 = (p2, k2) ->
       p2 = p1 /\ inodes k2 = inodes k1.
Proof.
  unfold lazy_free. intros H.
  destruct (Z.eqb_spec (swapfile p) 0) as [Es|Es]; cbn [negb] in H;
    cbn [exec_inode set_swapfile] in H;
    destruct (Z.eqb_spec (exec_inode p) 0) as [Ee|Ee]; cbn [negb] in H;
    cbn [num_swapped_pages set_swapfile set_exec_inode] in H;
    destruct (0 <? num_swapped_pages p) eqn:En;
    apply pair_equal_spec in H as [E1 E2]; subst p1 k1.
  all: cbn [swapfile exec_inode pages swap_slot_bitmap num_swapped_pages
            set_swapfile set_exec_inode].
  all: rewrite ?Es, ?Ee.
  all: split; [reflexivity|]; split; [reflexivity|]; split; [reflexivity|];
       split; [reflexivity|]; split; [reflexivity|].
  all: split;
    [ intros j f Hf; change (inodes (log ?x ?e)) with (inodes x);
      rewrite ?iput_lookup, ?Hf; cbn [fmap option_fmap option_map];
      eexists; split; [reflexivity|];
      repeat match goal with
             | |- context [decide (j = ?x)] => destruct (decide (j = x))
             | |- context [decide (?P /\ ?Q)] => destruct (decide (P /\ Q))
             end;
      cbn [i_nlink i_data i_ref]; repeat split; try lia; try tauto;
      exfalso; intuition congruence
    | intros p2 k2 H2;
      do 3 (cbn [swapfile exec_inode num_swapped_pages set_swapfile set_exec_inode
                 Z.eqb negb] in H2;
            rewrite ?Es, ?Ee, ?En in H2);
      apply pair_equal_spec in H2 as [E1 E2]; subst p2 k2; split; reflexivity ].
Qed.

(** ** [kexec] *)

Section KexecFacts.
Variable get_page_info : proc -> Z -> option nat * proc.
Variable ELF_PROG_LOAD : Z.
Variable MAXARG : Z.








End KexecFacts.

Lemma u64_small a : 0 <= a < 2 ^ 64 -> u64 a = a.
Proof. intros H. unfold u64. apply Z.mod_small, H. Qed.

Lemma align16 a : 0 <= a -> 0 <= a - a mod 16 <= a /\ (a - a mod 16) mod 16 = 0.
Proof.
  intros Ha. pose proof (Z.mod_pos_bound a 16 ltac:(lia)) as B.
  pose proof (Z.mod_le a 16 Ha ltac:(lia)) as B'.
  split; [lia|]. rewrite Zminus_mod, Z.mod_mod, Z.sub_diag by lia. reflexivity.
Qed.

Section PushFacts.
Variable MAXARG : Z.
Variable copyout : Z -> Z -> bool.
Variable stackbase : Z.
Hypothesis Hbase : PGSIZE <= stackbase.
Hypothesis Htop : stackbase + PGSIZE < 2 ^ 64.

Lemma push_one sp len :
  stackbase <= sp <= stackbase + PGSIZE -> 0 <= len < PGSIZE ->
  let sp1 := u64 (sp - (len + 1)) in
  let sp2 := u64 (sp1 - sp1 mod 16) in
  0 <= sp2 /\ sp2 + len + 1 <= sp /\ sp2 mod 16 = 0.
Proof.
  intros Hsp Hlen. cbn zeta. unfold PGSIZE in *.
  rewrite (u64_small (sp - (len + 1))) by lia.
  destruct (align16 (sp - (len + 1)) ltac:(lia)) as [B M].
  rewrite u64_small by lia. split; [lia|]. split; [lia | exact M].
Qed.

Lemma push_strings_spec lens : forall sp argc us sp' argc' us',
  stackbase <= sp <= stackbase + PGSIZE ->
  Forall (fun len => 0 <= len < PGSIZE) lens ->
  push_strings MAXARG copyout stackbase sp argc us lens = Some (sp', argc', us') ->
  stackbase <= sp' <= sp
  /\ (lens <> [] -> sp' mod 16 = 0 /\ argc' <= MAXARG)
  /\ (lens = [] -> sp' = sp)
  /\ argc' = argc + Z.of_nat (length lens)
  /\ exists new, us' = us ++ new /\ length new = length lens
       /\ (forall i a len, new !! i = Some a -> lens !! i = Some len ->
             sp' <= a /\ a mod 16 = 0 /\ a + len + 1 <= sp
             /\ copyout a (len + 1) = true)
       /\ (forall i j a b len, (i < j)%nat -> new !! i = Some a -> new !! j = Some b ->
             lens !! j = Some len -> b + len + 1 <= a).
Proof.
  induction lens as [|len lens IH]; intros sp argc us sp' argc' us' Hsp Hl H.
  - injection H as <- <- <-. split; [lia|]. split; [congruence|]. split; [reflexivity|].
    split; [cbn; lia|]. exists []. rewrite app_nil_r.
    split; [reflexivity|]. split; [reflexivity|]. split; intros; discriminate.
  - apply Forall_cons in Hl as [Hlen Hl]. cbn [push_strings] in H.
    destruct (Z.leb_spec MAXARG argc) as [|Harg]; [discriminate|].
    destruct (push_one sp len Hsp Hlen) as (P0 & P1 & P2). cbn zeta in *.
    set (sp2 := u64 (u64 (sp - (len + 1)) - u64 (sp - (len + 1)) mod 16)) in *.
    destruct (Z.ltb_spec sp2 stackbase) as [|Hge]; [discriminate|].
    destruct (copyout sp2 (len + 1)) eqn:C; cbn [negb] in H; [|discriminate].
    destruct (IH sp2 (argc + 1) (us ++ [sp2]) sp' argc' us' ltac:(lia) Hl H)
      as (B & Hne & He & -> & new & -> & Hn & Hall & Hsep).
    split; [lia|]. split.
    { intros _. destruct lens as [|l0 lens'].
      - rewrite (He eq_refl). split; [exact P2 | cbn; lia].
      - destruct (Hne ltac:(discriminate)) as [A1 A2]. split; [exact A1 | lia]. }
    split; [discriminate|]. split; [cbn [length]; lia|].
    exists (sp2 :: new). rewrite <- app_assoc. split; [reflexivity|].
    split; [cbn [length]; lia|]. split.
    + intros [|i] a l Ha Hl'; cbn in Ha, Hl'.
      * injection Ha as <-. injection Hl' as <-. repeat split; try lia; assumption.
      * destruct (Hall i a l Ha Hl') as (A1 & A2 & A3 & A4). repeat split; try lia; assumption.
    + intros [|i] [|j] a b l Hij Ha Hb Hl'; cbn in Ha, Hb, Hl'; try lia.
      * injection Ha as <-. destruct (Hall j b l Hb Hl') as (_ & _ & A3 & _). lia.
      * apply (Hsep i j a b l); [lia | assumption..].
Qed.

Lemma push_ustack_spec sp argc sp' :
  stackbase <= sp <= stackbase + PGSIZE -> 0 <= argc -> (argc + 1) * 8 <= PGSIZE ->
  push_ustack copyout stackbase sp argc = Some sp' ->
  stackbase <= sp' /\ sp' + (argc + 1) * 8 <= sp /\ sp' mod 16 = 0
  /\ copyout sp' ((argc + 1) * 8) = true.
Proof.
  intros Hsp Ha Hsz. unfold push_ustack. unfold PGSIZE in *.
  rewrite (u64_small (sp - (argc + 1) * 8)) by lia.
  destruct (align16 (sp - (argc + 1) * 8) ltac:(lia)) as [B M].
  rewrite u64_small by lia.
  destruct (Z.ltb_spec (sp - (argc + 1) * 8 - (sp - (argc + 1) * 8) mod 16) stackbase)
    as [|Hge]; [discriminate|].
  destruct (copyout _ _) eqn:C; cbn [negb]; [|discriminate].
  intros H. injection H as <-. repeat split; try lia; assumption.
Qed.

End PushFacts.




Lemma PGROUNDUP_range a : 0 <= PGROUNDUP a < 2 ^ 64.
Proof. apply PGROUNDDOWN_range. Qed.

Lemma PGROUNDUP_aligned a : PGROUNDUP a mod PGSIZE = 0.
Proof. apply PGROUNDDOWN_aligned. Qed.

Lemma linked_layout gpi : linked gpi ->
  forall p va pi p', gpi p va = (pi, p') -> layout_of p' = layout_of p.
Proof.
  intros [->| ->] p va pi p' H.
  - apply DPSteady.get_page_info_steady in H. apply H.
  - unfold LazyTrace.get in H. injection H as _ <-. reflexivity.
Qed.

Lemma layout_fields p q :
  layout_of p = layout_of q ->
  pid p = pid q /\ sz p = sz q /\ text_start p = text_start q
  /\ text_end p = text_end q /\ data_start p = data_start q
  /\ data_end p = data_end q /\ heap_start p = heap_start q
  /\ stack_top p = stack_top q /\ exec_inode p = exec_inode q
  /\ exec_off p = exec_off q /\ exec_len p = exec_len q.
Proof. unfold layout_of. intros H. repeat split; congruence. Qed.

Lemma kexec_stack_page_layout gpi p sb : linked gpi ->
  layout_of (kexec_stack_page gpi p sb) = layout_of p.
Proof.
  intros Hl. unfold kexec_stack_page. destruct (gpi p sb) as [pi p1] eqn:G.
  apply (linked_layout _ Hl) in G. destruct pi; [|exact G].
  rewrite <- G. reflexivity.
Qed.

Section KexecCommit.
Variable gpi : proc -> Z -> option nat * proc.
Variable ELF_PROG_LOAD : Z.
Variable MAXARG : Z.

Lemma kexec_commit_cases p x r p' sp us :
  kexec gpi ELF_PROG_LOAD MAXARG p x = (r, p', Some (sp, us)) ->
  x_ip x <> 0
  /\ exists L p1 sp1 addrs,
       scan_headers gpi ELF_PROG_LOAD (kexec_clear p) layout0 (x_headers x) = (Some L, p1)
       /\ p' = set_exec_inode
                 (kexec_stack_page gpi
                    (set_layout p1 (l_text_start L) (l_text_end L)
                       (l_data_start L) (l_data_end L) (PGROUNDUP (l_data_end L))
                       (u64 (PGROUNDUP (l_sz L) + (USERSTACK + 1) * PGSIZE))
                       (u64 (PGROUNDUP (l_sz L) + (USERSTACK + 1) * PGSIZE)))
                    (u64 (u64 (PGROUNDUP (l_sz L) + (USERSTACK + 1) * PGSIZE)
                          - USERSTACK * PGSIZE)))
                 (x_ip x)
       /\ push_strings MAXARG (x_copyout x)
            (u64 (u64 (PGROUNDUP (l_sz L) + (USERSTACK + 1) * PGSIZE) - USERSTACK * PGSIZE))
            (u64 (u64 (u64 (PGROUNDUP (l_sz L) + (USERSTACK + 1) * PGSIZE)
                       - USERSTACK * PGSIZE) + PGSIZE))
            0 [] (x_argv x) = Some (sp1, r, addrs)
       /\ push_ustack (x_copyout x)
            (u64 (u64 (PGROUNDUP (l_sz L) + (USERSTACK + 1) * PGSIZE) - USERSTACK * PGSIZE))
            sp1 r = Some sp
       /\ us = addrs ++ [0].
Proof.
  unfold kexec. intros H.
  destruct (Z.eqb_spec (x_ip x) 0) as [|Hip]; [discriminate|].
  destruct (x_elf_ok x); cbn [negb] in H; [|discriminate].
  destruct (x_pagetable_ok x); cbn [negb] in H; [|discriminate].
  destruct (scan_headers _ _ _ _ _) as [[L|] p1] eqn:S; [|discriminate].
  destruct (x_stack_ok x); cbn [negb] in H; [|discriminate].
  destruct (push_strings _ _ _ _ _ _ _) as [[[sp1 argc] addrs]|] eqn:P; [|discriminate].
  destruct (push_ustack _ _ _ _) as [sp2|] eqn:U; [|discriminate].
  apply pair_equal_spec in H as [H Hs]. apply pair_equal_spec in H as [<- <-].
  injection Hs as <- <-.
  split; [exact Hip|]. exists L, p1, sp1, addrs. auto.
Qed.


End KexecCommit.

Lemma stack_no_wrap S :
  0 <= S < 2 ^ 64 -> S mod PGSIZE = 0 ->
  2 * PGSIZE <= u64 (S + (USERSTACK + 1) * PGSIZE) ->
  u64 (S + (USERSTACK + 1) * PGSIZE) = S + 2 * PGSIZE
  /\ S + 2 * PGSIZE < 2 ^ 64.
Proof.
  intros HS Ha H. unfold USERSTACK, u64, PGSIZE in *.
  destruct (Z.lt_ge_cases (S + (1 + 1) * 4096) (2 ^ 64)) as [Hlt|Hge].
  - rewrite Z.mod_small by lia. lia.
  - exfalso. replace (S + (1 + 1) * 4096) with (S + 8192 - 2 ^ 64 + 1 * 2 ^ 64) in H by lia.
    rewrite Z.mod_add in H by lia. rewrite Z.mod_small in H by lia. lia.
Qed.

(** X23. When [kexec] commits, it returns the number of arguments, at most
    [MAXARG]; the stack top is page-aligned and equals [sz]; the stack pointer
    is 16-byte aligned and inside the stack page; every argument string lies
    inside the stack page at a 16-byte aligned address above the argument
    pointers, and no two strings overlap. *)
Theorem kexec_stack_and_arguments gpi ELF_PROG_LOAD MAXARG p x r p' sp us :
  linked gpi ->
  (MAXARG + 1) * 8 <= PGSIZE ->
  Forall (fun len => 0 <= len < PGSIZE) (x_argv x) ->
  kexec gpi ELF_PROG_LOAD MAXARG p x = (r, p', Some (sp, us)) ->
  2 * PGSIZE <= stack_top p' ->
  let stackbase := stack_top p' - USERSTACK * PGSIZE in
  sz p' = stack_top p' /\ stack_top p' mod PGSIZE = 0 /\ stack_top p' < 2 ^ 64
  /\ exec_inode p' = x_ip x /\ x_ip x <> 0
  /\ r = Z.of_nat (length (x_argv x)) /\ (x_argv x <> [] -> r <= MAXARG)
  /\ stackbase <= sp /\ sp mod 16 = 0
  /\ x_copyout x sp ((r + 1) * 8) = true
  /\ exists addrs, us = addrs ++ [0] /\ length addrs = length (x_argv x)
       /\ (forall i a len, addrs !! i = Some a -> x_argv x !! i = Some len ->
             sp + (r + 1) * 8 <= a /\ a mod 16 = 0 /\ a + len + 1 <= stack_top p'
             /\ x_copyout x a (len + 1) = true)
       /\ (forall i j a b len, (i < j)%nat -> addrs !! i = Some a -> addrs !! j = Some b ->
             x_argv x !! j = Some len -> b + len + 1 <= a).
Proof.
  intros Hl Hmax Hlens H Htop.
  apply kexec_commit_cases in H as (Hip & L & p1 & sp1 & addrs & _ & -> & P & U & ->).
  set (S := PGROUNDUP (l_sz L)) in *.
  match goal with
  | |- context [kexec_stack_page gpi ?q ?sb] =>
      pose proof (layout_fields _ _ (kexec_stack_page_layout gpi q sb Hl))
        as (_ & Esz & _ & _ & _ & _ & _ & Est & _);
      set (ps := kexec_stack_page gpi q sb) in *
  end.
  cbn [sz stack_top set_layout] in Esz, Est.
  change (stack_top (set_exec_inode ps (x_ip x))) with (stack_top ps) in *.
  change (sz (set_exec_inode ps (x_ip x))) with (sz ps).
  change (exec_inode (set_exec_inode ps (x_ip x))) with (x_ip x).
  cbn zeta. rewrite Est in *. rewrite Esz.
  destruct (stack_no_wrap S (PGROUNDUP_range _) (PGROUNDUP_aligned _) Htop) as [Et Hlt].
  rewrite Et in *.
  pose proof (PGROUNDUP_range (l_sz L)) as HS. fold S in HS.
  pose proof (PGROUNDUP_aligned (l_sz L)) as HA. fold S in HA.
  assert (Eb : u64 (S + 2 * PGSIZE - USERSTACK * PGSIZE) = S + PGSIZE)
    by (unfold USERSTACK, PGSIZE in *; rewrite u64_small; lia).
  rewrite Eb in *.
  assert (Es : u64 (S + PGSIZE + PGSIZE) = S + 2 * PGSIZE)
    by (unfold PGSIZE in *; rewrite u64_small; lia).
  rewrite Es in *.
  assert (Hb1 : PGSIZE <= S + PGSIZE) by lia.
  assert (Hb2 : S + PGSIZE + PGSIZE < 2 ^ 64) by (unfold PGSIZE in *; lia).
  assert (Hsp0 : S + PGSIZE <= S + 2 * PGSIZE <= S + PGSIZE + PGSIZE)
    by (unfold PGSIZE; lia).
  destruct (push_strings_spec MAXARG (x_copyout x) (S + PGSIZE) Hb1 Hb2
              (x_argv x) (S + 2 * PGSIZE) 0 [] sp1 r addrs Hsp0 Hlens P)
    as (B & Hne & He & Er & new & En & Hn & Hall & Hsep).
  cbn [app] in En. subst new. cbn in Er.
  assert (Hr : 0 <= r /\ (r + 1) * 8 <= PGSIZE).
  { destruct (x_argv x) as [|l0 ls] eqn:Ea.
    - cbn in Er. subst r. unfold PGSIZE. lia.
    - destruct (Hne ltac:(discriminate)) as [_ A]. split; [lia|]. lia. }
  assert (Hsp1 : S + PGSIZE <= sp1 <= S + PGSIZE + PGSIZE) by lia.
  destruct (push_ustack_spec (x_copyout x) (S + PGSIZE) Hb1 Hb2 sp1 r sp
              Hsp1 (proj1 Hr) (proj2 Hr) U)
    as (U1 & U2 & U3 & U4).
  split; [reflexivity|].
  split; [unfold PGSIZE in *; rewrite <- Z.add_mod_idemp_l, HA by lia; reflexivity|].
  split; [exact Hlt|]. split; [reflexivity|]. split; [exact Hip|].
  split; [exact Er|]. split; [intros Hx; apply Hne, Hx|].
  split; [unfold USERSTACK; lia|]. split; [exact U3|]. split; [exact U4|].
  exists addrs. split; [reflexivity|]. split; [exact Hn|]. split.
  - intros i a len Ha Hlen. destruct (Hall i a len Ha Hlen) as (A1 & A2 & A3 & A4).
    repeat split; try lia; assumption.
  - exact Hsep.
Qed.

Section KexecLayout.
Variable gpi : proc -> Z -> option nat * proc.
Variable ELF_PROG_LOAD : Z.



End KexecLayout.


(** X24. Both fault handlers accept the page below the stack that [kexec]
    lays out, as they accept the stack itself. *)
Theorem kexec_leaves_no_guard_page gpi ELF_PROG_LOAD MAXARG p x r p' s va :
  linked gpi ->
  kexec gpi ELF_PROG_LOAD MAXARG p x = (r, p', Some s) ->
  2 * PGSIZE <= stack_top p' ->
  let stackbase := stack_top p' - USERSTACK * PGSIZE in
  stackbase - PGSIZE <= va < stackbase ->
  (forall pi, (DemandPaging.classify p' pi va).2 = true)
  /\ Lazy.classify p' va = (CStack, true).
Proof.
  intros Hl H Htop. cbn zeta. intros Hva. destruct s as [sp us].
  apply kexec_commit_cases in H as (_ & L & p1 & sp1 & addrs & _ & -> & _).
  match type of Htop with
  | context [kexec_stack_page gpi ?q ?sb] =>
      pose proof (layout_fields _ _ (kexec_stack_page_layout gpi q sb Hl))
        as (_ & _ & _ & _ & _ & _ & _ & Est & _);
      set (ps := kexec_stack_page gpi q sb) in *
  end.
  cbn [stack_top set_layout] in Est.
  set (pe := set_exec_inode ps (x_ip x)) in *.
  assert (Ht : stack_top pe = stack_top ps) by reflexivity.
  assert (Hlt : stack_top pe < 2 ^ 64).
  { rewrite Ht, Est. unfold u64. apply Z.mod_pos_bound. lia. }
  unfold USERSTACK in *.
  assert (Eb : u64 (stack_top pe - 2 * PGSIZE) = stack_top pe - 2 * PGSIZE)
    by (unfold PGSIZE in *; rewrite u64_small; lia).
  split.
  - intros pi. unfold DemandPaging.classify.
    destruct (match pi with Some _ => _ | None => _ end); [reflexivity|].
    destruct (DemandPaging.in_range _ _ va); [reflexivity|].
    destruct (DemandPaging.in_range _ _ va); [reflexivity|].
    rewrite Eb.
    destruct (Z.ltb_spec va (stack_top pe)); [|unfold PGSIZE in *; lia].
    destruct (Z.leb_spec (stack_top pe - 2 * PGSIZE) va); [|unfold PGSIZE in *; lia].
    reflexivity.
  - unfold Lazy.classify, Lazy.in_range, USERSTACK.
    change ((1 + 1) * PGSIZE) with (2 * PGSIZE). rewrite Eb.
    destruct (Z.leb_spec (stack_top pe - 2 * PGSIZE) va); [|unfold PGSIZE in *; lia].
    destruct (Z.ltb_spec va (stack_top pe)); [|unfold PGSIZE in *; lia].
    reflexivity.
Qed.











Lemma word_at_insert_eq (l : list Z) (i : nat) v :
  (i < length l)%nat -> word_at (<[i := v]> l) (Z.of_nat i) = v.
Proof.
  intros Hi. unfold word_at. rewrite Nat2Z.id, list_lookup_insert_eq by exact Hi.
  reflexivity.
Qed.

(** X26. What the loader records for a page of a segment: at most [PGSIZE]
    bytes, none exactly when the page lies past the file image of the segment,
    otherwise from the file offset of the page, ending inside the file image
    of the segment, and short only on its last page. *)
Theorem record_page_extent gpi p ph va i p1 :
  gpi p va = (Some i, p1) ->
  (i < length (exec_off p1))%nat -> (i < length (exec_len p1))%nat ->
  0 <= ph_vaddr ph <= va -> va < 2 ^ 64 ->
  0 <= ph_filesz ph < 2 ^ 64 -> 0 <= ph_off ph ->
  ph_off ph + ph_filesz ph < 2 ^ 64 ->
  let p' := record_page gpi p ph va in
  let off := word_at (exec_off p') (Z.of_nat i) in
  let len := word_at (exec_len p') (Z.of_nat i) in
  0 <= len <= PGSIZE
  /\ (len = 0 <-> ph_filesz ph <= va - ph_vaddr ph)
  /\ (len = 0 -> off = 0)
  /\ (0 < len ->
      off = ph_off ph + (va - ph_vaddr ph)
      /\ off + len <= ph_off ph + ph_filesz ph
      /\ (len < PGSIZE -> off + len = ph_off ph + ph_filesz ph)).
Proof.
  intros G Ho Hl Hva Hlt Hfs Hoff Hsum. cbn zeta. unfold record_page. rewrite G.
  assert (Epo : u64 (va - ph_vaddr ph) = va - ph_vaddr ph) by (apply u64_small; lia).
  rewrite Epo.
  change (exec_off (set_state (set_va p1 i va) i UNMAPPED)) with (exec_off p1).
  change (exec_len (set_state (set_va p1 i va) i UNMAPPED)) with (exec_len p1).
  destruct (Z.ltb_spec (va - ph_vaddr ph) (ph_filesz ph)) as [Hin|Hout].
  - cbn [exec_off exec_len set_exec_tables].
    rewrite !word_at_insert_eq by assumption.
    rewrite (u64_small (ph_filesz ph - (va - ph_vaddr ph))) by lia.
    rewrite (u64_small (ph_off ph + (va - ph_vaddr ph))) by lia.
    unfold PGSIZE in *.
    destruct (Z.ltb_spec 4096 (ph_filesz ph - (va - ph_vaddr ph))); repeat split; lia.
  - cbn [exec_off exec_len set_exec_tables].
    rewrite !word_at_insert_eq by assumption. unfold PGSIZE. repeat split; lia.
Qed.

(** ** The names of the swap files *)

Lemma digit_char d : 0 <= d < 10 -> to_char (48 + d) = 48 + d.
Proof. intros H. unfold to_char. apply Z.mod_small. lia. Qed.

Lemma mod_pow10_S a n :
  0 <= a ->
  a mod 10 ^ Z.of_nat (S n) = a mod 10 + 10 * ((a / 10) mod 10 ^ Z.of_nat n).
Proof.
  intros Ha. rewrite Nat2Z.inj_succ, Z.pow_succ_r by lia.
  apply Z.rem_mul_r; [lia|]. apply Z.pow_pos_nonneg; lia.
Qed.

Lemma pid_digits_length n : forall pid, length (pid_digits pid n) = n.
Proof.
  induction n as [|n IH]; intros pid; cbn [pid_digits]; [reflexivity|].
  rewrite length_app, IH. cbn. lia.
Qed.

Lemma pid_digits_inj n : forall a b, 0 <= a -> 0 <= b ->
  pid_digits a n = pid_digits b n <-> a mod 10 ^ Z.of_nat n = b mod 10 ^ Z.of_nat n.
Proof.
  induction n as [|n IH]; intros a b Ha Hb.
  - cbn [pid_digits]. change (10 ^ Z.of_nat 0) with 1. rewrite !Z.mod_1_r. tauto.
  - cbn [pid_digits]. rewrite !Z.quot_div_nonneg, !Z.rem_mod_nonneg by lia.
    pose proof (Z.mod_pos_bound a 10 ltac:(lia)) as Ba.
    pose proof (Z.mod_pos_bound b 10 ltac:(lia)) as Bb.
    rewrite !digit_char by assumption.
    rewrite !mod_pow10_S by assumption.
    assert (Ha' : 0 <= a / 10) by (apply Z.div_pos; lia).
    assert (Hb' : 0 <= b / 10) by (apply Z.div_pos; lia).
    specialize (IH (a / 10) (b / 10) Ha' Hb').
    pose proof (Z.mod_pos_bound (a / 10) (10 ^ Z.of_nat n)
                  ltac:(apply Z.pow_pos_nonneg; lia)) as Ca.
    pose proof (Z.mod_pos_bound (b / 10) (10 ^ Z.of_nat n)
                  ltac:(apply Z.pow_pos_nonneg; lia)) as Cb.
    split.
    + intros E. apply app_inj_tail in E as [E1 E2]. apply IH in E1. lia.
    + intros E.
      assert (E1 : (a / 10) mod 10 ^ Z.of_nat n = (b / 10) mod 10 ^ Z.of_nat n) by lia.
      apply IH in E1. rewrite E1. f_equal. f_equal. lia.
Qed.

Lemma count_digits_spec fuel : forall a,
  0 <= a < 10 ^ Z.of_nat fuel ->
  a < 10 ^ Z.of_nat (count_digits a fuel)
  /\ (a = 0 -> count_digits a fuel = 0%nat)
  /\ (0 < a -> 10 ^ (Z.of_nat (count_digits a fuel) - 1) <= a).
Proof.
  induction fuel as [|fuel IH]; intros a Ha.
  - change (10 ^ Z.of_nat 0) with 1 in Ha. cbn [count_digits].
    split; [cbn; lia|]. split; [reflexivity | lia].
  - cbn [count_digits]. destruct (Z.eqb_spec a 0) as [->|Hne].
    + split; [cbn; lia|]. split; [reflexivity | lia].
    + rewrite Z.quot_div_nonneg by lia.
      rewrite Nat2Z.inj_succ, Z.pow_succ_r in Ha by lia.
      assert (Hq : 0 <= a / 10 < 10 ^ Z.of_nat fuel).
      { split; [apply Z.div_pos; lia|]. apply Z.div_lt_upper_bound; lia. }
      destruct (IH (a / 10) Hq) as (I1 & I2 & I3).
      pose proof (Z.div_mod a 10 ltac:(lia)) as Ed.
      pose proof (Z.mod_pos_bound a 10 ltac:(lia)) as Bd.
      rewrite Nat2Z.inj_succ, Z.pow_succ_r by lia.
      split; [lia|]. split; [lia|]. intros _.
      replace (Z.succ (Z.of_nat (count_digits (a / 10) fuel)) - 1)
        with (Z.of_nat (count_digits (a / 10) fuel)) by lia.
      destruct (Z.eq_dec (a / 10) 0) as [E0|E0].
      * rewrite (I2 E0). cbn. lia.
      * specialize (I3 ltac:(lia)).
        replace (Z.of_nat (count_digits (a / 10) fuel))
          with (Z.succ (Z.of_nat (count_digits (a / 10) fuel) - 1)) by lia.
        rewrite Z.pow_succ_r; [lia|].
        destruct (count_digits (a / 10) fuel); [|lia].
        exfalso. cbn in I1. lia.
Qed.

(** X17. The swap file name of [demand_paging.c] has 11 characters and two
    pids share it exactly when they agree modulo 100000; that of [lazy.c] is
    "/pgswp" without a digit for pid 0 and differs for different pids. *)
Theorem swap_file_names :
  (forall a, length (dp_swap_path a) = 11%nat)
  /\ (forall a b, 0 <= a -> 0 <= b ->
        dp_swap_path a = dp_swap_path b <-> a mod 100000 = b mod 100000)
  /\ lazy_swap_path 0 = pgswp
  /\ (forall a b, 0 <= a < 2 ^ 31 -> 0 <= b < 2 ^ 31 ->
        lazy_swap_path a = lazy_swap_path b <-> a = b).
Proof.
  split; [|split; [|split]].
  - intros a. unfold dp_swap_path. rewrite length_app, pid_digits_length. reflexivity.
  - intros a b Ha Hb. unfold dp_swap_path.
    rewrite <- (pid_digits_inj 5 a b Ha Hb). split; [apply app_inv_head | congruence].
  - reflexivity.
  - intros a b Ha Hb. split; [|congruence]. unfold lazy_swap_path. intros E.
    apply app_inv_head in E.
    assert (Fa : 0 <= a < 10 ^ Z.of_nat 10) by (change (10 ^ Z.of_nat 10) with 10000000000; lia).
    assert (Fb : 0 <= b < 10 ^ Z.of_nat 10) by (change (10 ^ Z.of_nat 10) with 10000000000; lia).
    destruct (count_digits_spec 10 a Fa) as (A1 & _).
    destruct (count_digits_spec 10 b Fb) as (B1 & _).
    pose proof (f_equal length E) as El. rewrite !pid_digits_length in El.
    rewrite <- El in *.
    apply pid_digits_inj in E; [|lia..].
    rewrite !Z.mod_small in E; lia.
Qed.

(** ** Reachable states of [demand_paging.c] *)




(** X10. The fault handlers change nothing but descriptors, bitmap and
    counters: [handle_page_fault] and [handle_write_fault] keep the layout,
    what [kexec] recorded, the swap file handle and the [killed] flag, and
    let [num_pages] only grow, up to [MAX_PROC_PAGES]; [lazy_handle_fault]
    keeps the layout, what [kexec] recorded and [num_pages]. *)
Theorem fault_handlers_frame :
  (forall p k va w r p' k',
     DemandPaging.handle_page_fault p k va w = (r, p', k') -> dp_steady p p')
  /\ (forall p k va r p' k',
        DemandPaging.handle_write_fault p k va = (r, p', k') -> dp_steady p p')
  /\ (forall p k va w r p' k',
        Lazy.lazy_handle_fault p k va w = (r, p', k') -> lazy_steady p p').
Proof.
  split; [|split].
  - apply DPSteady.handle_page_fault_steady.
  - apply DPSteady.handle_write_fault_steady.
  - apply LazySteady.lazy_handle_fault_steady.
Qed.

(** ** More on [sys_memstat] and on the swap file of [lazy.c] *)

(** X21. Under [demand_paging.c] [sys_memstat] reports every descriptor in
    use. *)
Theorem dp_memstat_reports_table p :
  DPTrace.reachable p ->
  length (ms_pages (memstat_info p)) = Z.to_nat (num_pages p)
  /\ forall i, (i < Z.to_nat (num_pages p))%nat ->
       ms_pages (memstat_info p) !! i = Some (stat_of (page_at p i)).
Proof.
  intros R. destruct (dp_reachable_shape p R) as (Hn & Hl & _).
  destruct (memstat_fields p) as (Hp & _). cbn zeta in Hp. rewrite Hp.
  unfold MAX_PAGES_INFO, MAX_PROC_PAGES in *.
  rewrite Z.min_l by lia. split.
  - rewrite length_fmap, length_take. lia.
  - intros i Hi. rewrite list_lookup_fmap, lookup_take_lt by exact Hi.
    unfold page_at. destruct (pages p !! i) as [d|] eqn:E; [reflexivity|].
    apply lookup_ge_None in E. lia.
Qed.

(** *** The swap file under [lazy.c] *)









(** ** Instances *)

Lemma dp_boot_reachable : DPTrace.reachable dp_boot.
Proof.
  apply (DPTrace.reach_step
           (set_layout (DemandPaging.demand_paging_init proc0)
              0 4096 4096 8192 8192 16384 24576)).
  - apply (DPTrace.reach_step (DemandPaging.demand_paging_init proc0)).
    + apply DPTrace.reach_init.
    + apply DPTrace.step_exec_layout.
  - apply DPTrace.step_exec_inode.
Defined.

Lemma dp_scenario1_s0_reachable : DPTrace.reachable Scenario1.s0.1.
Proof.
  apply (DPTrace.reach_step dp_boot); [apply dp_boot_reachable|].
  destruct (DemandPaging.create_swap_file dp_boot (boot_kernel [FRAME] (64 * PGSIZE) []))
    as [[r p'] k'] eqn:E.
  replace (Scenario1.s0.1) with p'.
  - exact (DPTrace.step_create _ _ _ _ _ E).
  - unfold Scenario1.s0, state_of. rewrite E. reflexivity.
Defined.

Lemma dp_scenario1_s1_reachable : DPTrace.reachable Scenario1.s1.1.
Proof.
  apply (DPTrace.reach_step Scenario1.s0.1); [apply dp_scenario1_s0_reachable|].
  destruct (DemandPaging.handle_page_fault Scenario1.s0.1 Scenario1.s0.2 Scenario1.A true)
    as [[r p'] k'] eqn:E.
  replace (Scenario1.s1.1) with p'.
  - exact (DPTrace.step_fault _ _ _ _ _ _ _ E).
  - unfold Scenario1.s1, state_of. rewrite E. reflexivity.
Defined.

Lemma dp_wf_boot : dp_wf dp_boot.
Proof. split; [vm_compute; split; discriminate | reflexivity]. Defined.

Lemma dp_get_page_info_lookup_or_create_witness :
  dp_wf dp_boot
  /\ DemandPaging.get_page_info dp_boot 16400
     = (Some 0%nat, (DemandPaging.get_page_info dp_boot 16400).2)
  /\ (0 < Z.to_nat MAX_PROC_PAGES)%nat
  /\ pi_va (page_at (DemandPaging.get_page_info dp_boot 16400).2 0) = PGROUNDDOWN 16400.
Proof.
  split; [apply dp_wf_boot|]. split; [vm_compute; reflexivity|].
  destruct (dp_get_page_info_lookup_or_create dp_boot 16400 0
              (DemandPaging.get_page_info dp_boot 16400).2 dp_wf_boot)
    as (A & B & _).
  - vm_compute. reflexivity.
  - split; [exact A | exact B].
Defined.

Lemma dp_wf_full : dp_wf Scenario8.full.
Proof. split; [vm_compute; split; discriminate | reflexivity]. Defined.

Lemma dp_get_page_info_full_witness :
  dp_wf Scenario8.full
  /\ ((exists p', DemandPaging.get_page_info Scenario8.full 16384 = (None, p'))
      <-> (num_pages Scenario8.full = MAX_PROC_PAGES
           /\ forall j, (j < Z.to_nat MAX_PROC_PAGES)%nat ->
                pi_va (page_at Scenario8.full j) <> PGROUNDDOWN 16384)).
Proof.
  split; [apply dp_wf_full|].
  apply (dp_get_page_info_full Scenario8.full 16384 dp_wf_full).
Defined.

Lemma dp_get_page_info_distinct_witness :
  dp_wf dp_boot
  /\ PGROUNDDOWN 16384 <> PGROUNDDOWN 20480
  /\ (0 <> 1)%nat
  /\ pi_va (page_at (DemandPaging.get_page_info
                       (DemandPaging.get_page_info dp_boot 16384).2 20480).2 0)
     = PGROUNDDOWN 16384
  /\ pi_va (page_at (DemandPaging.get_page_info
                       (DemandPaging.get_page_info dp_boot 16384).2 20480).2 1)
     = PGROUNDDOWN 20480.
Proof.
  split; [apply dp_wf_boot|]. split; [vm_compute; discriminate|].
  apply (dp_get_page_info_distinct dp_boot 16384 20480 0
           (DemandPaging.get_page_info dp_boot 16384).2 1
           (DemandPaging.get_page_info
              (DemandPaging.get_page_info dp_boot 16384).2 20480).2 dp_wf_boot).
  - vm_compute. reflexivity.
  - vm_compute. reflexivity.
  - vm_compute. discriminate.
Defined.



Lemma dp_write_fault_marks_dirty_witness :
  DemandPaging.handle_write_fault Scenario1.s1.1 Scenario1.s1.2 Scenario1.A
  = (0, (DemandPaging.handle_write_fault Scenario1.s1.1 Scenario1.s1.2 Scenario1.A).1.2,
     (DemandPaging.handle_write_fault Scenario1.s1.1 Scenario1.s1.2 Scenario1.A).2)
  /\ exists e,
       walk (DemandPaging.handle_write_fault Scenario1.s1.1 Scenario1.s1.2 Scenario1.A).2
         Scenario1.A = Some e
       /\ Z.testbit (pte_perm e) 2 = true.
Proof.
  split; [vm_compute; reflexivity|].
  destruct (dp_write_fault_marks_dirty Scenario1.s1.1 Scenario1.s1.2 Scenario1.A 0
              (DemandPaging.handle_write_fault Scenario1.s1.1 Scenario1.s1.2 Scenario1.A).1.2
              (DemandPaging.handle_write_fault Scenario1.s1.1 Scenario1.s1.2 Scenario1.A).2)
    as [(_ & i & e & _ & _ & _ & _ & _ & Hw & Hb & _)|(Hr & _)].
  - vm_compute. reflexivity.
  - eexists. split; [exact Hw | exact Hb].
  - discriminate Hr.
Defined.

Lemma dp_swap_round_trip_witness :
  0 <= num_pages Scenario1.s2.1 <= MAX_PROC_PAGES
  /\ length (pages Scenario1.s2.1) = Z.to_nat MAX_PROC_PAGES
  /\ length (swap_slot_bitmap Scenario1.s2.1) = 32%nat
  /\ (DemandPaging.swap_out_page Scenario1.s2.1 Scenario1.s2.2 Scenario1.A FRAME).1.1 = 0
  /\ (DemandPaging.swap_in_page
        (DemandPaging.swap_out_page Scenario1.s2.1 Scenario1.s2.2 Scenario1.A FRAME).1.2
        (DemandPaging.swap_out_page Scenario1.s2.1 Scenario1.s2.2 Scenario1.A FRAME).2
        Scenario1.A Scenario6.FRAME2).1.1 = 0
  /\ take (Z.to_nat PGSIZE)
       (frame (DemandPaging.swap_in_page
                 (DemandPaging.swap_out_page Scenario1.s2.1 Scenario1.s2.2
                    Scenario1.A FRAME).1.2
                 (DemandPaging.swap_out_page Scenario1.s2.1 Scenario1.s2.2
                    Scenario1.A FRAME).2
                 Scenario1.A Scenario6.FRAME2).2 Scenario6.FRAME2)
     = take (Z.to_nat PGSIZE) (frame Scenario1.s2.2 FRAME)
  /\ peek Scenario1.s2.2 FRAME 0 = 81.
Proof.
  split; [vm_compute; split; discriminate|]. split; [reflexivity|].
  split; [reflexivity|]. split; [vm_compute; reflexivity|].
  split; [vm_compute; reflexivity|]. split; [|vm_compute; reflexivity].
  apply (dp_swap_round_trip Scenario1.s2.1 Scenario1.s2.2 Scenario1.A FRAME 0
           (DemandPaging.swap_out_page Scenario1.s2.1 Scenario1.s2.2 Scenario1.A FRAME).1.2
           (DemandPaging.swap_out_page Scenario1.s2.1 Scenario1.s2.2 Scenario1.A FRAME).2
           (DemandPaging.swap_out_page Scenario1.s2.1 Scenario1.s2.2 Scenario1.A FRAME).2
           Scenario6.FRAME2
           (DemandPaging.swap_in_page
              (DemandPaging.swap_out_page Scenario1.s2.1 Scenario1.s2.2
                 Scenario1.A FRAME).1.2
              (DemandPaging.swap_out_page Scenario1.s2.1 Scenario1.s2.2
                 Scenario1.A FRAME).2
              Scenario1.A Scenario6.FRAME2).1.2
           (DemandPaging.swap_in_page
              (DemandPaging.swap_out_page Scenario1.s2.1 Scenario1.s2.2
                 Scenario1.A FRAME).1.2
              (DemandPaging.swap_out_page Scenario1.s2.1 Scenario1.s2.2
                 Scenario1.A FRAME).2
              Scenario1.A Scenario6.FRAME2).2).
  - vm_compute. split; discriminate.
  - reflexivity.
  - reflexivity.
  - vm_compute. reflexivity.
  - lia.
  - reflexivity.
  - vm_compute. reflexivity.
Defined.

Lemma dp_fault_maps_read_only_witness :
  DemandPaging.handle_page_fault Scenario1.s0.1 Scenario1.s0.2 Scenario1.A true
  = (0, Scenario1.s1.1, Scenario1.s1.2)
  /\ exists pa perm,
       walk Scenario1.s1.2 Scenario1.A = Some (mk_pte pa perm)
       /\ Z.testbit perm 2 = false.
Proof.
  split; [vm_compute; reflexivity|].
  destruct (dp_fault_maps_read_only Scenario1.s0.1 Scenario1.s0.2 Scenario1.A true
              Scenario1.s1.1 Scenario1.s1.2)
    as (pa & perm & Hw & _ & _ & Hb & _).
  - vm_compute. reflexivity.
  - exists pa, perm. split; [exact Hw | exact Hb].
Defined.

Lemma dp_fault_untracked_when_full_witness :
  DemandPaging.get_page_info Scenario8.full 16384 = (None, Scenario8.full)
  /\ exists k',
       DemandPaging.handle_page_fault Scenario8.full Scenario8.k0 16384 true
       = (0, Scenario8.full, k')
       /\ exists perm, walk k' 16384 = Some (mk_pte FRAME perm).
Proof.
  split; [vm_compute; reflexivity|].
  apply (dp_fault_untracked_when_full Scenario8.full Scenario8.k0 16384 true FRAME []).
  - vm_compute. reflexivity.
  - vm_compute. reflexivity.
  - vm_compute. discriminate.
  - reflexivity.
  - vm_compute. discriminate.
  - reflexivity.
  - vm_compute. reflexivity.
Defined.

Lemma lazy_get_page_info_wraps_witness :
  0 <= 8192
  /\ (Lazy.get_page_info 8192 < Z.to_nat MAX_PROC_PAGES)%nat
  /\ Lazy.get_page_info (8192 + MAX_PROC_PAGES * PGSIZE) = Lazy.get_page_info 8192.
Proof.
  split; [lia|].
  destruct (lazy_get_page_info_wraps 8192) as (A & B & _); [lia|].
  split; [exact A | exact B].
Defined.

Lemma lazy_fault_rewrites_descriptor_witness :
  length (pages Scenario2.s0.1) = 128%nat
  /\ Lazy.lazy_handle_fault Scenario2.s0.1 Scenario2.s0.2 Scenario2.S true
     = (0, Scenario2.s1.1, Scenario2.s1.2)
  /\ pi_state (page_at Scenario2.s0.1 (Lazy.get_page_info (PGROUNDDOWN Scenario2.S)))
     <> SWAPPED
  /\ page_at Scenario2.s1.1 (Lazy.get_page_info (PGROUNDDOWN Scenario2.S))
     = mk_page_info (PGROUNDDOWN Scenario2.S) RESIDENT true
         (next_fifo_seq Scenario2.s0.1) (-1).
Proof.
  split; [reflexivity|]. split; [vm_compute; reflexivity|].
  split; [vm_compute; discriminate|].
  apply (lazy_fault_rewrites_descriptor Scenario2.s0.1 Scenario2.s0.2 Scenario2.S true
           Scenario2.s1.1 Scenario2.s1.2).
  - reflexivity.
  - vm_compute. reflexivity.
  - vm_compute. discriminate.
Defined.

Lemma lazy_evict_oldest_resident_witness :
  length (swap_slot_bitmap Scenario6.s2.1) = 32%nat
  /\ Scenario6.out.1.1 = 1
  /\ exists j, (j < Z.to_nat MAX_PROC_PAGES)%nat
       /\ pi_state (page_at Scenario6.s2.1 j) = RESIDENT
       /\ pi_state (page_at Scenario6.out.1.2 j) <> RESIDENT.
Proof.
  split; [reflexivity|]. split; [vm_compute; reflexivity|].
  destruct (lazy_evict_oldest_resident Scenario6.s2.1 Scenario6.s2.2
              1 Scenario6.out.1.2 Scenario6.out.2)
    as [(Hr & _)|(j & Hj & Hres & _ & _ & Hok & _)].
  - reflexivity.
  - vm_compute. reflexivity.
  - discriminate Hr.
  - exists j. split; [exact Hj|]. split; [exact Hres|]. apply Hok. reflexivity.
Defined.

Lemma swap_slots_are_reused_witness :
  length (swap_slot_bitmap dp_boot) = 32%nat
  /\ (DemandPaging.alloc_swap_slot dp_boot).1
     < (DemandPaging.alloc_swap_slot (DemandPaging.alloc_swap_slot dp_boot).2).1
  /\ 0 <= (Lazy.alloc_swap_slot (Lazy.free_swap_slot dp_boot 7)).1 <= 7.
Proof.
  split; [reflexivity|].
  destruct (swap_slots_are_reused dp_boot) as (H1 & _ & _ & H4); [reflexivity|].
  split.
  - apply (H1 _ (DemandPaging.alloc_swap_slot dp_boot).2 _
             (DemandPaging.alloc_swap_slot (DemandPaging.alloc_swap_slot dp_boot).2).2).
    + vm_compute. reflexivity.
    + vm_compute. reflexivity.
    + vm_compute. discriminate.
    + vm_compute. discriminate.
  - apply (H4 7 _ (Lazy.alloc_swap_slot (Lazy.free_swap_slot dp_boot 7)).2).
    + vm_compute. split; [discriminate | reflexivity].
    + vm_compute. reflexivity.
    + vm_compute. reflexivity.
Defined.

Lemma lazy_free_releases_once_witness :
  swapfile Scenario2.s2.1 <> 0 /\ exec_inode Scenario2.s2.1 <> 0
  /\ swapfile (lazy_free Scenario2.s2.1 Scenario2.s2.2).1 = 0
  /\ exec_inode (lazy_free Scenario2.s2.1 Scenario2.s2.2).1 = 0
  /\ num_swapped_pages (lazy_free Scenario2.s2.1 Scenario2.s2.2).1
     = num_swapped_pages Scenario2.s2.1.
Proof.
  split; [vm_compute; discriminate|]. split; [vm_compute; discriminate|].
  destruct (lazy_free_releases_once Scenario2.s2.1 Scenario2.s2.2
              (lazy_free Scenario2.s2.1 Scenario2.s2.2).1
              (lazy_free Scenario2.s2.1 Scenario2.s2.2).2)
    as (A & B & _ & _ & C & _).
  - vm_compute. reflexivity.
  - split; [exact A|]. split; [exact B | exact C].
Defined.

Lemma linked_dp : linked DemandPaging.get_page_info.
Proof. left. reflexivity. Defined.



Lemma kexec_stack_and_arguments_witness :
  linked DemandPaging.get_page_info
  /\ (32 + 1) * 8 <= PGSIZE
  /\ Forall (fun len => 0 <= len < PGSIZE) (x_argv Scenario7.env)
  /\ Scenario7.out.2 = Some (20416, [20464; 20448; 0])
  /\ 2 * PGSIZE <= stack_top Scenario7.out.1.2
  /\ sz Scenario7.out.1.2 = stack_top Scenario7.out.1.2
  /\ stack_top Scenario7.out.1.2 mod PGSIZE = 0
  /\ stack_top Scenario7.out.1.2 < 2 ^ 64
  /\ exec_inode Scenario7.out.1.2 = x_ip Scenario7.env.
Proof.
  assert (Hargs : Forall (fun len => 0 <= len < PGSIZE) (x_argv Scenario7.env)).
  { repeat constructor; discriminate. }
  split; [apply linked_dp|]. split; [vm_compute; discriminate|].
  split; [exact Hargs|]. split; [vm_compute; reflexivity|].
  split; [vm_compute; discriminate|].
  destruct (kexec_stack_and_arguments DemandPaging.get_page_info 1 32
              Scenario7.p0 Scenario7.env 2 Scenario7.out.1.2 20416 [20464; 20448; 0]
              linked_dp)
    as (A & B & C & D & _).
  - vm_compute. discriminate.
  - exact Hargs.
  - vm_compute. reflexivity.
  - vm_compute. discriminate.
  - split; [exact A|]. split; [exact B|]. split; [exact C | exact D].
Defined.

Lemma kexec_leaves_no_guard_page_witness :
  linked DemandPaging.get_page_info
  /\ 2 * PGSIZE <= stack_top Scenario7.out.1.2
  /\ stack_top Scenario7.out.1.2 - USERSTACK * PGSIZE - PGSIZE <= 12288
     < stack_top Scenario7.out.1.2 - USERSTACK * PGSIZE
  /\ (forall pi, (DemandPaging.classify Scenario7.out.1.2 pi 12288).2 = true)
  /\ Lazy.classify Scenario7.out.1.2 12288 = (CStack, true).
Proof.
  split; [apply linked_dp|]. split; [vm_compute; discriminate|].
  split; [vm_compute; split; [discriminate | reflexivity]|].
  apply (kexec_leaves_no_guard_page DemandPaging.get_page_info 1 32
           Scenario7.p0 Scenario7.env 2 Scenario7.out.1.2
           (20416, [20464; 20448; 0]) 12288 linked_dp).
  - vm_compute. reflexivity.
  - vm_compute. discriminate.
  - vm_compute. split; [discriminate | reflexivity].
Defined.


Lemma record_page_extent_witness :
  DemandPaging.get_page_info (kexec_clear dp_boot) 0
  = (Some 0%nat, (DemandPaging.get_page_info (kexec_clear dp_boot) 0).2)
  /\ word_at (exec_off (record_page DemandPaging.get_page_info (kexec_clear dp_boot)
                          Scenario4.text_ph 0)) 0 = 4096
  /\ word_at (exec_len (record_page DemandPaging.get_page_info (kexec_clear dp_boot)
                          Scenario4.text_ph 0)) 0 = 16
  /\ 0 <= word_at (exec_len (record_page DemandPaging.get_page_info (kexec_clear dp_boot)
                               Scenario4.text_ph 0)) (Z.of_nat 0) <= PGSIZE.
Proof.
  split; [vm_compute; reflexivity|]. split; [vm_compute; reflexivity|].
  split; [vm_compute; reflexivity|].
  destruct (record_page_extent DemandPaging.get_page_info (kexec_clear dp_boot)
              Scenario4.text_ph 0 0
              (DemandPaging.get_page_info (kexec_clear dp_boot) 0).2) as (A & _).
  - vm_compute. reflexivity.
  - vm_compute. lia.
  - vm_compute. lia.
  - vm_compute. split; discriminate.
  - reflexivity.
  - vm_compute. split; [discriminate | reflexivity].
  - vm_compute. discriminate.
  - reflexivity.
  - exact A.
Defined.

Lemma dp_memstat_reports_table_witness :
  DPTrace.reachable Scenario1.s1.1
  /\ length (ms_pages (memstat_info Scenario1.s1.1)) = 1%nat
  /\ ms_pages (memstat_info Scenario1.s1.1) !! 0%nat
     = Some (mk_page_stat 16384 RESIDENT false 0 (-1)).
Proof.
  split; [apply dp_scenario1_s1_reachable|].
  destruct (dp_memstat_reports_table Scenario1.s1.1 dp_scenario1_s1_reachable)
    as [A B].
  split; [exact A|]. apply (B 0%nat). vm_compute. lia.
Defined.


